(** * Snooker practice simulator (sketch.js): a shallow embedding

    The sketch is a p5.js program driving a Matter.js world.  JavaScript
    numbers are modelled as exact rationals ([Q]): every constant of the
    source ([0.86], [1.5], [0.012], ...) is the rational it denotes, and
    [+ - * /] are the exact operations.  Comparisons are the boolean
    comparisons of [Q], so every definition below computes.

    The two libraries are modelled at their interface only:
    - p5: [min], [constrain], [floor], [abs], [dist], [random], and the
      transcendental [cos], [sin], [sqrt], which are taken as an interface
      ([P5Math]) because they leave the rationals;
    - Matter: a body is its position, its velocity, the forces applied to it
      and whether it currently belongs to the world; what the engine and
      [stepBalls] do to positions and velocities during a frame is an input
      of the frame ([Physics]).

    Every division of the source is by a numeral, or guarded against a zero
    divisor, except the one of [rayCircleHit], whose divisor is the squared
    length of the ray direction, and the one of [mouseDragged], whose
    divisor is ten ball diameters; what is stated about them assumes the
    divisor is not zero.

    The state of the game proper is [State]; the interaction variables
    (theme, aiming drag) are added in [Sketch].  Of the rendering, the
    trail of a ball, the two buttons and the statistics panel are modelled
    on their own ([stepTrail], [hudUi], [drawStatsAndLogPanel]); confetti
    and the draws it makes, and the text and the timer of the notice card,
    are left out. *)

From Stdlib Require Import QArith Qminmax Qabs Qround ZArith List Bool String Lia Lqa.
Import ListNotations.
Open Scope Q_scope.

(* ------------------------------------------------------------------ *)
(** ** Numbers *)

Definition Qltb (a b : Q) : bool := negb (Qle_bool b a).
Definition Qgtb (a b : Q) : bool := Qltb b a.
Definition Qgeb (a b : Q) : bool := Qle_bool b a.

Definition sq (a : Q) : Q := a * a.

(** p5 [constrain(n, low, high)] is [Math.max(Math.min(n, high), low)]. *)
Definition constrain (n low high : Q) : Q := Qmax (Qmin n high) low.

(** p5 [dist(x1, y1, x2, y2)] is the Euclidean distance.  The source only
    ever compares it with a bound; over the reals
    [sqrt s < d] is [0 < d /\ s < d^2] and [sqrt s <= d] is
    [0 <= d /\ s <= d^2], which is what is computed here. *)
Definition dist2 (x1 y1 x2 y2 : Q) : Q := sq (x2 - x1) + sq (y2 - y1).

Definition dist_lt (x1 y1 x2 y2 d : Q) : bool :=
  Qltb 0 d && Qltb (dist2 x1 y1 x2 y2) (sq d).

Definition dist_le (x1 y1 x2 y2 d : Q) : bool :=
  Qle_bool 0 d && Qle_bool (dist2 x1 y1 x2 y2) (sq d).

(** [dist(..) >= d], the negation of [dist(..) < d], as a proposition. *)
Definition dist_ge (x1 y1 x2 y2 d : Q) : Prop :=
  d <= 0 \/ sq d <= dist2 x1 y1 x2 y2.

(* ------------------------------------------------------------------ *)
(** ** Geometry / table *)

Record Point := mkPoint { p_x : Q; p_y : Q }.

(** [{x, y, w, h}] *)
Record Rect := mkRect { r_x : Q; r_y : Q; r_w : Q; r_h : Q }.

Record Spots := mkSpots {
  brown : Point; green : Point; yellow : Point;
  blue : Point; pink : Point; black : Point }.

(** The [table] object built by [rebuildTableGeometry]; [t_cw] and [t_ch]
    are its [_w] and [_h] (the canvas size it was computed for). *)
Record Table := mkTable {
  t_cw : Q; t_ch : Q;
  t_x : Q; t_y : Q; t_w : Q; t_h : Q;
  rail : Q;
  surface : Rect;
  ballD : Q; ballR : Q; pocketR : Q;
  baulkX : Q; dRadius : Q; dCenter : Point;
  spots : Spots }.

Module UI_LAYOUT.
Definition topBarH : Q := 40.
Definition bottomBarH : Q := 32.
Definition sidePad : Q := 20.
Definition panelW : Q := 240.
Definition panelH : Q := 220.
Definition panelGap : Q := 16.
End UI_LAYOUT.

(** The pocket diameter computed inside [rebuildTableGeometry]. *)
Definition pocketD_of (ballD : Q) : Q := 1.5 * ballD.

(** [rebuildTableGeometry], as a function of the canvas [width] and
    [height] it reads. *)
Definition rebuildTableGeometry (width height : Q) : Table :=
  let reserveRight := UI_LAYOUT.panelW + UI_LAYOUT.panelGap + UI_LAYOUT.sidePad in
  let canReserveRight := Qgeb width 980 in
  let usableHeight := height - (UI_LAYOUT.topBarH + UI_LAYOUT.bottomBarH) in
  let maxWidthFromHeight := usableHeight * 0.86 in
  let lengthByHeight := maxWidthFromHeight * 2 in
  let maxLengthFromWidth :=
    if canReserveRight then width - UI_LAYOUT.sidePad - reserveRight
    else width * 0.86 in
  let tableLength := Qmin maxLengthFromWidth lengthByHeight in
  let tableWidth := tableLength / 2 in
  let x := if canReserveRight then UI_LAYOUT.sidePad
           else (width - tableLength) / 2 in
  let y := UI_LAYOUT.topBarH + (usableHeight - tableWidth) / 2 in
  let ballD := tableWidth / 36 in
  let ballR := ballD / 2 in
  let pocketD := pocketD_of ballD in
  let pocketR := pocketD / 2 in
  let rail := ballD * 1.6 in
  let surface := mkRect (x + rail) (y + rail)
                        (tableLength - 2 * rail) (tableWidth - 2 * rail) in
  let baulkX := r_x surface + r_w surface * 0.207 in
  let dRadius := r_h surface * 0.165 in
  let dCenter := mkPoint baulkX (r_y surface + r_h surface / 2) in
  let center := mkPoint (r_x surface + r_w surface / 2)
                        (r_y surface + r_h surface / 2) in
  let blackX := r_x surface + r_w surface * 0.91 in
  let blueX := p_x center in
  let pinkX := r_x surface + r_w surface * 0.75 in
  mkTable width height x y tableLength tableWidth rail surface
          ballD ballR pocketR baulkX dRadius dCenter
          (mkSpots (mkPoint baulkX (p_y center))
                   (mkPoint baulkX (p_y center - dRadius))
                   (mkPoint baulkX (p_y center + dRadius))
                   (mkPoint blueX (p_y center))
                   (mkPoint pinkX (p_y center))
                   (mkPoint blackX (p_y center))).

Inductive PocketId := TL | TM | TR | BL | BM | BR.

Record Pocket := mkPocket { pk_id : PocketId; pk_x : Q; pk_y : Q }.

Definition buildPocketList (table : Table) : list Pocket :=
  let s := surface table in
  let r := pocketR table in
  let inset := r * 0.2 in
  [ mkPocket TL (r_x s + inset) (r_y s + inset);
    mkPocket TM (r_x s + r_w s / 2) (r_y s + inset);
    mkPocket TR (r_x s + r_w s - inset) (r_y s + inset);
    mkPocket BL (r_x s + inset) (r_y s + r_h s - inset);
    mkPocket BM (r_x s + r_w s / 2) (r_y s + r_h s - inset);
    mkPocket BR (r_x s + r_w s - inset) (r_y s + r_h s - inset) ].

Definition pointInSurface (table : Table) (px py marginR : Q) : bool :=
  let s := surface table in
  Qgeb px (r_x s + marginR) &&
  Qle_bool px (r_x s + r_w s - marginR) &&
  Qgeb py (r_y s + marginR) &&
  Qle_bool py (r_y s + r_h s - marginR).

Definition pointInD (table : Table) (px py : Q) : bool :=
  if negb (pointInSurface table px py (ballR table)) then false
  else if Qgtb px (baulkX table) then false
  else dist_le px py (p_x (dCenter table)) (p_y (dCenter table)) (dRadius table).

(* ------------------------------------------------------------------ *)
(** ** Randomness

    p5 [random()] draws a number in [[0, 1)].  The draws of a run are an
    infinite stream of such numbers; code that calls [random] threads the
    stream. *)

Definition in01 (q : Q) : bool := Qle_bool 0 q && Qltb q 1.

Record Unit01 := mkUnit01 { u01 :> Q; u01_ok : in01 u01 = true }.

Definition Rng := nat -> Unit01.

Definition M (A : Type) : Type := Rng -> A * Rng.

Definition ret {A} (a : A) : M A := fun g => (a, g).

Definition bind {A B} (m : M A) (k : A -> M B) : M B :=
  fun g => let (a, g') := m g in k a g'.

Notation "x <- m ;; k" := (bind m (fun x => k))
  (at level 61, m at next level, right associativity).

Definition draw : M Q := fun g => (u01 (g 0%nat), fun n => g (S n)).

(** [random(max)] *)
Definition random1 (max : Q) : M Q := u <- draw ;; ret (u * max).

(** [random(min, max)]; p5 swaps the bounds when [min > max]. *)
Definition random2 (min max : Q) : M Q :=
  u <- draw ;;
  if Qgtb min max then ret (u * (min - max) + max)
  else ret (u * (max - min) + min).

(** Monadic left fold, for the [for] loops that call [random]. *)
Fixpoint foldM {A S} (f : S -> A -> M S) (l : list A) (s : S) : M S :=
  match l with
  | [] => ret s
  | a :: l' => s' <- f s a ;; foldM f l' s'
  end.

(* ------------------------------------------------------------------ *)
(** ** Balls *)

(** A Matter body.  [applied] lists the forces handed to
    [Body.applyForce] (latest first); [in_world] is set by [World.add]
    and cleared by [World.remove]. *)
Record Body := mkBody {
  position : Point;
  velocity : Point;
  applied : list Point;
  in_world : bool }.

(** A ball's [id]: a given name, or [ball_<n>] for a drawn integer. *)
Inductive BallId :=
| IdName (s : string)
| IdBall (n : Z).

Definition is_black (i : BallId) : bool :=
  match i with
  | IdName s => String.eqb s "black"
  | IdBall _ => false
  end.

Record Ball := mkBall {
  id : BallId;
  colour : string;
  body : Body;
  b_r : Q;
  isCue : bool;
  isRed : bool;
  potted : bool }.

(** The [extra] options object of [createBall]. *)
Record Extra := mkExtra {
  e_id : option string; e_isCue : bool; e_isRed : bool }.

Definition createBall (x y r : Q) (colour : string) (extra : Extra) : M Ball :=
  let body := mkBody (mkPoint x y) (mkPoint 0 0) [] true in
  i <- match e_id extra with
       | Some s => ret (IdName s)
       | None => u <- random1 1000000000 ;; ret (IdBall (Qfloor u))
       end ;;
  ret (mkBall i colour body r (e_isCue extra) (e_isRed extra) false).

Definition named (s : string) : Extra := mkExtra (Some s) false false.
Definition redExtra : Extra := mkExtra None false true.
Definition cueExtra : Extra := mkExtra None true false.

Definition createColouredBalls (table : Table) : M (list Ball) :=
  let r := ballR table in
  let s := spots table in
  b1 <- createBall (p_x (yellow s)) (p_y (yellow s)) r "#f6e85d" (named "yellow") ;;
  b2 <- createBall (p_x (green s)) (p_y (green s)) r "#2ecc71" (named "green") ;;
  b3 <- createBall (p_x (brown s)) (p_y (brown s)) r "#8e5a2b" (named "brown") ;;
  b4 <- createBall (p_x (blue s)) (p_y (blue s)) r "#2e6cf6" (named "blue") ;;
  b5 <- createBall (p_x (pink s)) (p_y (pink s)) r "#f5a3c7" (named "pink") ;;
  b6 <- createBall (p_x (black s)) (p_y (black s)) r "#222222" (named "black") ;;
  ret [b1; b2; b3; b4; b5; b6].

Definition with_cue (l : list Ball) (cue : option Ball) : list Ball :=
  match cue with
  | Some c => l ++ [c]
  | None => l
  end.

Definition nonOverlapping (x y r : Q) (listA listB : list Ball)
    (cue : option Ball) : bool :=
  let all := with_cue (listA ++ listB) cue in
  let minDist := r * 2.05 in
  forallb (fun b =>
             potted b ||
             negb (dist_lt x y (p_x (position (body b)))
                               (p_y (position (body b))) minDist))
          all.

Definition nq (n : nat) : Q := inject_Z (Z.of_nat n).

Definition createRedsStandardTriangle (table : Table) : M (list Ball) :=
  let r := ballR table in
  let d := ballD table in
  let s := surface table in
  let apexX := p_x (pink (spots table)) + d * 2.0 in
  let centerY := r_y s + r_h s / 2 in
  let rows := 5%nat in
  let xStep := d * 0.98 in
  let yStep := d * 1.05 in
  foldM (fun lst row =>
    foldM (fun lst col =>
      let x := apexX + nq row * xStep in
      let y := centerY + (nq col - nq row / 2) * yStep in
      b <- createBall x y r "#c1121f" redExtra ;;
      ret (lst ++ [b]))
      (seq 0 (S row)) lst)
    (seq 0 rows) [].

Record Cluster := mkCluster { c_x : Q; c_y : Q; spread : Q }.

(** One pass of the attempt loop of [createRedsClusteredRandom]; [n] is
    the number of attempts left out of 300. *)
Fixpoint clusterAttempts (table : Table) (colours : list Ball)
    (cueBall : option Ball) (clusters : list Cluster) (n : nat)
    (lst : list Ball) : M (list Ball * bool) :=
  match n with
  | O => ret (lst, false)
  | S n' =>
      let r := ballR table in
      k <- random1 (nq (List.length clusters)) ;;
      let c := nth (Z.to_nat (Qfloor k)) clusters (mkCluster 0 0 0) in
      x <- random2 (c_x c - spread c) (c_x c + spread c) ;;
      y <- random2 (c_y c - spread c) (c_y c + spread c) ;;
      if negb (pointInSurface table x y r) then
        clusterAttempts table colours cueBall clusters n' lst
      else if negb (nonOverlapping x y r lst colours cueBall) then
        clusterAttempts table colours cueBall clusters n' lst
      else
        b <- createBall x y r "#c1121f" redExtra ;;
        ret (lst ++ [b], true)
  end.

Definition createRedsClusteredRandom (table : Table) (colours : list Ball)
    (cueBall : option Ball) : M (list Ball) :=
  let r := ballR table in
  let s := surface table in
  let clusterCount := 3%nat in
  clusters <- foldM (fun clusters _ =>
      x <- random2 (r_x s + r_w s * 0.55) (r_x s + r_w s * 0.88) ;;
      y <- random2 (r_y s + r_h s * 0.20) (r_y s + r_h s * 0.80) ;;
      sp <- random2 (ballD table * 2.0) (ballD table * 4.0) ;;
      ret (clusters ++ [mkCluster x y sp]))
    (seq 0 clusterCount) [] ;;
  foldM (fun lst i =>
      res <- clusterAttempts table colours cueBall clusters 300 lst ;;
      let (lst, placed) := res in
      if negb placed then
        let fx := p_x (pink (spots table)) + ballD table * 2
                  + nq (i mod 5) * ballD table * 1.1 in
        let fy := (r_y (surface table) + r_h (surface table) / 2)
                  + (nq (i / 5) - 1) * ballD table * 1.2 in
        if pointInSurface table fx fy r
           && nonOverlapping fx fy r lst colours cueBall then
          b <- createBall fx fy r "#c1121f" redExtra ;;
          ret (lst ++ [b])
        else ret lst
      else ret lst)
    (seq 0 15) [].

Definition createRedsPracticeLayout (table : Table) (colours : list Ball)
    (cueBall : option Ball) : M (list Ball) :=
  let r := ballR table in
  let s := surface table in
  let d := ballD table in
  let startX := r_x s + r_w s * 0.60 in
  let startY := r_y s + r_h s * 0.22 in
  let cols := 5%nat in
  let rows := 3%nat in
  foldM (fun lst row =>
    foldM (fun lst col =>
      let x := startX + nq col * d * 2.2 in
      let y := startY + nq row * d * 2.2 in
      if pointInSurface table x y r
         && nonOverlapping x y r lst colours cueBall then
        b <- createBall x y r "#c1121f" redExtra ;;
        ret (lst ++ [b])
      else ret lst)
      (seq 0 cols) lst)
    (seq 0 rows) [].

(* ------------------------------------------------------------------ *)
(** ** Global state *)

(** An entry of [impactEffects] / [pocketEffects]: [{x, y, t, duration}]. *)
Record Effect := mkEffect { fx_x : Q; fx_y : Q; fx_t : Q; fx_duration : Q }.

Inductive Outcome := Foul | Potted | Miss.

(** [{id, colour}], pushed on [shotPottedThisShot]. *)
Record PotSummary := mkPotSummary { ps_id : BallId; ps_colour : string }.

(** [{n, outcome, potted}], an entry of [shotLog]. *)
Record LogEntry := mkLogEntry {
  le_n : Z; le_outcome : Outcome; le_potted : list PotSummary }.

Record Predictor := mkPredictor { enabled : bool; maxBounces : nat }.

Record State := mkState {
  table : Table;
  pockets : list Pocket;
  reds : list Ball;
  colours : list Ball;
  cueBall : option Ball;
  mode : Z;
  aimAngle : Q;
  aimPower : Q;
  impactEffects : list Effect;
  pocketEffects : list Effect;
  gameOver : bool;
  gameOverReason : string;
  predictor : Predictor;
  shotsTaken : Z;
  shotInProgress : bool;
  shotPottedThisShot : list PotSummary;
  shotFoulThisShot : bool;
  shotLog : list LogEntry }.

Definition set_reds (v : list Ball) (s : State) : State :=
  mkState (table s) (pockets s) v (colours s) (cueBall s) (mode s)
    (aimAngle s) (aimPower s) (impactEffects s) (pocketEffects s)
    (gameOver s) (gameOverReason s) (predictor s) (shotsTaken s)
    (shotInProgress s) (shotPottedThisShot s) (shotFoulThisShot s) (shotLog s).

Definition set_colours (v : list Ball) (s : State) : State :=
  mkState (table s) (pockets s) (reds s) v (cueBall s) (mode s)
    (aimAngle s) (aimPower s) (impactEffects s) (pocketEffects s)
    (gameOver s) (gameOverReason s) (predictor s) (shotsTaken s)
    (shotInProgress s) (shotPottedThisShot s) (shotFoulThisShot s) (shotLog s).

Definition set_cueBall (v : option Ball) (s : State) : State :=
  mkState (table s) (pockets s) (reds s) (colours s) v (mode s)
    (aimAngle s) (aimPower s) (impactEffects s) (pocketEffects s)
    (gameOver s) (gameOverReason s) (predictor s) (shotsTaken s)
    (shotInProgress s) (shotPottedThisShot s) (shotFoulThisShot s) (shotLog s).

Definition set_impactEffects (v : list Effect) (s : State) : State :=
  mkState (table s) (pockets s) (reds s) (colours s) (cueBall s) (mode s)
    (aimAngle s) (aimPower s) v (pocketEffects s)
    (gameOver s) (gameOverReason s) (predictor s) (shotsTaken s)
    (shotInProgress s) (shotPottedThisShot s) (shotFoulThisShot s) (shotLog s).

Definition set_pocketEffects (v : list Effect) (s : State) : State :=
  mkState (table s) (pockets s) (reds s) (colours s) (cueBall s) (mode s)
    (aimAngle s) (aimPower s) (impactEffects s) v
    (gameOver s) (gameOverReason s) (predictor s) (shotsTaken s)
    (shotInProgress s) (shotPottedThisShot s) (shotFoulThisShot s) (shotLog s).

Definition set_gameOver (v : bool) (why : string) (s : State) : State :=
  mkState (table s) (pockets s) (reds s) (colours s) (cueBall s) (mode s)
    (aimAngle s) (aimPower s) (impactEffects s) (pocketEffects s)
    v why (predictor s) (shotsTaken s)
    (shotInProgress s) (shotPottedThisShot s) (shotFoulThisShot s) (shotLog s).

(** The four shot variables and the log, assigned together by [tryShoot]
    and [finalizeShotIfSettled]. *)
Definition set_shot (taken : Z) (inProgress : bool) (pots : list PotSummary)
    (foul : bool) (log : list LogEntry) (s : State) : State :=
  mkState (table s) (pockets s) (reds s) (colours s) (cueBall s) (mode s)
    (aimAngle s) (aimPower s) (impactEffects s) (pocketEffects s)
    (gameOver s) (gameOverReason s) (predictor s) taken
    inProgress pots foul log.

Definition set_shotPottedThisShot (v : list PotSummary) (s : State) : State :=
  set_shot (shotsTaken s) (shotInProgress s) v (shotFoulThisShot s) (shotLog s) s.

Definition set_shotFoulThisShot (v : bool) (s : State) : State :=
  set_shot (shotsTaken s) (shotInProgress s) (shotPottedThisShot s) v (shotLog s) s.

(** [[...reds, ...colours]] followed by the cue ball when there is one. *)
Definition all_balls (s : State) : list Ball :=
  with_cue (reds s ++ colours s) (cueBall s).

(* ------------------------------------------------------------------ *)
(** ** Modes *)

(** [setMode]; [clearBallsOnly] removes every body from the world and
    empties the three ball variables, so the layouts are generated with no
    reds, no colours and no cue ball in place. *)
Definition setMode (nextMode : Z) (s : State) : M State :=
  let cue0 : option Ball := None in
  cols <- createColouredBalls (table s) ;;
  rs <- (if (nextMode =? 1)%Z then createRedsStandardTriangle (table s)
         else if (nextMode =? 2)%Z then
           createRedsClusteredRandom (table s) cols cue0
         else if (nextMode =? 3)%Z then
           createRedsPracticeLayout (table s) cols cue0
         else ret []) ;;
  ret (mkState (table s) (pockets s) rs cols None nextMode
         0 0.35 [] []
         false "" (predictor s) 0
         false [] false []).

(** The cue-ball branch of [mousePressed]: with no cue ball on the table, a
    click inside the D creates one there. *)
Definition placeCueBall (mouseX mouseY : Q) (s : State) : M State :=
  match cueBall s with
  | Some _ => ret s
  | None =>
      if pointInD (table s) mouseX mouseY then
        b <- createBall mouseX mouseY (ballR (table s)) "#f5f5f5" cueExtra ;;
        ret (set_cueBall (Some b) s)
      else ret s
  end.

(* ------------------------------------------------------------------ *)
(** ** Potting *)

(** The places a ball object is held: an index of [reds], an index of
    [colours], or the [cueBall] variable. *)
Inductive BallRef :=
| RedRef (i : nat)
| ColourRef (i : nat)
| CueRef.

Definition get_ball (s : State) (ref : BallRef) : option Ball :=
  match ref with
  | RedRef i => nth_error (reds s) i
  | ColourRef i => nth_error (colours s) i
  | CueRef => cueBall s
  end.

Fixpoint list_set {A} (l : list A) (i : nat) (a : A) : list A :=
  match l, i with
  | [], _ => []
  | _ :: l', O => a :: l'
  | b :: l', S i' => b :: list_set l' i' a
  end.

(** Writes through a reference: the object held at [ref] becomes [b]. *)
Definition store_ball (s : State) (ref : BallRef) (b : Ball) : State :=
  match ref with
  | RedRef i => set_reds (list_set (reds s) i b) s
  | ColourRef i => set_colours (list_set (colours s) i b) s
  | CueRef => match cueBall s with
              | Some _ => set_cueBall (Some b) s
              | None => s
              end
  end.

(** [World.remove(world, body)] *)
Definition remove_body (b : Body) : Body :=
  mkBody (position b) (velocity b) (applied b) false.

(** The first two statements of [potBall], on the ball object. *)
Definition mark_potted (b : Ball) : Ball :=
  mkBall (id b) (colour b) (remove_body (body b)) (b_r b)
         (isCue b) (isRed b) true.

(** [reds.length > 0 && reds.every((r) => r && r.potted)] *)
Definition redsCleared (s : State) : bool :=
  (0 <? List.length (reds s))%nat && forallb potted (reds s).

(** [potBall(ball, pocket)], where [ball] is the object held at [ref]. *)
Definition potBall (ref : BallRef) (ball : Ball) (pocket : Pocket)
    (s : State) : State :=
  let s := store_ball s ref (mark_potted ball) in
  let s := set_pocketEffects
             (pocketEffects s ++ [mkEffect (pk_x pocket) (pk_y pocket) 0 18]) s in
  let s :=
    if shotInProgress s then
      if isCue ball then set_shotFoulThisShot true s
      else set_shotPottedThisShot
             (shotPottedThisShot s ++ [mkPotSummary (id ball) (colour ball)]) s
    else s in
  let s :=
    if negb (isCue ball) && is_black (id ball) then
      if redsCleared s then set_gameOver true "Black potted (reds cleared)" s
      else s
    else s in
  if isCue ball then set_cueBall None s else s.

(** The inner loop of [handlePotting]: the first pocket, in list order,
    whose centre is closer than [pr]. *)
Definition firstPocket (pks : list Pocket) (pos : Point) (pr : Q)
    : option Pocket :=
  find (fun p => dist_lt (p_x pos) (p_y pos) (pk_x p) (pk_y p) pr) pks.

(** One iteration of the outer loop of [handlePotting] on the object [b]
    held at [ref]. *)
Definition potStep (pr : Q) (s : State) (ref : BallRef) (b : Ball) : State :=
  if potted b then s
  else match firstPocket (pockets s) (position (body b)) pr with
       | Some p => potBall ref b p s
       | None => s
       end.

Definition potStepAt (pr : Q) (s : State) (ref : BallRef) : State :=
  match get_ball s ref with
  | Some b => potStep pr s ref b
  | None => s
  end.

(** [handlePotting]: [all] is built once, before the loop; the reds and
    the colours are read through their arrays, the cue ball is the object
    that was in [cueBall] when [all] was built. *)
Definition handlePotting (s : State) : State :=
  let nReds := List.length (reds s) in
  let nColours := List.length (colours s) in
  let cue0 := cueBall s in
  let pr := pocketR (table s) * 1.18 in
  let s := fold_left (potStepAt pr) (map RedRef (seq 0 nReds)) s in
  let s := fold_left (potStepAt pr) (map ColourRef (seq 0 nColours)) s in
  match cue0 with
  | Some c => potStep pr s CueRef c
  | None => s
  end.

(** Whether the scan pots the ball [b]: it is live and some pocket centre
    is closer than [pr]. *)
Definition inPocket (pks : list Pocket) (pr : Q) (b : Ball) : bool :=
  negb (potted b) &&
  match firstPocket pks (position (body b)) pr with
  | Some _ => true
  | None => false
  end.

(** What a scan leaves of the object [b]. *)
Definition potIf (pks : list Pocket) (pr : Q) (b : Ball) : Ball :=
  if inPocket pks pr b then mark_potted b else b.

(** The capture radius used by [handlePotting]. *)
Definition captureRadius (s : State) : Q := pocketR (table s) * 1.18.

(** The [{id, colour}] summaries of the balls of [l] that are not the cue
    ball. *)
Definition summaries (l : list Ball) : list PotSummary :=
  map (fun b => mkPotSummary (id b) (colour b))
      (filter (fun b => negb (isCue b)) l).

(** The balls a scan of [s] pots, in the order of the scan. *)
Definition scanned (s : State) : list Ball :=
  filter (inPocket (pockets s) (captureRadius s)) (all_balls s).

(* ------------------------------------------------------------------ *)
(** ** Cue *)

Class P5Math := {
  cos : Q -> Q;
  sin : Q -> Q;
  sqrt : Q -> Q }.

Definition ballIsMoving (b : Ball) : bool :=
  if potted b then false
  else
    let v := velocity (body b) in
    Qgtb (Qabs (p_x v)) 0.08 || Qgtb (Qabs (p_y v)) 0.08.

Definition areAnyBallsMoving (s : State) : bool :=
  existsb ballIsMoving (all_balls s).

Definition isCueBallResting (s : State) : bool :=
  match cueBall s with
  | None => false
  | Some c =>
      let v := velocity (body c) in
      Qltb (Qabs (p_x v)) 0.08 && Qltb (Qabs (p_y v)) 0.08
  end.

(** [Body.applyForce(body, body.position, force)] *)
Definition applyForce (b : Ball) (force : Point) : Ball :=
  mkBall (id b) (colour b)
    (mkBody (position (body b)) (velocity (body b))
            (force :: applied (body b)) (in_world (body b)))
    (b_r b) (isCue b) (isRed b) (potted b).

(** The guard of [tryShoot]: a cue ball exists, it is at rest, and no
    ball is moving. *)
Definition fireAccepted (s : State) : Prop :=
  cueBall s <> None /\ isCueBallResting s = true /\ areAnyBallsMoving s = false.

(** The force [tryShoot] computes from [aimAngle] and [aimPower]. *)
Definition shotForce {math : P5Math} (s : State) : Point :=
  let fMag := 0.012 * aimPower s in
  mkPoint (cos (aimAngle s) * fMag) (sin (aimAngle s) * fMag).

Definition tryShoot {math : P5Math} (s : State) : State :=
  match cueBall s with
  | None => s
  | Some cue =>
      if negb (isCueBallResting s) then s
      else if areAnyBallsMoving s then s
      else
        let s0 := s in
        let s := set_shot (shotsTaken s + 1) true [] false (shotLog s) s in
        let force := shotForce s0 in
        let s := set_cueBall (Some (applyForce cue force)) s in
        set_impactEffects
          (impactEffects s ++
             [mkEffect (p_x (position (body cue))) (p_y (position (body cue)))
                       0 14]) s
  end.

Definition classify (foul : bool) (pots : list PotSummary) : Outcome :=
  if foul then Foul
  else if (0 <? List.length pots)%nat then Potted else Miss.

Definition finalizeShotIfSettled (s : State) : State :=
  if negb (shotInProgress s) then s
  else if areAnyBallsMoving s then s
  else
    let outcome := classify (shotFoulThisShot s) (shotPottedThisShot s) in
    let log := shotLog s ++
                 [mkLogEntry (shotsTaken s) outcome (shotPottedThisShot s)] in
    let log := if (60 <? List.length log)%nat
               then skipn (List.length log - 60) log else log in
    set_shot (shotsTaken s) false [] false log s.

(* ------------------------------------------------------------------ *)
(** ** One frame

    [stepPhysics] and [stepBalls] hand the bodies to the engine and clamp
    them; all they change in the state above is the position and the
    velocity of bodies.  A frame is therefore given the new position and
    velocity of each body, as the engine computed them. *)

Definition Physics := BallRef -> Body -> Point * Point.

Definition move_ball (ph : Physics) (ref : BallRef) (b : Ball) : Ball :=
  let (pos, vel) := ph ref (body b) in
  mkBall (id b) (colour b)
    (mkBody pos vel (applied (body b)) (in_world (body b)))
    (b_r b) (isCue b) (isRed b) (potted b).

Fixpoint move_list (ph : Physics) (mk : nat -> BallRef) (i : nat)
    (l : list Ball) : list Ball :=
  match l with
  | [] => []
  | b :: l' => move_ball ph (mk i) b :: move_list ph mk (S i) l'
  end.

Definition stepPhysics (ph : Physics) (s : State) : State :=
  let s := set_reds (move_list ph RedRef 0 (reds s)) s in
  let s := set_colours (move_list ph ColourRef 0 (colours s)) s in
  set_cueBall (option_map (move_ball ph CueRef) (cueBall s)) s.

(** The simulation part of [draw]. *)
Definition frame (ph : Physics) (s : State) : State :=
  if negb (gameOver s) then
    finalizeShotIfSettled (handlePotting (stepPhysics ph s))
  else s.

(** What happens between the firing of a shot and its closing: frames of
    the simulation and, once the cue ball has been potted, a click that
    puts a new one in the D ([g] holds the draws the click makes).  Clicks
    after the frame is over reset the table and are not part of a shot. *)
Inductive Event :=
| Frame (ph : Physics)
| Place (mouseX mouseY : Q) (g : Rng).

Definition step (e : Event) (s : State) : State :=
  match e with
  | Frame ph => frame ph s
  | Place mouseX mouseY g =>
      if gameOver s then s else fst (placeCueBall mouseX mouseY s g)
  end.

Definition run (es : list Event) (s : State) : State :=
  fold_left (fun s e => step e s) es s.




(** The cap on [shotLog]: the last 60 entries. *)
Definition capLog (log : list LogEntry) : list LogEntry :=
  if (60 <? List.length log)%nat
  then skipn (List.length log - 60) log else log.

(* ------------------------------------------------------------------ *)
(** ** Trajectory predictor *)

(** The object returned by [rayRectHit]: [{t, x, y, n}]. *)
Record WallHit := mkWallHit { wh_t : Q; wh_x : Q; wh_y : Q; wh_n : Point }.

(** [t < bestT], where [bestT] starts at [Infinity] ([None]). *)
Definition lt_best (t : Q) (bestT : option Q) : bool :=
  match bestT with
  | None => true
  | Some b => Qltb t b
  end.

Definition rayRectHit (ox oy dx dy minX minY maxX maxY : Q) : option WallHit :=
  let bestT : option Q := None in
  let best : option WallHit := None in
  let '(bestT, best) :=
    if Qgtb (Qabs dx) 0.000001 then
      let tx1 := (minX - ox) / dx in
      let y1 := oy + tx1 * dy in
      let '(bestT, best) :=
        if Qgtb tx1 0.0001 && Qgeb y1 minY && Qle_bool y1 maxY && lt_best tx1 bestT
        then (Some tx1, Some (mkWallHit tx1 minX y1 (mkPoint (-1) 0)))
        else (bestT, best) in
      let tx2 := (maxX - ox) / dx in
      let y2 := oy + tx2 * dy in
      if Qgtb tx2 0.0001 && Qgeb y2 minY && Qle_bool y2 maxY && lt_best tx2 bestT
      then (Some tx2, Some (mkWallHit tx2 maxX y2 (mkPoint 1 0)))
      else (bestT, best)
    else (bestT, best) in
  let '(bestT, best) :=
    if Qgtb (Qabs dy) 0.000001 then
      let ty1 := (minY - oy) / dy in
      let x1 := ox + ty1 * dx in
      let '(bestT, best) :=
        if Qgtb ty1 0.0001 && Qgeb x1 minX && Qle_bool x1 maxX && lt_best ty1 bestT
        then (Some ty1, Some (mkWallHit ty1 x1 minY (mkPoint 0 (-1))))
        else (bestT, best) in
      let ty2 := (maxY - oy) / dy in
      let x2 := ox + ty2 * dx in
      if Qgtb ty2 0.0001 && Qgeb x2 minX && Qle_bool x2 maxX && lt_best ty2 bestT
      then (Some ty2, Some (mkWallHit ty2 x2 maxY (mkPoint 0 1)))
      else (bestT, best)
    else (bestT, best) in
  best.

Definition rayCircleHit {math : P5Math} (ox oy dx dy cx cy radius : Q) : option Q :=
  let fx := ox - cx in
  let fy := oy - cy in
  let a := dx * dx + dy * dy in
  let b := 2 * (fx * dx + fy * dy) in
  let c := fx * fx + fy * fy - radius * radius in
  let disc := b * b - 4 * a * c in
  if Qltb disc 0 then None
  else
    let sdisc := sqrt disc in
    let t1 := (- b - sdisc) / (2 * a) in
    let t2 := (- b + sdisc) / (2 * a) in
    if Qgtb t1 0.0001 then Some t1
    else if Qgtb t2 0.0001 then Some t2
    else None.

(** What [drawTrajectoryPredictor] computes before it draws: the vertices
    of the polyline and the ball it ends on, if any. *)
Record Prediction := mkPrediction {
  points : list Point;
  hitBall : option Ball;
  hitPoint : option Point }.

(** The reflection step of the loop: [d - 2 (d . n) n]. *)
Definition reflect (dx dy : Q) (n : Point) : Point :=
  let dot := dx * p_x n + dy * p_y n in
  mkPoint (dx - 2 * dot * p_x n) (dy - 2 * dot * p_y n).

(** The loop over [targets] that keeps the nearest ball hit. *)
Definition nearestBall {math : P5Math} (targets : list Ball) (r ox oy dx dy : Q)
    : option Q * option Ball :=
  fold_left (fun (acc : option Q * option Ball) b =>
      let (bestBallT, bestBall) := acc in
      match rayCircleHit ox oy dx dy
              (p_x (position (body b))) (p_y (position (body b)))
              (r + b_r b) with
      | Some t => if Qgtb t 0 && lt_best t bestBallT then (Some t, Some b)
                  else acc
      | None => acc
      end)
    targets (None, None).

(** [bestBall && bestBallT < wallT], where [wallT] is [Infinity] without a
    wall hit. *)
Definition ballFirst (bestBallT : option Q) (bestBall : option Ball)
    (wallHit : option WallHit) : bool :=
  match bestBall, bestBallT with
  | Some _, Some t => lt_best t (option_map wh_t wallHit)
  | _, _ => false
  end.

(** The body of [for (let bounce = 0; bounce <= predictor.maxBounces;
    bounce++)]; [bounces] lists the values of [bounce] still to run. *)
Fixpoint predictLoop {math : P5Math} (bounces : list nat) (targets : list Ball)
    (r minX minY maxX maxY : Q) (ox oy dx dy : Q) (pts : list Point)
    : Prediction :=
  match bounces with
  | [] => mkPrediction pts None None
  | _ :: rest =>
      let wallHit := rayRectHit ox oy dx dy minX minY maxX maxY in
      let (bestBallT, bestBall) := nearestBall targets r ox oy dx dy in
      if ballFirst bestBallT bestBall wallHit then
        let t := match bestBallT with Some t => t | None => 0 end in
        let px := ox + dx * t in
        let py := oy + dy * t in
        mkPrediction (pts ++ [mkPoint px py]) bestBall (Some (mkPoint px py))
      else
        match wallHit with
        | None => mkPrediction pts None None
        | Some wh =>
            let wx := wh_x wh in
            let wy := wh_y wh in
            let d' := reflect dx dy (wh_n wh) in
            let eps := 0.5 in
            predictLoop rest targets r minX minY maxX maxY
              (wx + p_x d' * eps) (wy + p_y d' * eps) (p_x d') (p_y d')
              (pts ++ [mkPoint wx wy])
        end
  end.

Definition drawTrajectoryPredictor {math : P5Math} (startX startY angle : Q)
    (s : State) : Prediction :=
  let sf := surface (table s) in
  let r := ballR (table s) in
  let minX := r_x sf + r in
  let maxX := r_x sf + r_w sf - r in
  let minY := r_y sf + r in
  let maxY := r_y sf + r_h sf - r in
  let ox := constrain startX minX maxX in
  let oy := constrain startY minY maxY in
  let dx := cos angle in
  let dy := sin angle in
  let m := sqrt (dx * dx + dy * dy) in
  let dMag := if Qeq_bool m 0 then 1 else m in
  let dx := dx / dMag in
  let dy := dy / dMag in
  let targets := filter (fun b => negb (potted b)) (reds s ++ colours s) in
  predictLoop (seq 0 (S (maxBounces (predictor s)))) targets
    r minX minY maxX maxY ox oy dx dy [mkPoint ox oy].

(** The number of cushion contacts on a predicted path: every vertex after
    the origin, except the final one when the path ends on a ball. *)
Definition cushionContacts (p : Prediction) : nat :=
  match hitBall p with
  | Some _ => List.length (points p) - 2
  | None => List.length (points p) - 1
  end.

(* ------------------------------------------------------------------ *)
(** ** Separation of a layout *)

Definition centre (b : Ball) : Point := position (body b).

(** The centres of [a] and [b] are at least [m] apart. *)
Definition apart (m : Q) (a b : Ball) : Prop :=
  dist_ge (p_x (centre a)) (p_y (centre a)) (p_x (centre b)) (p_y (centre b)) m.

(** Every two balls of [l] are at least [m] apart. *)
Definition separated (m : Q) (l : list Ball) : Prop :=
  ForallOrdPairs (apart m) l.

(** The point [p] has the coordinates [c], counted in ball diameters [d]
    from the origin [(x0, y0)]. *)
Definition onGrid (x0 y0 d : Q) (p : Point) (c : Q * Q) : Prop :=
  p_x p == x0 + fst c * d /\ p_y p == y0 + snd c * d.

(** Two grid coordinates at least 1.025 diameters (2.05 radii) apart. *)
Definition farCoeff (c1 c2 : Q * Q) : bool :=
  Qle_bool (sq 1.025) (sq (fst c2 - fst c1) + sq (snd c2 - snd c1)).

Fixpoint sepCoeffs (cs : list (Q * Q)) : bool :=
  match cs with
  | [] => true
  | c :: cs' => forallb (farCoeff c) cs' && sepCoeffs cs'
  end.

(** The playing surface measures 68.8 by 32.8 ball diameters.  Counted
    from its left edge and its horizontal centre line, the colour spots
    (in the order of [createColouredBalls]) are at: *)
Definition colourCoeffs : list (Q * Q) :=
  [ (0.207 * 68.8, 0.165 * 32.8);
    (0.207 * 68.8, - (0.165 * 32.8));
    (0.207 * 68.8, 0);
    (68.8 / 2, 0);
    (0.75 * 68.8, 0);
    (0.91 * 68.8, 0) ].

(** and the reds of the standard triangle at: *)
Definition triangleCoeffs : list (Q * Q) :=
  flat_map (fun row =>
              map (fun col => (0.75 * 68.8 + 2.0 + nq row * 0.98,
                               (nq col - nq row / 2) * 1.05))
                  (seq 0 (S row)))
           (seq 0 5).

(** What the generators with an overlap check maintain of the reds [lst]
    placed so far: they are live, [m] apart from each other and from every
    colour. *)
Definition layoutInv (m : Q) (cols lst : list Ball) : Prop :=
  separated m lst /\
  Forall (fun a => Forall (apart m a) cols) lst /\
  Forall (fun a => potted a = false) lst.

(* ------------------------------------------------------------------ *)
(** ** Start-up and reference data *)

(** The global variables as declared, for a given table. *)
Definition initialState (t : Table) : State :=
  mkState t (buildPocketList t) [] [] None 1
    0 0.35 [] []
    false "" (mkPredictor true 3) 0
    false [] false [].

(** [setup]: a 1280 by 720 canvas, the geometry, then [setMode(1)]. *)
Definition setup : M State :=
  setMode 1 (initialState (rebuildTableGeometry 1280 720)).

(** A stream of draws that are all [0], and one that are all [1/2]. *)
Definition rngZero : Rng := fun _ => mkUnit01 0 eq_refl.
Definition rngHalf : Rng := fun _ => mkUnit01 (1 # 2) eq_refl.

(** The transcendental functions at the only arguments the examples reach:
    the angle [0] ([cos 0 = 1], [sin 0 = 0]) and square roots of [0] and
    [1]. *)
Definition mathAtZero : P5Math :=
  {| cos := fun _ => 1; sin := fun _ => 0; sqrt := fun x => x |}.

(** A cue ball in the world at [(x, y)] with velocity [(vx, vy)]. *)
Definition cueBallAt (t : Table) (x y vx vy : Q) : Ball :=
  mkBall (IdBall 0) "#f5f5f5"
    (mkBody (mkPoint x y) (mkPoint vx vy) [] true)
    (ballR t) true false false.

(** The table of [setup] with no balls but a cue ball on the brown spot's
    left, at rest. *)
Definition restState : State :=
  let t := rebuildTableGeometry 1280 720 in
  set_cueBall (Some (cueBallAt t 200 360 0 0)) (initialState t).

(** The same, the cue ball still drifting at exactly the threshold
    speed along x. *)
Definition edgeState : State :=
  let t := rebuildTableGeometry 1280 720 in
  set_cueBall (Some (cueBallAt t 200 360 0.08 0)) (initialState t).

(** The table after [setup] (all draws [0]), with a cue ball placed at
    rest above the line of the colour spots. *)
Definition aimingState : State :=
  let s := fst (setup rngZero) in
  set_cueBall (Some (cueBallAt (table s) 200 250 0 0)) s.

(** [d . n] *)
Definition dot (dx dy : Q) (n : Point) : Q := dx * p_x n + dy * p_y n.

(** The four normals [rayRectHit] can return. *)
Definition unitNormals : list Point :=
  [mkPoint (-1) 0; mkPoint 1 0; mkPoint 0 (-1); mkPoint 0 1].

(** The sixth colour of a state, the black in every layout. *)
Definition blackOf (s : State) : Ball :=
  nth 5 (colours s) (cueBallAt (table s) 0 0 0 0).

(** The bottom-right pocket of the [setup] table. *)
Definition pocketBR : Pocket :=
  nth 5 (buildPocketList (rebuildTableGeometry 1280 720)) (mkPocket BR 0 0).

(** [b'] is the object [b] at a later time, and still potted if [b]
    was. *)
Definition staysPotted (b b' : Ball) : Prop :=
  id b' = id b /\ (potted b = true -> potted b' = true).

(** Whether the centre of [b] is within [pr] of the centre of [p]. *)
Definition nearPocket (pr : Q) (b : Ball) (p : Pocket) : bool :=
  dist_lt (p_x (position (body b))) (p_y (position (body b)))
          (pk_x p) (pk_y p) pr.

(** An engine step that leaves every body where it is, except the first
    red, which it puts on the centre of the top-left pocket. *)
Definition redToPocket (s : State) : Physics :=
  fun ref bd =>
    match ref with
    | RedRef O =>
        (match pockets s with
         | p :: _ => mkPoint (pk_x p) (pk_y p)
         | [] => position bd
         end, mkPoint 0 0)
    | _ => (position bd, velocity bd)
    end.

(** [aimingState] after such a step. *)
Definition pottingState : State :=
  stepPhysics (redToPocket aimingState) aimingState.



(* ------------------------------------------------------------------ *)
(** ** Stepping the engine *)

(** [clampDelta(ms)] *)
Definition clampDelta (ms : Q) : Q := constrain ms 0 (1000 / 30).

(** The source's [stepPhysics], as the step sizes it hands, in order, to
    [Engine.update] for a frame that took [deltaTime] milliseconds. *)
Definition stepPhysicsSchedule (deltaTime : Q) : list Q :=
  let frameMs := clampDelta deltaTime in
  let maxStepMs := 1000 / 60 in
  let steps := inject_Z (Qceiling (frameMs / maxStepMs)) in
  let steps := constrain steps 1 5 in
  let stepMs := frameMs / steps in
  repeat stepMs (Z.to_nat (Qfloor steps)).

(** The sum of a list of numbers. *)
Definition Qsum (l : list Q) : Q := fold_right Qplus 0 l.

(** Matter [Vector.magnitude]. *)
Definition magnitude {math : P5Math} (v : Point) : Q :=
  sqrt (p_x v * p_x v + p_y v * p_y v).

Definition setPosition (b : Body) (p : Point) : Body :=
  mkBody p (velocity b) (applied b) (in_world b).

Definition setVelocity (b : Body) (v : Point) : Body :=
  mkBody (position b) v (applied b) (in_world b).

(** Whether the failsafe of [stepBalls] fires for a body at [pos]: it is
    more than four radii outside the surface on some side. *)
Definition escaped (table : Table) (pos : Point) : bool :=
  let s := surface table in
  let r := ballR table in
  let margin := r * 4 in
  let outLeft := Qltb (p_x pos) (r_x s - margin) in
  let outRight := Qgtb (p_x pos) (r_x s + r_w s + margin) in
  let outTop := Qltb (p_y pos) (r_y s - margin) in
  let outBottom := Qgtb (p_y pos) (r_y s + r_h s + margin) in
  outLeft || outRight || outTop || outBottom.

(** What one iteration of [stepBalls] does to the body of a live ball: the
    failsafe, then the speed cap (for the trail see [stepTrail]). *)
Definition stepBallBody {math : P5Math} (table : Table) (bd : Body) : Body :=
  let s := surface table in
  let r := ballR table in
  let pos := position bd in
  let bd :=
    if escaped table pos then
      let clampedX := constrain (p_x pos) (r_x s + r) (r_x s + r_w s - r) in
      let clampedY := constrain (p_y pos) (r_y s + r) (r_y s + r_h s - r) in
      setVelocity (setPosition bd (mkPoint clampedX clampedY)) (mkPoint 0 0)
    else bd in
  let vel := velocity bd in
  let speed := magnitude vel in
  let maxSpeed := ballD table * 4.2 in
  if Qgtb speed maxSpeed then
    let scale := maxSpeed / speed in
    setVelocity bd (mkPoint (p_x vel * scale) (p_y vel * scale))
  else bd.

Definition stepBall {math : P5Math} (table : Table) (b : Ball) : Ball :=
  if potted b then b
  else mkBall (id b) (colour b) (stepBallBody table (body b)) (b_r b)
              (isCue b) (isRed b) (potted b).

Definition stepBalls {math : P5Math} (s : State) : State :=
  let s1 := set_reds (map (stepBall (table s)) (reds s)) s in
  let s2 := set_colours (map (stepBall (table s)) (colours s)) s1 in
  set_cueBall (option_map (stepBall (table s)) (cueBall s)) s2.

(* ------------------------------------------------------------------ *)
(** ** Cushions *)

(** A static rectangle [Bodies.rectangle(cx, cy, w, h)]: centre and
    size. *)
Record Cushion := mkCushion { cu_cx : Q; cu_cy : Q; cu_w : Q; cu_h : Q }.

(** [buildTablePhysics], as the list of cushions it adds to the world. *)
Definition buildTablePhysics (table : Table) : list Cushion :=
  let s := surface table in
  let r := pocketR table in
  let thick := ballD table * 1.05 in
  let leftX := r_x s in
  let rightX := r_x s + r_w s in
  let topY := r_y s in
  let bottomY := r_y s + r_h s in
  let cornerGap := r * 2.0 in
  let middleGap := r * 2.1 in
  [ mkCushion
      (leftX + (r_w s / 2 - middleGap / 2 - cornerGap / 2) / 2 + cornerGap / 2)
      (topY - thick / 2)
      (r_w s / 2 - middleGap / 2 - cornerGap / 2) thick;
    mkCushion
      (rightX - (r_w s / 2 - middleGap / 2 - cornerGap / 2) / 2 - cornerGap / 2)
      (topY - thick / 2)
      (r_w s / 2 - middleGap / 2 - cornerGap / 2) thick;
    mkCushion
      (leftX + (r_w s / 2 - middleGap / 2 - cornerGap / 2) / 2 + cornerGap / 2)
      (bottomY + thick / 2)
      (r_w s / 2 - middleGap / 2 - cornerGap / 2) thick;
    mkCushion
      (rightX - (r_w s / 2 - middleGap / 2 - cornerGap / 2) / 2 - cornerGap / 2)
      (bottomY + thick / 2)
      (r_w s / 2 - middleGap / 2 - cornerGap / 2) thick;
    mkCushion (leftX - thick / 2)
      (topY + cornerGap / 2 + (r_h s - cornerGap) / 2) thick (r_h s - cornerGap);
    mkCushion (rightX + thick / 2)
      (topY + cornerGap / 2 + (r_h s - cornerGap) / 2) thick (r_h s - cornerGap) ].

(** The point [(x, y)] lies in the rectangle of the cushion [c]. *)
Definition inCushion (c : Cushion) (x y : Q) : Prop :=
  cu_cx c - cu_w c / 2 <= x <= cu_cx c + cu_w c / 2 /\
  cu_cy c - cu_h c / 2 <= y <= cu_cy c + cu_h c / 2.

(* ------------------------------------------------------------------ *)
(** ** Statistics and effects *)

Record PotStats := mkPotStats {
  st_potted : Z; st_remaining : Z; st_total : Z }.

Definition getPotStats (s : State) : PotStats :=
  let balls := filter (fun b => negb (isCue b)) (reds s ++ colours s) in
  let potted := fold_left (fun acc b => (acc + (if potted b then 1 else 0))%Z)
                          balls 0%Z in
  let total := Z.of_nat (List.length balls) in
  mkPotStats potted (total - potted)%Z total.

(** The two loops of [drawAnimations] over [impactEffects] and
    [pocketEffects]: every effect ages by one frame, the finished ones are
    dropped. *)
Definition ageEffects (l : list Effect) : list Effect :=
  filter (fun e => Qltb (fx_t e) (fx_duration e))
         (map (fun e => mkEffect (fx_x e) (fx_y e) (fx_t e + 1) (fx_duration e)) l).

Definition drawAnimations (s : State) : State :=
  set_pocketEffects (ageEffects (pocketEffects s))
    (set_impactEffects (ageEffects (impactEffects s)) s).

(* ------------------------------------------------------------------ *)
(** ** Input handlers *)

(** [dragPower]: [{start, current}]. *)
Record Drag := mkDrag { d_start : Point; d_current : Point }.

(** The game state together with the interaction variables [themeIndex],
    [isAiming] and [dragPower]. *)
Record Sketch := mkSketch {
  game : State;
  themeIndex : nat;
  isAiming : bool;
  dragPower : option Drag }.

(** The two button rectangles of [ui], as the last [drawHUD] and
    [drawNoticeOverlay] left them. *)
Record Ui := mkUi { resetRect : option Rect; noticeResetRect : option Rect }.

Definition pointInRect (px py : Q) (r : Rect) : bool :=
  Qgeb px (r_x r) && Qle_bool px (r_x r + r_w r) &&
  Qgeb py (r_y r) && Qle_bool py (r_y r + r_h r).

(** [ui.<rect> && pointInRect(mouseX, mouseY, ui.<rect>)] *)
Definition onButton (r : option Rect) (px py : Q) : bool :=
  match r with
  | Some r => pointInRect px py r
  | None => false
  end.

Definition set_aim (angle power : Q) (s : State) : State :=
  mkState (table s) (pockets s) (reds s) (colours s) (cueBall s) (mode s)
    angle power (impactEffects s) (pocketEffects s)
    (gameOver s) (gameOverReason s) (predictor s) (shotsTaken s)
    (shotInProgress s) (shotPottedThisShot s) (shotFoulThisShot s) (shotLog s).

Definition set_predictor (v : Predictor) (s : State) : State :=
  mkState (table s) (pockets s) (reds s) (colours s) (cueBall s) (mode s)
    (aimAngle s) (aimPower s) (impactEffects s) (pocketEffects s)
    (gameOver s) (gameOverReason s) v (shotsTaken s)
    (shotInProgress s) (shotPottedThisShot s) (shotFoulThisShot s) (shotLog s).

Definition set_game (g : State) (sk : Sketch) : Sketch :=
  mkSketch g (themeIndex sk) (isAiming sk) (dragPower sk).

Definition resetTable (s : State) : M State := setMode (mode s) s.

(** The number of entries of [TABLE_THEMES]. *)
Definition themeCount : nat := 3.

(** [ENTER] and the key code of the space bar. *)
Definition ENTER : Z := 13.
Definition SPACE : Z := 32.

Definition keyPressed {math : P5Math} (key : string) (keyCode : Z)
    (sk : Sketch) : M Sketch :=
  g <- (if String.eqb key "1" then setMode 1 (game sk) else ret (game sk)) ;;
  g <- (if String.eqb key "2" then setMode 2 g else ret g) ;;
  g <- (if String.eqb key "3" then setMode 3 g else ret g) ;;
  let theme :=
    if String.eqb key "c" || String.eqb key "C"
    then ((themeIndex sk + 1) mod themeCount)%nat else themeIndex sk in
  let g :=
    if String.eqb key "t" || String.eqb key "T"
    then set_predictor (mkPredictor (negb (enabled (predictor g)))
                                    (maxBounces (predictor g))) g
    else g in
  g <- (if (keyCode =? ENTER)%Z || String.eqb key "n" || String.eqb key "N"
        then resetTable g else ret g) ;;
  let g :=
    if negb (gameOver g)
       && match cueBall g with Some _ => true | None => false end then
      if (keyCode =? SPACE)%Z then tryShoot g else g
    else g in
  ret (mkSketch g theme (isAiming sk) (dragPower sk)).

Definition mousePressed (ui : Ui) (mouseX mouseY : Q) (sk : Sketch)
    : M Sketch :=
  let s := game sk in
  if onButton (noticeResetRect ui) mouseX mouseY then
    g <- resetTable s ;; ret (set_game g sk)
  else if onButton (resetRect ui) mouseX mouseY then
    g <- resetTable s ;; ret (set_game g sk)
  else if gameOver s then
    g <- resetTable s ;; ret (set_game g sk)
  else
    match cueBall s with
    | None => g <- placeCueBall mouseX mouseY s ;; ret (set_game g sk)
    | Some cue =>
        if isCueBallResting s && negb (areAnyBallsMoving s) then
          ret (mkSketch s (themeIndex sk) true
                 (Some (mkDrag (position (body cue)) (mkPoint mouseX mouseY))))
        else ret sk
    end.

Definition mouseDragged {math : P5Math} (mouseX mouseY : Q) (sk : Sketch)
    : Sketch :=
  let s := game sk in
  if gameOver s then sk
  else match cueBall s with
       | None => sk
       | Some _ =>
           match dragPower sk with
           | None => sk
           | Some dp =>
               if negb (isAiming sk) then sk
               else
                 let dp := mkDrag (d_start dp) (mkPoint mouseX mouseY) in
                 let d := sqrt (dist2 (p_x (d_start dp)) (p_y (d_start dp))
                                      (p_x (d_current dp)) (p_y (d_current dp))) in
                 let maxD := ballD (table s) * 10 in
                 mkSketch (set_aim (aimAngle s) (constrain (d / maxD) 0 1) s)
                          (themeIndex sk) (isAiming sk) (Some dp)
           end
       end.

Definition mouseReleased {math : P5Math} (sk : Sketch) : Sketch :=
  if gameOver (game sk) then sk
  else if isAiming sk then
    mkSketch (tryShoot (game sk)) (themeIndex sk) false None
  else sk.

(** The assignments of [drawCueAndGuides]: while the table is ready for a
    stroke the aim follows the mouse, nudged by the keys A, D, W and S. *)
Definition drawCueAndGuides (atan2 : Q -> Q -> Q) (mouseX mouseY : Q)
    (keyIsDown : Z -> bool) (s : State) : State :=
  if gameOver s then s
  else match cueBall s with
       | None => s
       | Some cue =>
           if isCueBallResting s && negb (areAnyBallsMoving s) then
             let cb := position (body cue) in
             let a := atan2 (mouseY - p_y cb) (mouseX - p_x cb) in
             let a := if keyIsDown 65%Z then a - 0.03 else a in
             let a := if keyIsDown 68%Z then a + 0.03 else a in
             let p := aimPower s in
             let p := if keyIsDown 87%Z then constrain (p + 0.01) 0 1 else p in
             let p := if keyIsDown 83%Z then constrain (p - 0.01) 0 1 else p in
             set_aim a p s
           else s
       end.

(** The source's [draw]: the simulation, then the aim, then the
    animations. *)
Definition drawSketch (atan2 : Q -> Q -> Q) (ph : Physics) (mouseX mouseY : Q)
    (keyIsDown : Z -> bool) (sk : Sketch) : Sketch :=
  set_game
    (drawAnimations
       (drawCueAndGuides atan2 mouseX mouseY keyIsDown (frame ph (game sk))))
    sk.

(** Everything that drives the sketch after [setup]. *)
Inductive Input :=
| KeyPressed (key : string) (keyCode : Z) (g : Rng)
| MousePressed (ui : Ui) (mouseX mouseY : Q) (g : Rng)
| MouseDragged (mouseX mouseY : Q)
| MouseReleased
| Draw (ph : Physics) (mouseX mouseY : Q) (keyIsDown : Z -> bool).

Definition react {math : P5Math} (atan2 : Q -> Q -> Q) (i : Input)
    (sk : Sketch) : Sketch :=
  match i with
  | KeyPressed key keyCode g => fst (keyPressed key keyCode sk g)
  | MousePressed ui mouseX mouseY g => fst (mousePressed ui mouseX mouseY sk g)
  | MouseDragged mouseX mouseY => mouseDragged mouseX mouseY sk
  | MouseReleased => mouseReleased sk
  | Draw ph mouseX mouseY keyIsDown =>
      drawSketch atan2 ph mouseX mouseY keyIsDown sk
  end.

Definition reactAll {math : P5Math} (atan2 : Q -> Q -> Q) (ins : list Input)
    (sk : Sketch) : Sketch :=
  fold_left (fun sk i => react atan2 i sk) ins sk.

(** The sketch after [setup] on a canvas of the given size: the layout of
    mode 1 (with the draws [g]), nothing aimed. *)
Definition setupOn (width height : Q) (g : Rng) : Sketch :=
  mkSketch
    (fst (setMode 1 (initialState (rebuildTableGeometry width height)) g))
    0 false None.

(** The transcendental functions at the angle [0], with the square roots
    of [10000], [1] and [0]. *)
Definition mathHundred : P5Math :=
  {| cos := fun _ => 1; sin := fun _ => 0;
     sqrt := fun x => if Qeq_bool x 10000 then 100 else x |}.

(** A body in the world at [(x, y)] with velocity [(vx, vy)]. *)
Definition bodyAt (x y vx vy : Q) : Body :=
  mkBody (mkPoint x y) (mkPoint vx vy) [] true.

(** The cushion [c] covers [x] from [l] to [r] and [y] from [t] to
    [b]. *)
Definition cushionSpans (c : Cushion) (e : Q * Q * Q * Q) : Prop :=
  let '(l, r, t, b) := e in
  cu_cx c - cu_w c / 2 == l /\ cu_cx c + cu_w c / 2 == r /\
  cu_cy c - cu_h c / 2 == t /\ cu_cy c + cu_h c / 2 == b.

(** The crossing of the ray with the vertical line [x = wallX], as
    [rayRectHit] builds it. *)
Definition crossX (ox oy dx dy wallX : Q) (n : Point) : WallHit :=
  let t := (wallX - ox) / dx in
  mkWallHit t wallX (oy + t * dy) n.

(** The crossing with the horizontal line [y = wallY]. *)
Definition crossY (ox oy dx dy wallY : Q) (n : Point) : WallHit :=
  let t := (wallY - oy) / dy in
  mkWallHit t (ox + t * dx) wallY n.

(** The crossings [rayRectHit] accepts, in the order it tries them: ahead
    of the origin by more than [0.0001] and within the extent of the
    wall. *)
Definition wallCandidates (ox oy dx dy minX minY maxX maxY : Q)
    : list WallHit :=
  (if Qgtb (Qabs dx) 0.000001 then
     filter (fun c => Qgtb (wh_t c) 0.0001 && Qgeb (wh_y c) minY
                      && Qle_bool (wh_y c) maxY)
            [crossX ox oy dx dy minX (mkPoint (-1) 0);
             crossX ox oy dx dy maxX (mkPoint 1 0)]
   else [])
  ++
  (if Qgtb (Qabs dy) 0.000001 then
     filter (fun c => Qgtb (wh_t c) 0.0001 && Qgeb (wh_x c) minX
                      && Qle_bool (wh_x c) maxX)
            [crossY ox oy dx dy minY (mkPoint 0 (-1));
             crossY ox oy dx dy maxY (mkPoint 0 1)]
   else []).

(** A point on the boundary of the rectangle the ray is cast in. *)
Definition onWall (minX minY maxX maxY : Q) (p : Point) : Prop :=
  ((p_x p = minX \/ p_x p = maxX) /\ minY <= p_y p <= maxY) \/
  ((p_y p = minY \/ p_y p = maxY) /\ minX <= p_x p <= maxX).

(** The bookkeeping of shots: the counter, the log and the record of the
    shot in progress. *)
Definition shotBook (s : State) : Prop :=
  (0 <= shotsTaken s)%Z /\
  (List.length (shotLog s) <= 60)%nat /\
  ForallOrdPairs (fun a b => (le_n a < le_n b)%Z) (shotLog s) /\
  Forall (fun e => (1 <= le_n e <= shotsTaken s)%Z) (shotLog s) /\
  (shotInProgress s = true ->
   (1 <= shotsTaken s)%Z /\
   Forall (fun e => (le_n e < shotsTaken s)%Z) (shotLog s)) /\
  (shotInProgress s = false ->
   shotPottedThisShot s = [] /\ shotFoulThisShot s = false).

(** A ball as [createBall] leaves it: live, at rest, in the world, with no
    force applied, of the radius of the table. *)
Definition freshBall (t : Table) (red : bool) (b : Ball) : Prop :=
  potted b = false /\ isCue b = false /\ isRed b = red /\
  b_r b = ballR t /\ velocity (body b) = mkPoint 0 0 /\
  applied (body b) = [] /\ in_world (body b) = true.

(** The centre of [b] passes [pointInSurface] with a margin of one
    radius. *)
Definition onSurface (t : Table) (b : Ball) : Prop :=
  pointInSurface t (p_x (position (body b))) (p_y (position (body b)))
                 (ballR t) = true.

(** A force of the shape [tryShoot] computes: [0.012 * p] along the
    direction of some angle, for a power [p] between 0 and 1. *)
Definition cueForce {math : P5Math} (f : Point) : Prop :=
  exists a p : Q,
    0 <= p <= 1 /\ f = mkPoint (cos a * (0.012 * p)) (sin a * (0.012 * p)).

(** The power is a fraction, no force was ever applied to a red or a
    colour, and every force applied to the cue ball is a [cueForce]. *)
Definition forcesInv {math : P5Math} (s : State) : Prop :=
  0 <= aimPower s <= 1 /\
  Forall (fun b => applied (body b) = []) (reds s ++ colours s) /\
  (forall c, cueBall s = Some c -> Forall cueForce (applied (body c))).

(** [b'] is the object [b] at a later time: the same kind of ball, and
    still potted if [b] was. *)
Definition keepsPot (b b' : Ball) : Prop :=
  isCue b' = isCue b /\ (potted b = true -> potted b' = true).

(** A sketch on the table of [setup] whose frame is over. *)
Definition overSketch : Sketch :=
  mkSketch (set_gameOver true "Black potted (reds cleared)" aimingState)
           0 false None.

(** [e'] is the effect [e], [k] frames older. *)
Definition olderBy (k : Q) (e' e : Effect) : Prop :=
  fx_x e' = fx_x e /\ fx_y e' = fx_y e /\
  fx_duration e' = fx_duration e /\ fx_t e' == fx_t e + k.

(** Whether an effect is still shown [k] frames from now. *)
Definition shownAfter (k : Q) (e : Effect) : bool :=
  Qltb (fx_t e + k) (fx_duration e).

(* ------------------------------------------------------------------ *)
(** ** The buttons and the panel of the HUD *)

(** [ui.resetRect], as [drawHUD] assigns it. *)
Definition resetButton (height : Q) : Rect :=
  let btnW := 86 in
  let btnH := 20 in
  let btnX := 14 in
  let btnY := height - UI_LAYOUT.bottomBarH / 2 - btnH / 2 in
  mkRect btnX btnY btnW btnH.

(** [ui.noticeResetRect], as [drawNoticeOverlay] assigns it while the
    notice is showing. *)
Definition noticeButton (width height : Q) : Rect :=
  let cardH := 160 in
  let y := height / 2 - cardH / 2 in
  let btnW := 140 in
  let btnH := 28 in
  let btnX := width / 2 - btnW / 2 in
  let btnY := y + cardH - btnH - 16 in
  mkRect btnX btnY btnW btnH.

(** The two rectangles after [drawHUD]: the reset button always, the
    button of the notice while the notice is showing. *)
Definition hudUi (width height : Q) (noticeShown : bool) : Ui :=
  mkUi (Some (resetButton height))
       (if noticeShown then Some (noticeButton width height) else None).

(** The local function [fits] of [getDockedPanelPos]. *)
Definition fits (width height panelW panelH topBarH bottomBarH pad : Q)
    (x y : Q) : bool :=
  Qgeb x pad && Qgeb y (topBarH + 8) &&
  Qle_bool (x + panelW) (width - pad) &&
  Qle_bool (y + panelH) (height - bottomBarH - 8).

Definition getDockedPanelPos (table : Table) (width height : Q)
    (panelW panelH topBarH bottomBarH pad : Q) : Point :=
  let gap := UI_LAYOUT.panelGap in
  let y0 := topBarH + 10 in
  let maxY := height - bottomBarH - panelH - 8 in
  let y := constrain y0 (topBarH + 8) maxY in
  let fits := fits width height panelW panelH topBarH bottomBarH pad in
  let rightX := t_x table + t_w table + gap in
  if fits rightX y then mkPoint rightX y
  else
    let leftX := t_x table - gap - panelW in
    if fits leftX y then mkPoint leftX y
    else
      let belowY := t_y table + t_h table + gap in
      let belowX := constrain (t_x table + t_w table / 2 - panelW / 2)
                              pad (width - pad - panelW) in
      if fits belowX belowY then mkPoint belowX belowY
      else mkPoint (constrain (width - pad - panelW) pad (width - pad - panelW))
                   (constrain y0 (topBarH + 8) maxY).

(** [array.slice(-n)] for an integer [n >= 0]: the last [n] elements, or
    the whole array when [n] is 0 (as [-0] is [0]) or exceeds the
    length. *)
Definition sliceLast {A} (n : Z) (l : list A) : list A :=
  if (n =? 0)%Z then l
  else skipn (List.length l - Z.to_nat n) l.

(** What [drawStatsAndLogPanel] lays out: the rectangle of the panel and
    the log rows, each with the [y] it is written at. *)
Record Panel := mkPanel {
  pn_rect : Rect;
  pn_maxRows : Z;
  pn_rows : list (Q * LogEntry) }.

Definition drawStatsAndLogPanel (table : Table) (width height : Q)
    (shotLog : list LogEntry) (topBarH bottomBarH sidePad : Q) : Panel :=
  let panelW := UI_LAYOUT.panelW in
  let canSideDock :=
    Qle_bool (t_x table + t_w table + UI_LAYOUT.panelGap + panelW + sidePad)
             width in
  let maxTallH := height - topBarH - bottomBarH - 24 in
  let panelH := if canSideDock then Qmax UI_LAYOUT.panelH maxTallH
                else UI_LAYOUT.panelH in
  let pos := getDockedPanelPos table width height
               panelW panelH topBarH bottomBarH sidePad in
  let x := p_x pos in
  let y := p_y pos in
  let py := y + 10 in
  let py := py + 22 in
  let py := py + 18 in
  let py := py + 18 in
  let py := py + 16 in
  let py := py + 10 in
  let py := py + 20 in
  let rowH := 22 in
  let maxRows := Z.max 0 (Qfloor ((y + panelH - 12 - py) / rowH)) in
  let rows := sliceLast maxRows shotLog in
  mkPanel (mkRect x y panelW panelH) maxRows
    (map (fun ie => (py + nq (fst ie) * rowH, snd ie))
         (combine (seq 0 (List.length rows)) rows)).

(* ------------------------------------------------------------------ *)
(** ** Trails *)

(** A point of [b.trail]: [{x, y, a}]. *)
Record TrailPoint := mkTrailPoint { tp_x : Q; tp_y : Q; tp_a : Q }.

(** [array.slice(-n)] for a positive integer literal [n]. *)
Definition lastN {A} (n : nat) (l : list A) : list A :=
  skipn (List.length l - n) l.

(** What one iteration of [stepBalls] does to the trail of the ball [b]:
    a potted ball is skipped; otherwise the position is pushed when the
    ball (after the failsafe and the speed cap) is faster than 0.15, every
    point fades by 18, and the points still visible are kept, the last ten
    at most. *)
Definition stepTrail {math : P5Math} (table : Table) (b : Ball)
    (trail : list TrailPoint) : list TrailPoint :=
  if potted b then trail
  else
    let bd := stepBallBody table (body b) in
    let trail :=
      if Qgtb (magnitude (velocity bd)) 0.15
      then trail ++ [mkTrailPoint (p_x (position bd)) (p_y (position bd)) 120]
      else trail in
    let trail := map (fun p => mkTrailPoint (tp_x p) (tp_y p) (tp_a p - 18)) trail in
    lastN 10 (filter (fun p => Qgtb (tp_a p) 0) trail).

(** The trail of a ball after the iterations of [stepBalls] in which it
    was in the states [bs], starting from the empty trail of
    [createBall]. *)
Definition trailAfter {math : P5Math} (table : Table) (bs : list Ball)
    : list TrailPoint :=
  fold_left (fun trail b => stepTrail table b trail) bs [].

(** The points of a trail are visible, and each is at least one fading
    step fainter than the next. *)
Definition trailInv (trail : list TrailPoint) : Prop :=
  Forall (fun p => 0 < tp_a p <= 102) trail /\
  ForallOrdPairs (fun p q => tp_a p + 18 <= tp_a q) trail.

(* ------------------------------------------------------------------ *)
(** ** The reds on the table of [setup] *)

(** The table of the canvas [setup] creates, 1280 by 720; the sketch has
    no other (there is no [windowResized], and [draw] rebuilds the table
    only when the canvas size changed). *)
Definition setupTable : Table := rebuildTableGeometry 1280 720.

(** What [redsInPlay] says of the [reds] array alone. *)
Definition redsNamed (l : list Ball) : Prop :=
  l <> [] /\ Forall (fun r => is_black (id r) = false) l.

(** What holds of the reds in every state the sketch reaches: the table is
    that of [setup], the mode is one of the three layouts, the [reds]
    array is not empty, and none of its balls carries the id of the
    black. *)
Definition redsInPlay (s : State) : Prop :=
  table s = setupTable /\
  (mode s = 1 \/ mode s = 2 \/ mode s = 3)%Z /\
  redsNamed (reds s).

(** An engine step that puts every red on the centre of the bottom-right
    pocket, at rest, and leaves the other bodies alone. *)
Definition sinkReds : Physics :=
  fun ref bd =>
    match ref with
    | RedRef _ => (mkPoint (pk_x pocketBR) (pk_y pocketBR), mkPoint 0 0)
    | _ => (position bd, velocity bd)
    end.

(* ------------------------------------------------------------------ *)
(** ** Between a fire and its settling *)









(* ================================================================== *)
(** * Properties *)

(** ** Arithmetic helpers *)

(** Replaces divisions by numerals with multiplications, for [lra]. *)
Ltac qdiv :=
  unfold Qdiv in *;
  repeat match goal with
         | |- context [ / (?n # ?d) ] =>
             let v := eval vm_compute in (/ (n # d)) in
             change (/ (n # d)) with v
         | H : context [ / (?n # ?d) ] |- _ =>
             let v := eval vm_compute in (/ (n # d)) in
             change (/ (n # d)) with v in H
         end.

Lemma Qltb_lt (a b : Q) : Qltb a b = true <-> a < b.
Proof.
  unfold Qltb. rewrite negb_true_iff, <- not_true_iff_false, Qle_bool_iff.
  split; [apply Qnot_le_lt | apply Qlt_not_le].
Qed.

Lemma Qltb_ge (a b : Q) : Qltb a b = false <-> b <= a.
Proof.
  unfold Qltb. rewrite negb_false_iff. apply Qle_bool_iff.
Qed.

Lemma Qgtb_gt (a b : Q) : Qgtb a b = true <-> b < a.
Proof. apply Qltb_lt. Qed.

Lemma Qgeb_ge (a b : Q) : Qgeb a b = true <-> b <= a.
Proof. apply Qle_bool_iff. Qed.

Lemma dist_lt_false (x1 y1 x2 y2 d : Q) :
  dist_lt x1 y1 x2 y2 d = false <-> dist_ge x1 y1 x2 y2 d.
Proof.
  unfold dist_lt, dist_ge.
  rewrite andb_false_iff, !Qltb_ge. tauto.
Qed.

(* ------------------------------------------------------------------ *)
(** ** Table geometry *)

(** The canvas used for the outer length 900: the width leaves
    [1196 - 20 - 276 = 900] and the height allows more. *)
Example length_900 : t_w (rebuildTableGeometry 1196 1000) == 900.
Proof. vm_compute. reflexivity. Qed.

(** C1, as stated, fails: for the outer length 900 the pocket radius is
    9.375, which is neither 1.5 ball diameters nor 18.75. *)
Lemma C1_counterexample :
  let t := rebuildTableGeometry 1196 1000 in
  t_w t == 900 /\ ballD t == 12.5 /\
  ~ pocketR t == 1.5 * ballD t /\ ~ pocketR t == 18.75.
Proof.
  repeat split; vm_compute; congruence.
Qed.

(** C1 (amended): for every canvas, the pocket diameter is 1.5 ball
    diameters, so the pocket radius is 0.75 ball diameters; the width is
    half the outer length and the ball diameter a 36th of the width.  For
    the outer length 900 this gives width 450, ball diameter 12.5 and
    pocket radius 9.375. *)
Theorem C1_pocket_radius :
  forall width height,
    let t := rebuildTableGeometry width height in
    2 * pocketR t == 1.5 * ballD t /\
    pocketR t == 0.75 * ballD t /\
    t_h t == t_w t / 2 /\
    ballD t == t_h t / 36 /\
    (t_w t == 900 ->
     t_h t == 450 /\ ballD t == 12.5 /\ pocketR t == 9.375).
Proof.
  intros width height t.
  assert (Hh : t_h t == t_w t / 2) by reflexivity.
  assert (Hd : ballD t == t_h t / 36) by reflexivity.
  assert (Hp : pocketR t == 1.5 * ballD t / 2) by reflexivity.
  qdiv. repeat split; try lra.
Qed.

(** The canvas 1196 by 1000 gives the outer length 900. *)
Lemma C1_pocket_radius_witness :
  let t := rebuildTableGeometry 1196 1000 in
  t_w t == 900 /\ t_h t == 450 /\ ballD t == 12.5 /\ pocketR t == 9.375.
Proof.
  split.
  - vm_compute. reflexivity.
  - apply (C1_pocket_radius 1196 1000). vm_compute. reflexivity.
Defined.

(** C2, as stated, fails: for the outer length 900 the playing surface is
    860 by 410, and the ball diameter is 12.5, not 410 / 36. *)
Lemma C2_counterexample :
  let t := rebuildTableGeometry 1196 1000 in
  r_w (surface t) == 860 /\ r_h (surface t) == 410 /\
  ~ r_h (surface t) == r_w (surface t) / 2 /\
  ~ ballD t == r_h (surface t) / 36.
Proof.
  repeat split; vm_compute; congruence.
Qed.

(** C2 (amended): for every canvas, the outer table rectangle has width
    half its length and the ball diameter is a 36th of that outer width;
    the playing surface is the outer rectangle shrunk by the rail
    (1.6 ball diameters) on each side, so its width is half its length
    minus one rail. *)
Theorem C2_table_ratio :
  forall width height,
    let t := rebuildTableGeometry width height in
    t_h t == t_w t / 2 /\
    ballD t == t_h t / 36 /\
    rail t == 1.6 * ballD t /\
    r_w (surface t) == t_w t - 2 * rail t /\
    r_h (surface t) == t_h t - 2 * rail t /\
    r_h (surface t) == r_w (surface t) / 2 - rail t.
Proof.
  intros width height t.
  assert (Hh : t_h t == t_w t / 2) by reflexivity.
  assert (Hd : ballD t == t_h t / 36) by reflexivity.
  assert (Hr : rail t == ballD t * 1.6) by reflexivity.
  assert (Hw : r_w (surface t) == t_w t - 2 * rail t) by reflexivity.
  assert (Hs : r_h (surface t) == t_h t - 2 * rail t) by reflexivity.
  qdiv. repeat split; lra.
Qed.

(* ------------------------------------------------------------------ *)
(** ** Firing a shot *)

Section Fire.
Context {math : P5Math}.

Lemma tryShoot_rejected (s : State) : ~ fireAccepted s -> tryShoot s = s.
Proof.
  unfold fireAccepted, tryShoot. intros Hn.
  destruct (cueBall s) as [cue|] eqn:Hc; [|reflexivity].
  destruct (isCueBallResting s) eqn:Hr; [|reflexivity].
  destruct (areAnyBallsMoving s) eqn:Hm; [reflexivity|].
  exfalso. apply Hn. repeat split; congruence.
Qed.

Lemma tryShoot_accepted (s : State) (cue : Ball) :
  cueBall s = Some cue -> isCueBallResting s = true ->
  areAnyBallsMoving s = false ->
  tryShoot s =
    set_impactEffects
      (impactEffects s ++
         [mkEffect (p_x (position (body cue))) (p_y (position (body cue))) 0 14])
      (set_cueBall (Some (applyForce cue (shotForce s)))
         (set_shot (shotsTaken s + 1) true [] false (shotLog s) s)).
Proof.
  intros Hc Hr Hm. unfold tryShoot. rewrite Hc, Hr, Hm. reflexivity.
Qed.

(** C6: [tryShoot] leaves the state unchanged unless a cue ball exists, it
    is at rest and no ball is moving.  When accepted it adds one to the
    shot counter, opens a fresh shot record, and hands the engine exactly
    one force, on the cue ball: [0.012 * aimPower] times
    [(cos aimAngle, sin aimAngle)], of squared magnitude
    [(0.012 * aimPower)^2] when that direction is a unit vector; no other
    ball is touched. *)
Theorem C6_fire_command :
  forall s : State,
    (~ fireAccepted s -> tryShoot s = s) /\
    (fireAccepted s ->
     exists cue cue',
       cueBall s = Some cue /\
       cueBall (tryShoot s) = Some cue' /\
       shotsTaken (tryShoot s) = (shotsTaken s + 1)%Z /\
       shotInProgress (tryShoot s) = true /\
       shotPottedThisShot (tryShoot s) = [] /\
       shotFoulThisShot (tryShoot s) = false /\
       shotLog (tryShoot s) = shotLog s /\
       applied (body cue') = shotForce s :: applied (body cue) /\
       position (body cue') = position (body cue) /\
       velocity (body cue') = velocity (body cue) /\
       reds (tryShoot s) = reds s /\
       colours (tryShoot s) = colours s /\
       p_x (shotForce s) == 0.012 * aimPower s * cos (aimAngle s) /\
       p_y (shotForce s) == 0.012 * aimPower s * sin (aimAngle s) /\
       (sq (cos (aimAngle s)) + sq (sin (aimAngle s)) == 1 ->
        sq (p_x (shotForce s)) + sq (p_y (shotForce s))
        == sq (0.012 * aimPower s))).
Proof.
  intros s. split; [apply tryShoot_rejected|].
  intros (Hc & Hr & Hm).
  destruct (cueBall s) as [cue|] eqn:Hcue; [|congruence].
  exists cue, (applyForce cue (shotForce s)).
  rewrite (tryShoot_accepted s cue Hcue Hr Hm).
  repeat split; try reflexivity.
  - unfold shotForce; cbn [p_x]. ring.
  - unfold shotForce; cbn [p_y]. ring.
  - intros Hunit. unfold shotForce, sq in *; cbn [p_x p_y].
    transitivity ((cos (aimAngle s) * cos (aimAngle s)
                   + sin (aimAngle s) * sin (aimAngle s))
                  * (0.012 * aimPower s * (0.012 * aimPower s))).
    + ring.
    + rewrite Hunit. ring.
Qed.

(** C10: when the larger of the cue ball's two velocity-component
    magnitudes is exactly 0.08, [ballIsMoving] is false of it,
    [isCueBallResting] is false as well, and [tryShoot] does nothing. *)
Theorem C10_threshold_gap :
  forall (s : State) (cue : Ball),
    cueBall s = Some cue ->
    Qmax (Qabs (p_x (velocity (body cue)))) (Qabs (p_y (velocity (body cue))))
    == 0.08 ->
    ballIsMoving cue = false /\
    isCueBallResting s = false /\
    tryShoot s = s.
Proof.
  intros s cue Hc Hmax.
  set (a := Qabs (p_x (velocity (body cue)))) in *.
  set (b := Qabs (p_y (velocity (body cue)))) in *.
  assert (Ha : a <= 0.08) by (rewrite <- Hmax; apply Q.le_max_l).
  assert (Hb : b <= 0.08) by (rewrite <- Hmax; apply Q.le_max_r).
  assert (Hrest : isCueBallResting s = false).
  { unfold isCueBallResting. rewrite Hc. cbv zeta. fold a b.
    apply andb_false_iff.
    destruct (Q.max_spec a b) as [[_ Hm]|[_ Hm]]; rewrite Hm in Hmax.
    - right. apply Qltb_ge. rewrite Hmax. apply Qle_refl.
    - left. apply Qltb_ge. rewrite Hmax. apply Qle_refl. }
  repeat split.
  - unfold ballIsMoving. destruct (potted cue); [reflexivity|].
    cbv zeta. fold a b. apply orb_false_iff.
    split; apply Qltb_ge; assumption.
  - exact Hrest.
  - unfold tryShoot. rewrite Hc, Hrest. reflexivity.
Qed.

End Fire.

(** A cue ball at rest on an otherwise empty table is fired at angle 0;
    one drifting at exactly the threshold speed is not. *)
Lemma C6_fire_command_witness :
  fireAccepted restState /\
  shotsTaken (@tryShoot mathAtZero restState) = 1%Z /\
  shotInProgress (@tryShoot mathAtZero restState) = true /\
  sq (p_x (@shotForce mathAtZero restState))
  + sq (p_y (@shotForce mathAtZero restState)) == sq (0.012 * 0.35) /\
  ~ fireAccepted edgeState /\
  @tryShoot mathAtZero edgeState = edgeState.
Proof.
  assert (Hacc : fireAccepted restState).
  { split; [discriminate | split; reflexivity]. }
  assert (Hrej : ~ fireAccepted edgeState).
  { intros (_ & Hr & _). vm_compute in Hr. discriminate. }
  destruct (@C6_fire_command mathAtZero restState) as [_ Hyes].
  destruct (@C6_fire_command mathAtZero edgeState) as [Hno _].
  destruct (Hyes Hacc)
    as (cue & cue' & _ & _ & Ht & Hp & _ & _ & _ & _ & _ & _ & _ & _ & _ & _ & Hm).
  split; [exact Hacc|].
  split; [exact Ht|].
  split; [exact Hp|].
  split; [apply Hm; reflexivity|].
  split; [exact Hrej|exact (Hno Hrej)].
Defined.

(** The cue ball of [edgeState] moves at exactly 0.08 along x. *)
Lemma C10_threshold_gap_witness :
  areAnyBallsMoving edgeState = false /\
  ballIsMoving (cueBallAt (rebuildTableGeometry 1280 720) 200 360 0.08 0) = false /\
  isCueBallResting edgeState = false /\
  @tryShoot mathAtZero edgeState = edgeState.
Proof.
  split; [reflexivity|].
  apply (@C10_threshold_gap mathAtZero edgeState
           (cueBallAt (rebuildTableGeometry 1280 720) 200 360 0.08 0)).
  - reflexivity.
  - vm_compute. reflexivity.
Defined.

(* ------------------------------------------------------------------ *)
(** ** Trajectory predictor *)

Lemma rayRectHit_normal (ox oy dx dy minX minY maxX maxY : Q) (wh : WallHit) :
  rayRectHit ox oy dx dy minX minY maxX maxY = Some wh ->
  In (wh_n wh) unitNormals.
Proof.
  unfold rayRectHit, unitNormals.
  repeat match goal with
         | |- context [if ?c then _ else _] => destruct c
         end;
    intros Heq; inversion Heq; subst; cbn; auto.
Qed.




Section Predictor.
Context {math : P5Math}.

Lemma predictLoop_length (bounces : list nat) :
  forall targets r minX minY maxX maxY ox oy dx dy pts,
    (List.length
       (points (predictLoop bounces targets r minX minY maxX maxY
                  ox oy dx dy pts))
     <= List.length pts + List.length bounces)%nat.
Proof.
  induction bounces as [|b rest IH]; intros; cbn [predictLoop].
  - cbn. lia.
  - destruct (nearestBall targets r ox oy dx dy) as [bestBallT bestBall].
    destruct (ballFirst bestBallT bestBall _).
    + cbn [points]. rewrite length_app. cbn. lia.
    + destruct (rayRectHit ox oy dx dy minX minY maxX maxY) as [wh|].
      * etransitivity; [apply IH|]. rewrite length_app. cbn. lia.
      * cbn. lia.
Qed.

(** C9 (amended): the loop of the predictor runs for [bounce = 0, ...,
    maxBounces], that is at most [maxBounces + 1 = 4] times, each pass
    adding at most one vertex; so the path has at most [maxBounces + 2]
    vertices, at most [maxBounces + 1] cushion contacts, and at most
    [maxBounces] vertices strictly between its two ends. *)
Theorem C9_bounce_bound :
  forall (s : State) (startX startY angle : Q),
    let p := drawTrajectoryPredictor startX startY angle s in
    (List.length (points p) <= maxBounces (predictor s) + 2)%nat /\
    (cushionContacts p <= maxBounces (predictor s) + 1)%nat /\
    (List.length (points p) - 2 <= maxBounces (predictor s))%nat.
Proof.
  intros s startX startY angle p.
  assert (Hlen : (List.length (points p) <= maxBounces (predictor s) + 2)%nat).
  { unfold p, drawTrajectoryPredictor. cbv zeta.
    etransitivity; [apply predictLoop_length|].
    rewrite length_seq. cbn [List.length]. lia. }
  unfold cushionContacts.
  destruct (hitBall p); repeat split; lia.
Qed.

End Predictor.

(** C9, as stated, fails: on the table of [setup], aiming along the x axis
    from a cue ball at height 250, a line every ball is more than two
    radii away from, the loop runs four times and the path has four
    cushion contacts, with [maxBounces = 3]. *)
Lemma C9_counterexample :
  let p := @drawTrajectoryPredictor mathAtZero 200 250 0 aimingState in
  maxBounces (predictor aimingState) = 3%nat /\
  forallb (fun b => Qltb (ballR (table aimingState) + b_r b)
                         (Qabs (p_y (centre b) - 250)))
          (reds aimingState ++ colours aimingState) = true /\
  hitBall p = None /\
  List.length (points p) = 5%nat /\
  cushionContacts p = 4%nat /\
  ~ (cushionContacts p <= 3)%nat.
Proof.
  vm_compute. repeat split; lia.
Qed.

(* ------------------------------------------------------------------ *)
(** ** Potting: what one step changes *)

Ltac break_ifs :=
  repeat match goal with
         | |- context [if ?c then _ else _] => destruct c
         end.

(** The hit test of [potStep], as a boolean on the ball. *)
Lemma potStep_miss (pr : Q) (s : State) (ref : BallRef) (b : Ball) :
  inPocket (pockets s) pr b = false -> potStep pr s ref b = s.
Proof.
  unfold inPocket, potStep. destruct (potted b); [reflexivity|].
  destruct (firstPocket _ _ _); [discriminate|reflexivity].
Qed.

Lemma potStep_hit (pr : Q) (s : State) (ref : BallRef) (b : Ball) :
  inPocket (pockets s) pr b = true ->
  exists p, firstPocket (pockets s) (position (body b)) pr = Some p /\
            potted b = false /\
            potStep pr s ref b = potBall ref b p s.
Proof.
  unfold inPocket, potStep. destruct (potted b); [discriminate|].
  destruct (firstPocket _ _ _) as [p|]; [|discriminate].
  intros _. exists p. auto.
Qed.

Lemma store_ball_frame (s : State) (ref : BallRef) (b : Ball) :
  table (store_ball s ref b) = table s /\
  pockets (store_ball s ref b) = pockets s /\
  gameOver (store_ball s ref b) = gameOver s /\
  shotsTaken (store_ball s ref b) = shotsTaken s /\
  shotInProgress (store_ball s ref b) = shotInProgress s /\
  shotPottedThisShot (store_ball s ref b) = shotPottedThisShot s /\
  shotFoulThisShot (store_ball s ref b) = shotFoulThisShot s /\
  shotLog (store_ball s ref b) = shotLog s /\
  pocketEffects (store_ball s ref b) = pocketEffects s /\
  predictor (store_ball s ref b) = predictor s.
Proof.
  destruct ref; cbn; [| |destruct (cueBall s)]; repeat split.
Qed.

(** [potBall] never touches the geometry, the shot counter or the log. *)
Lemma potBall_frame (ref : BallRef) (b : Ball) (p : Pocket) (s : State) :
  table (potBall ref b p s) = table s /\
  pockets (potBall ref b p s) = pockets s /\
  shotsTaken (potBall ref b p s) = shotsTaken s /\
  shotInProgress (potBall ref b p s) = shotInProgress s /\
  shotLog (potBall ref b p s) = shotLog s /\
  predictor (potBall ref b p s) = predictor s /\
  pocketEffects (potBall ref b p s)
  = pocketEffects s ++ [mkEffect (pk_x p) (pk_y p) 0 18].
Proof.
  destruct (store_ball_frame s ref (mark_potted b))
    as (Ht & Hp & _ & Hn & Hi & _ & _ & Hl & He & Hq).
  unfold potBall. cbv zeta.
  break_ifs; cbn; rewrite ?Ht, ?Hp, ?Hn, ?Hi, ?Hl, ?He, ?Hq; repeat split.
Qed.

(** The shot variables after [potBall]. *)
Lemma potBall_shot (ref : BallRef) (b : Ball) (p : Pocket) (s : State) :
  shotFoulThisShot (potBall ref b p s)
  = (shotFoulThisShot s || (shotInProgress s && isCue b)) /\
  shotPottedThisShot (potBall ref b p s)
  = shotPottedThisShot s ++
      (if shotInProgress s && negb (isCue b)
       then [mkPotSummary (id b) (colour b)] else []).
Proof.
  destruct (store_ball_frame s ref (mark_potted b))
    as (_ & _ & _ & _ & Hi & Hps & Hf & _ & _ & _).
  unfold potBall. cbv zeta. cbn [shotInProgress set_pocketEffects].
  rewrite Hi.
  destruct (shotInProgress s), (isCue b); cbn [negb andb];
    break_ifs; cbn; rewrite ?Hps, ?Hf, ?app_nil_r, ?orb_true_r, ?orb_false_r;
    split; reflexivity.
Qed.

(** The ball variables after [potBall]. *)
Lemma potBall_balls (ref : BallRef) (b : Ball) (p : Pocket) (s : State) :
  reds (potBall ref b p s) = reds (store_ball s ref (mark_potted b)) /\
  colours (potBall ref b p s) = colours (store_ball s ref (mark_potted b)) /\
  cueBall (potBall ref b p s)
  = if isCue b then None else cueBall (store_ball s ref (mark_potted b)).
Proof.
  unfold potBall. cbv zeta. break_ifs; cbn; repeat split.
Qed.

(** [gameOver] after [potBall]. *)
Lemma potBall_gameOver (ref : BallRef) (b : Ball) (p : Pocket) (s : State) :
  gameOver (potBall ref b p s)
  = (gameOver s ||
     (negb (isCue b) && is_black (id b) &&
      redsCleared (store_ball s ref (mark_potted b)))).
Proof.
  destruct (store_ball_frame s ref (mark_potted b))
    as (_ & _ & Hg & _ & _ & _ & _ & _ & _ & _).
  assert (Hrc : forall s' : State,
             reds s' = reds (store_ball s ref (mark_potted b)) ->
             redsCleared s' = redsCleared (store_ball s ref (mark_potted b))).
  { intros s' E. unfold redsCleared. rewrite E. reflexivity. }
  unfold potBall. cbv zeta.
  destruct (isCue b) eqn:Ec; cbn [negb andb].
  - break_ifs; cbn; rewrite Hg, orb_false_r; reflexivity.
  - destruct (is_black (id b)) eqn:Eb; cbn [andb].
    + match goal with
      | |- context [if redsCleared ?x then _ else _] =>
          rewrite (Hrc x) by (break_ifs; reflexivity)
      end.
      destruct (redsCleared (store_ball s ref (mark_potted b))).
      * cbn. rewrite orb_true_r. reflexivity.
      * break_ifs; cbn; rewrite Hg, orb_false_r; reflexivity.
    + break_ifs; cbn; rewrite Hg, orb_false_r; reflexivity.
Qed.

(* ------------------------------------------------------------------ *)
(** ** Frame over *)

Lemma redsCleared_spec (s : State) :
  redsCleared s = true <->
  reds s <> [] /\ Forall (fun r => potted r = true) (reds s).
Proof.
  unfold redsCleared. rewrite andb_true_iff, forallb_forall, Forall_forall.
  destruct (reds s); cbn; split; intros [H1 H2];
    (split; [congruence || discriminate || reflexivity | assumption]).
Qed.

Lemma store_ball_reds (s : State) (ref : BallRef) (b : Ball) :
  (forall i, ref <> RedRef i) -> reds (store_ball s ref b) = reds s.
Proof.
  destruct ref as [i|i|]; intros Hr; cbn.
  - destruct (Hr i). reflexivity.
  - reflexivity.
  - destruct (cueBall s); reflexivity.
Qed.

(* ------------------------------------------------------------------ *)
(** ** Potting: one scan *)

Lemma list_set_app {A} (pre post : list A) (a b : A) :
  list_set (pre ++ a :: post) (List.length pre) b = pre ++ b :: post.
Proof.
  induction pre as [|x pre IH]; cbn; [reflexivity|]. now rewrite IH.
Qed.

Lemma nth_error_mid {A} (pre post : list A) (a : A) :
  nth_error (pre ++ a :: post) (List.length pre) = Some a.
Proof.
  induction pre as [|x pre IH]; cbn; [reflexivity|]. exact IH.
Qed.

(** Everything one step of the scan changes, in terms of the hit test. *)
Lemma potStep_obs (pr : Q) (s : State) (ref : BallRef) (b : Ball) :
  let hit := inPocket (pockets s) pr b in
  let s' := potStep pr s ref b in
  table s' = table s /\ pockets s' = pockets s /\
  shotsTaken s' = shotsTaken s /\ shotInProgress s' = shotInProgress s /\
  shotLog s' = shotLog s /\
  shotFoulThisShot s'
  = (shotFoulThisShot s || (shotInProgress s && (hit && isCue b))) /\
  shotPottedThisShot s'
  = shotPottedThisShot s ++
      (if shotInProgress s then summaries (filter (fun _ => hit) [b]) else []) /\
  List.length (pocketEffects s')
  = (List.length (pocketEffects s) + List.length (filter (fun _ => hit) [b]))%nat /\
  reds s' = (if hit then reds (store_ball s ref (mark_potted b)) else reds s) /\
  colours s'
  = (if hit then colours (store_ball s ref (mark_potted b)) else colours s) /\
  cueBall s'
  = (if hit then
       if isCue b then None else cueBall (store_ball s ref (mark_potted b))
     else cueBall s).
Proof.
  cbv zeta. destruct (inPocket (pockets s) pr b) eqn:Hhit.
  - destruct (potStep_hit pr s ref b Hhit) as (p & _ & _ & ->).
    destruct (potBall_frame ref b p s) as (-> & -> & -> & -> & -> & _ & ->).
    destruct (potBall_shot ref b p s) as (-> & ->).
    destruct (potBall_balls ref b p s) as (-> & -> & ->).
    rewrite length_app. unfold summaries. cbn.
    destruct (shotInProgress s), (isCue b); cbn; repeat split.
  - rewrite (potStep_miss pr s ref b Hhit). cbn.
    rewrite andb_false_r, orb_false_r, Nat.add_0_r.
    destruct (shotInProgress s); rewrite ?app_nil_r; repeat split.
Qed.

Section Phase.

(** One phase of the scan: the references [mk 0, mk 1, ...] into the
    array read by [getL]. *)
Variable mk : nat -> BallRef.
Variable getL : State -> list Ball.
Variable otherL : State -> list Ball.

Hypothesis get_mk : forall s i, get_ball s (mk i) = nth_error (getL s) i.
Hypothesis store_getL :
  forall s i b, getL (store_ball s (mk i) b) = list_set (getL s) i b.
Hypothesis store_cue :
  forall s i b, cueBall (store_ball s (mk i) b) = cueBall s.
Hypothesis step_getL :
  forall pr s i b,
    getL (potStep pr s (mk i) b)
    = if inPocket (pockets s) pr b
      then getL (store_ball s (mk i) (mark_potted b)) else getL s.
Hypothesis step_otherL :
  forall pr s i b, otherL (potStep pr s (mk i) b) = otherL s.

Lemma phase_scan (pr : Q) (post : list Ball) :
  forall (pre : list Ball) (s : State),
    getL s = pre ++ post ->
    let hits := filter (inPocket (pockets s) pr) post in
    let s' := fold_left (potStepAt pr)
                (map mk (seq (List.length pre) (List.length post))) s in
    getL s' = pre ++ map (potIf (pockets s) pr) post /\
    otherL s' = otherL s /\
    table s' = table s /\ pockets s' = pockets s /\
    shotsTaken s' = shotsTaken s /\ shotInProgress s' = shotInProgress s /\
    shotLog s' = shotLog s /\
    shotFoulThisShot s'
    = (shotFoulThisShot s || (shotInProgress s && existsb isCue hits)) /\
    shotPottedThisShot s'
    = shotPottedThisShot s ++
        (if shotInProgress s then summaries hits else []) /\
    List.length (pocketEffects s')
    = (List.length (pocketEffects s) + List.length hits)%nat /\
    cueBall s' = (if existsb isCue hits then None else cueBall s).
Proof.
  induction post as [|b post IH]; intros pre s Hs; cbv zeta.
  - cbn. rewrite app_nil_r in Hs.
    rewrite app_nil_r, andb_false_r, orb_false_r, Nat.add_0_r.
    destruct (shotInProgress s); rewrite ?app_nil_r; repeat split; auto.
  - cbn [List.length seq map fold_left].
    assert (Hstep : potStepAt pr s (mk (List.length pre))
                    = potStep pr s (mk (List.length pre)) b).
    { unfold potStepAt. rewrite get_mk, Hs, nth_error_mid. reflexivity. }
    rewrite Hstep.
    set (s1 := potStep pr s (mk (List.length pre)) b).
    destruct (potStep_obs pr s (mk (List.length pre)) b)
      as (Ht & Hp & Hn & Hi & Hl & Hf & Hps & He & _ & _ & Hc).
    fold s1 in Ht, Hp, Hn, Hi, Hl, Hf, Hps, He, Hc.
    assert (Hg1 : getL s1 = (pre ++ [potIf (pockets s) pr b]) ++ post).
    { unfold s1. rewrite step_getL. unfold potIf.
      destruct (inPocket (pockets s) pr b).
      - rewrite store_getL, Hs, list_set_app, <- app_assoc. reflexivity.
      - rewrite Hs, <- app_assoc. reflexivity. }
    specialize (IH (pre ++ [potIf (pockets s) pr b]) s1 Hg1).
    cbv zeta in IH. rewrite length_app in IH. cbn [List.length] in IH.
    rewrite Nat.add_1_r in IH.
    destruct IH as (Gg & Go & Gt & Gp & Gn & Gi & Gl & Gf & Gps & Ge & Gc).
    rewrite Hp in *.
    rewrite Gg, Go, Gt, Gp, Gn, Gi, Gl, Gf, Gps, Ge, Gc.
    rewrite Ht, Hn, Hi, Hl, Hf, Hps, He, Hc.
    unfold s1 at 1. rewrite step_otherL. rewrite store_cue.
    cbn [filter map].
    destruct (inPocket (pockets s) pr b) eqn:Hhit; cbn [filter map existsb
      List.length andb].
    + rewrite <- app_assoc. cbn [app].
      destruct (shotInProgress s), (isCue b) eqn:Ecue; cbn [andb orb negb];
        unfold summaries; cbn [filter map]; rewrite ?Ecue; cbn [negb];
        rewrite <- ?app_assoc, ?orb_true_r, ?orb_false_r, ?app_nil_r;
        cbn [app]; repeat split; auto; try lia;
        destruct (existsb isCue _); reflexivity.
    + rewrite <- app_assoc. cbn [app].
      destruct (shotInProgress s); cbn [andb orb];
        unfold summaries; cbn [filter map];
        rewrite ?orb_false_r, ?app_nil_r, ?Nat.add_0_r; repeat split; auto.
Qed.

End Phase.

Lemma potStep_reds_other (pr : Q) (s : State) (ref : BallRef) (b : Ball) :
  (forall i, ref <> RedRef i) -> reds (potStep pr s ref b) = reds s.
Proof.
  intros Hr. destruct (potStep_obs pr s ref b)
    as (_ & _ & _ & _ & _ & _ & _ & _ & -> & _).
  rewrite store_ball_reds by assumption. destruct (inPocket _ _ _); reflexivity.
Qed.

Lemma store_ball_colours (s : State) (ref : BallRef) (b : Ball) :
  (forall i, ref <> ColourRef i) -> colours (store_ball s ref b) = colours s.
Proof.
  destruct ref as [i|i|]; intros Hr; cbn.
  - reflexivity.
  - destruct (Hr i). reflexivity.
  - destruct (cueBall s); reflexivity.
Qed.

Lemma potStep_colours_other (pr : Q) (s : State) (ref : BallRef) (b : Ball) :
  (forall i, ref <> ColourRef i) -> colours (potStep pr s ref b) = colours s.
Proof.
  intros Hr. destruct (potStep_obs pr s ref b)
    as (_ & _ & _ & _ & _ & _ & _ & _ & _ & -> & _).
  rewrite store_ball_colours by assumption.
  destruct (inPocket _ _ _); reflexivity.
Qed.

Lemma reds_scan (pr : Q) (s : State) :
  let hits := filter (inPocket (pockets s) pr) (reds s) in
  let s' := fold_left (potStepAt pr)
              (map RedRef (seq 0 (List.length (reds s)))) s in
  reds s' = map (potIf (pockets s) pr) (reds s) /\
  colours s' = colours s /\
  table s' = table s /\ pockets s' = pockets s /\
  shotsTaken s' = shotsTaken s /\ shotInProgress s' = shotInProgress s /\
  shotLog s' = shotLog s /\
  shotFoulThisShot s'
  = (shotFoulThisShot s || (shotInProgress s && existsb isCue hits)) /\
  shotPottedThisShot s'
  = shotPottedThisShot s ++ (if shotInProgress s then summaries hits else []) /\
  List.length (pocketEffects s')
  = (List.length (pocketEffects s) + List.length hits)%nat /\
  cueBall s' = (if existsb isCue hits then None else cueBall s).
Proof.
  apply (phase_scan RedRef reds colours) with (pre := []); try reflexivity.
  - intros pr' s' i b.
    destruct (potStep_obs pr' s' (RedRef i) b)
      as (_ & _ & _ & _ & _ & _ & _ & _ & -> & _). reflexivity.
  - intros pr' s' i b. apply potStep_colours_other. discriminate.
Qed.

Lemma colours_scan (pr : Q) (s : State) :
  let hits := filter (inPocket (pockets s) pr) (colours s) in
  let s' := fold_left (potStepAt pr)
              (map ColourRef (seq 0 (List.length (colours s)))) s in
  colours s' = map (potIf (pockets s) pr) (colours s) /\
  reds s' = reds s /\
  table s' = table s /\ pockets s' = pockets s /\
  shotsTaken s' = shotsTaken s /\ shotInProgress s' = shotInProgress s /\
  shotLog s' = shotLog s /\
  shotFoulThisShot s'
  = (shotFoulThisShot s || (shotInProgress s && existsb isCue hits)) /\
  shotPottedThisShot s'
  = shotPottedThisShot s ++ (if shotInProgress s then summaries hits else []) /\
  List.length (pocketEffects s')
  = (List.length (pocketEffects s) + List.length hits)%nat /\
  cueBall s' = (if existsb isCue hits then None else cueBall s).
Proof.
  apply (phase_scan ColourRef colours reds) with (pre := []); try reflexivity.
  - intros pr' s' i b.
    destruct (potStep_obs pr' s' (ColourRef i) b)
      as (_ & _ & _ & _ & _ & _ & _ & _ & _ & -> & _). reflexivity.
  - intros pr' s' i b. apply potStep_reds_other. discriminate.
Qed.

Lemma summaries_app (l1 l2 : list Ball) :
  summaries (l1 ++ l2) = summaries l1 ++ summaries l2.
Proof. unfold summaries. now rewrite filter_app, map_app. Qed.

Lemma scanned_split (s : State) :
  scanned s
  = filter (inPocket (pockets s) (captureRadius s)) (reds s)
    ++ filter (inPocket (pockets s) (captureRadius s)) (colours s)
    ++ match cueBall s with
       | Some c => filter (inPocket (pockets s) (captureRadius s)) [c]
       | None => []
       end.
Proof.
  unfold scanned, all_balls, with_cue.
  destruct (cueBall s); rewrite ?filter_app, <- ?app_assoc, ?app_nil_r;
    reflexivity.
Qed.

Lemma store_ball_cue (s : State) (b : Ball) :
  cueBall (store_ball s CueRef b)
  = match cueBall s with Some _ => Some b | None => None end.
Proof.
  cbn. destruct (cueBall s) eqn:E; cbn; [reflexivity | exact E].
Qed.

(** What one scan does, field by field. *)
Lemma handlePotting_spec (s : State) :
  let pr := captureRadius s in
  let s' := handlePotting s in
  reds s' = map (potIf (pockets s) pr) (reds s) /\
  colours s' = map (potIf (pockets s) pr) (colours s) /\
  table s' = table s /\ pockets s' = pockets s /\
  shotsTaken s' = shotsTaken s /\ shotInProgress s' = shotInProgress s /\
  shotLog s' = shotLog s /\
  shotFoulThisShot s'
  = (shotFoulThisShot s || (shotInProgress s && existsb isCue (scanned s))) /\
  shotPottedThisShot s'
  = shotPottedThisShot s ++
      (if shotInProgress s then summaries (scanned s) else []) /\
  List.length (pocketEffects s')
  = (List.length (pocketEffects s) + List.length (scanned s))%nat /\
  cueBall s'
  = (if existsb isCue (scanned s) then None
     else option_map (potIf (pockets s) pr) (cueBall s)).
Proof.
  cbv zeta. unfold handlePotting. cbv zeta. fold (captureRadius s).
  set (pr := captureRadius s).
  destruct (reds_scan pr s)
    as (Rr & Rc & Rt & Rp & Rn & Ri & Rl & Rf & Rps & Re & Rcue).
  set (s1 := fold_left (potStepAt pr)
               (map RedRef (seq 0 (List.length (reds s)))) s) in *.
  pose proof (colours_scan pr s1) as C. cbv zeta in C.
  rewrite Rc, Rp in C.
  destruct C as (Cc & Cr & Ct & Cp & Cn & Ci & Cl & Cf & Cps & Ce & Ccue).
  set (s2 := fold_left (potStepAt pr)
               (map ColourRef (seq 0 (List.length (colours s)))) s1) in *.
  rewrite scanned_split. fold pr.
  set (hr := filter (inPocket (pockets s) pr) (reds s)) in *.
  set (hc := filter (inPocket (pockets s) pr) (colours s)) in *.
  destruct (cueBall s) as [c|] eqn:Ecue.
  - destruct (potStep_obs pr s2 CueRef c)
      as (Qt & Qp & Qn & Qi & Ql & Qf & Qps & Qe & Qr & Qc & Qcue).
    rewrite Cp in Qf, Qps, Qe, Qr, Qc, Qcue.
    rewrite store_ball_reds in Qr by discriminate.
    rewrite store_ball_colours in Qc by discriminate.
    rewrite ?Qt, ?Qp, ?Qn, ?Qi, ?Ql, ?Qf, ?Qps, ?Qe, ?Qr, ?Qc, ?Qcue.
    rewrite ?Cc, ?Cr, ?Ct, ?Cp, ?Cn, ?Ci, ?Cl, ?Cf, ?Cps, ?Ce.
    rewrite ?Rr, ?Rt, ?Rp, ?Rn, ?Ri, ?Rl, ?Rf, ?Rps, ?Re.
    rewrite !summaries_app, !existsb_app, !length_app.
    assert (Hstore : cueBall (store_ball s2 CueRef (mark_potted c))
                     = if existsb isCue hr || existsb isCue hc then None
                       else Some (mark_potted c)).
    { rewrite store_ball_cue, Ccue, Rcue.
      destruct (existsb isCue hc), (existsb isCue hr); reflexivity. }
    rewrite Hstore, Ccue, Rcue. unfold potIf. cbn [filter option_map].
    destruct (inPocket (pockets s) pr c) eqn:Hhit; cbn [existsb List.length].
    + destruct (shotInProgress s), (isCue c) eqn:Ec,
        (existsb isCue hr), (existsb isCue hc);
        cbn [andb orb]; unfold summaries; cbn [filter map];
        rewrite ?Ec; cbn [negb map]; rewrite <- ?app_assoc, ?app_nil_r;
        repeat split; auto; try lia;
        destruct (shotFoulThisShot s); reflexivity.
    + destruct (shotInProgress s), (existsb isCue hr), (existsb isCue hc);
        cbn [andb orb]; unfold summaries; cbn [filter map];
        rewrite <- ?app_assoc, ?app_nil_r; repeat split; auto; try lia;
        destruct (shotFoulThisShot s); reflexivity.
  - rewrite ?Cc, ?Cr, ?Ct, ?Cp, ?Cn, ?Ci, ?Cl, ?Cf, ?Cps, ?Ce, ?Ccue.
    rewrite ?Rr, ?Rt, ?Rp, ?Rn, ?Ri, ?Rl, ?Rf, ?Rps, ?Re, ?Rcue.
    rewrite !summaries_app, !existsb_app, !length_app, !app_nil_r.
    cbn [existsb List.length option_map].
    destruct (shotInProgress s), (existsb isCue hr), (existsb isCue hc);
      cbn [andb orb]; rewrite <- ?app_assoc, ?app_nil_r;
      repeat split; auto; try lia;
        destruct (shotFoulThisShot s); reflexivity.
Qed.

(* ------------------------------------------------------------------ *)
(** ** Potting: once and for all *)

Lemma inPocket_near (pks : list Pocket) (pr : Q) (b : Ball) :
  inPocket pks pr b = true <->
  potted b = false /\ exists p, In p pks /\ nearPocket pr b p = true.
Proof.
  unfold inPocket, firstPocket, nearPocket.
  destruct (potted b); cbn [negb andb].
  - split; [discriminate | intros [H _]; discriminate].
  - destruct (find _ pks) as [p|] eqn:Hf.
    + apply find_some in Hf. split; [|reflexivity].
      intros _. split; [reflexivity|]. exists p. exact Hf.
    + split; [discriminate|]. intros [_ (p & Hin & Hp)].
      pose proof (find_none _ _ Hf p Hin) as Hn. cbv beta in Hn. congruence.
Qed.

Lemma potIf_potted (pks : list Pocket) (pr : Q) (b : Ball) :
  potted b = true -> potIf pks pr b = b.
Proof.
  intros Hp. unfold potIf, inPocket. rewrite Hp. reflexivity.
Qed.

Lemma inPocket_potIf (pks : list Pocket) (pr : Q) (b : Ball) :
  inPocket pks pr (potIf pks pr b) = false.
Proof.
  unfold potIf. destruct (inPocket pks pr b) eqn:Hhit; [|exact Hhit].
  reflexivity.
Qed.

Lemma potStepAt_miss (pr : Q) (s : State) (ref : BallRef) :
  (forall b, get_ball s ref = Some b -> inPocket (pockets s) pr b = false) ->
  potStepAt pr s ref = s.
Proof.
  unfold potStepAt. destruct (get_ball s ref) as [b|]; [|reflexivity].
  intros Hb. apply potStep_miss. apply Hb. reflexivity.
Qed.

Lemma fold_potStepAt_miss (pr : Q) (s : State) (refs : list BallRef) :
  (forall ref b, get_ball s ref = Some b ->
                 inPocket (pockets s) pr b = false) ->
  fold_left (potStepAt pr) refs s = s.
Proof.
  intros Hall. induction refs as [|ref refs IH]; cbn; [reflexivity|].
  rewrite potStepAt_miss by (apply Hall). exact IH.
Qed.

(** A scan of a state in which no live ball is near a pocket changes
    nothing. *)
Lemma handlePotting_miss (s : State) :
  Forall (fun b => inPocket (pockets s) (captureRadius s) b = false)
         (all_balls s) ->
  handlePotting s = s.
Proof.
  intros Hall. rewrite Forall_forall in Hall.
  assert (Hget : forall ref b, get_ball s ref = Some b ->
                   inPocket (pockets s) (captureRadius s) b = false).
  { intros ref b Hg. apply Hall. unfold all_balls, with_cue.
    destruct ref as [i|i|]; cbn in Hg.
    - apply nth_error_In in Hg. destruct (cueBall s); rewrite ?in_app_iff; tauto.
    - apply nth_error_In in Hg. destruct (cueBall s); rewrite ?in_app_iff; tauto.
    - rewrite Hg. rewrite !in_app_iff. cbn. tauto. }
  unfold handlePotting. cbv zeta. fold (captureRadius s).
  rewrite !(fold_potStepAt_miss (captureRadius s) s) by exact Hget.
  destruct (cueBall s) as [c|] eqn:Ec; [|reflexivity].
  apply potStep_miss. apply (Hget CueRef). exact Ec.
Qed.

Lemma handlePotting_idem (s : State) :
  handlePotting (handlePotting s) = handlePotting s.
Proof.
  destruct (handlePotting_spec s)
    as (Hr & Hc & Ht & Hp & _ & _ & _ & _ & _ & _ & Hcue).
  apply handlePotting_miss.
  unfold captureRadius, all_balls, with_cue. rewrite Hr, Hc, Hcue, Ht, Hp.
  fold (captureRadius s).
  assert (Hm : forall l, Forall (fun b => inPocket (pockets s) (captureRadius s) b = false)
                 (map (potIf (pockets s) (captureRadius s)) l)).
  { intros l. rewrite Forall_map, Forall_forall. intros b _.
    apply inPocket_potIf. }
  destruct (existsb isCue (scanned s)).
  - rewrite <- map_app. apply Hm.
  - destruct (cueBall s) as [c|]; cbn [option_map].
    + change [potIf (pockets s) (captureRadius s) c]
        with (map (potIf (pockets s) (captureRadius s)) [c]).
      rewrite <- !map_app. apply Hm.
    + rewrite <- map_app. apply Hm.
Qed.

Lemma move_list_stays (ph : Physics) (mk : nat -> BallRef) (l : list Ball) :
  forall i, Forall2 staysPotted l (move_list ph mk i l).
Proof.
  induction l as [|b l IH]; intros i; cbn; constructor; [|apply IH].
  unfold staysPotted, move_ball. destruct (ph (mk i) (body b)). cbn. auto.
Qed.

Lemma map_potIf_stays (pks : list Pocket) (pr : Q) (l : list Ball) :
  Forall2 staysPotted l (map (potIf pks pr) l).
Proof.
  induction l as [|b l IH]; cbn; constructor; [|exact IH].
  unfold staysPotted, potIf. destruct (inPocket pks pr b); cbn; auto.
Qed.

Lemma Forall2_staysPotted_refl (l : list Ball) : Forall2 staysPotted l l.
Proof. induction l; constructor; [split; auto | assumption]. Qed.

Lemma Forall2_staysPotted_trans (l1 l2 l3 : list Ball) :
  Forall2 staysPotted l1 l2 -> Forall2 staysPotted l2 l3 ->
  Forall2 staysPotted l1 l3.
Proof.
  intros H12. revert l3.
  induction H12 as [|a b l1 l2 [Hi Hp] _ IH]; intros l3 H23;
    inversion H23 as [|b' c l2' l3' [Hi' Hp'] Hrest]; subst; constructor.
  - split; [congruence | auto].
  - apply IH. assumption.
Qed.

Lemma finalize_balls (s : State) :
  reds (finalizeShotIfSettled s) = reds s /\
  colours (finalizeShotIfSettled s) = colours s /\
  cueBall (finalizeShotIfSettled s) = cueBall s.
Proof.
  unfold finalizeShotIfSettled. break_ifs; repeat split.
Qed.

(** Across a frame, every red and every colour keeps its identity and,
    once potted, stays potted. *)
Lemma frame_stays (ph : Physics) (s : State) :
  Forall2 staysPotted (reds s) (reds (frame ph s)) /\
  Forall2 staysPotted (colours s) (colours (frame ph s)).
Proof.
  unfold frame. destruct (gameOver s); cbn [negb].
  - split; apply Forall2_staysPotted_refl.
  - destruct (finalize_balls (handlePotting (stepPhysics ph s)))
      as (-> & -> & _).
    destruct (handlePotting_spec (stepPhysics ph s)) as (-> & -> & _).
    split.
    + eapply Forall2_staysPotted_trans; [|apply map_potIf_stays].
      apply move_list_stays.
    + eapply Forall2_staysPotted_trans; [|apply map_potIf_stays].
      apply move_list_stays.
Qed.

(** The same across a click that places a cue ball. *)
Lemma step_stays (e : Event) (s : State) :
  Forall2 staysPotted (reds s) (reds (step e s)) /\
  Forall2 staysPotted (colours s) (colours (step e s)).
Proof.
  destruct e as [ph|x y g]; cbn [step]; [apply frame_stays|].
  assert (Hsame : reds (fst (placeCueBall x y s g)) = reds s /\
                  colours (fst (placeCueBall x y s g)) = colours s).
  { unfold placeCueBall. destruct (cueBall s); [auto|].
    destruct (pointInD (table s) x y); [|auto].
    unfold bind, ret.
    destruct (createBall x y (ballR (table s)) "#f5f5f5" cueExtra g).
    auto. }
  destruct Hsame as [Hr Hc].
  destruct (gameOver s); rewrite ?Hr, ?Hc; split;
    apply Forall2_staysPotted_refl.
Qed.

(** C5: a scan ([handlePotting]) replaces every live ball whose centre is
    closer than [1.18 * pocketR] to some pocket centre by the same ball
    marked potted and with its body out of the world, and leaves every
    other ball, in particular every ball already potted, as it is; a cue
    ball so potted leaves [cueBall] empty.  [potBall] runs once for each
    such ball (one pocket effect each), a second scan changes nothing, and
    across any later frame, cue-ball placement or shot a potted red or
    colour stays potted. *)
Theorem C5_pot_once :
  forall s : State,
    let pks := pockets s in
    let pr := captureRadius s in
    let s' := handlePotting s in
    pr == 1.18 * pocketR (table s) /\
    reds s' = map (potIf pks pr) (reds s) /\
    colours s' = map (potIf pks pr) (colours s) /\
    cueBall s'
    = (if existsb isCue (scanned s) then None
       else option_map (potIf pks pr) (cueBall s)) /\
    (forall b,
        potted b = false ->
        (exists p, In p pks /\ nearPocket pr b p = true) ->
        potIf pks pr b = mark_potted b /\
        potted (mark_potted b) = true /\
        in_world (body (mark_potted b)) = false) /\
    (forall b,
        potted b = false ->
        (forall p, In p pks -> nearPocket pr b p = false) ->
        potIf pks pr b = b) /\
    (forall b, potted b = true -> potIf pks pr b = b) /\
    (forall c,
        cueBall s = Some c -> isCue c = true -> potted c = false ->
        (exists p, In p pks /\ nearPocket pr c p = true) ->
        cueBall s' = None) /\
    List.length (pocketEffects s')
    = (List.length (pocketEffects s) + List.length (scanned s))%nat /\
    handlePotting s' = s' /\
    (forall e,
        Forall2 staysPotted (reds s) (reds (step e s)) /\
        Forall2 staysPotted (colours s) (colours (step e s))) /\
    (forall math : P5Math,
        reds (@tryShoot math s) = reds s /\
        colours (@tryShoot math s) = colours s).
Proof.
  intros s pks pr s'.
  destruct (handlePotting_spec s)
    as (Hr & Hc & _ & _ & _ & _ & _ & _ & _ & He & Hcue).
  fold pks pr s' in Hr, Hc, He, Hcue.
  split; [unfold pr, captureRadius; ring|].
  split; [exact Hr|]. split; [exact Hc|]. split; [exact Hcue|].
  split.
  { intros b Hlive Hnear. unfold potIf.
    rewrite (proj2 (inPocket_near pks pr b)) by auto.
    repeat split. }
  split.
  { intros b Hlive Hfar. unfold potIf.
    destruct (inPocket pks pr b) eqn:Hhit; [|reflexivity].
    apply inPocket_near in Hhit. destruct Hhit as (_ & p & Hin & Hp).
    rewrite (Hfar p Hin) in Hp. discriminate. }
  split; [intros b; apply potIf_potted|].
  split.
  { intros c Hc0 Hcue0 Hlive Hnear. rewrite Hcue.
    assert (Hex : existsb isCue (scanned s) = true).
    { apply existsb_exists. exists c. split; [|exact Hcue0].
      unfold scanned. apply filter_In. split.
      - unfold all_balls, with_cue. rewrite Hc0, in_app_iff. cbn. tauto.
      - apply inPocket_near. auto. }
    rewrite Hex. reflexivity. }
  split; [exact He|].
  split; [apply handlePotting_idem|].
  split; [intros e; apply step_stays|].
  intros math. unfold tryShoot.
  destruct (cueBall s); [|auto]. break_ifs; auto.
Qed.

(** The first red, moved onto the top-left pocket, is potted by the next
    scan, once. *)
Lemma C5_pot_once_witness :
  let b := nth 0 (reds pottingState) (blackOf pottingState) in
  potted b = false /\
  nth_error (reds (handlePotting pottingState)) 0 = Some (mark_potted b) /\
  potted (mark_potted b) = true /\
  in_world (body (mark_potted b)) = false /\
  List.length (pocketEffects (handlePotting pottingState)) = 1%nat /\
  handlePotting (handlePotting pottingState) = handlePotting pottingState.
Proof.
  cbv zeta.
  set (b := nth 0 (reds pottingState) (blackOf pottingState)).
  destruct (C5_pot_once pottingState)
    as (_ & Hr & _ & _ & Hnear & _ & _ & _ & He & Hidem & _ & _).
  assert (Hlive : potted b = false) by reflexivity.
  assert (Hex : exists p, In p (pockets pottingState) /\
                          nearPocket (captureRadius pottingState) b p = true).
  { exists (nth 0 (pockets pottingState) pocketBR). split.
    - left. reflexivity.
    - vm_compute. reflexivity. }
  destruct (Hnear b Hlive Hex) as (Hpot & Hp & Hw).
  split; [exact Hlive|].
  split.
  { rewrite Hr. change (reds pottingState) with (b :: tl (reds pottingState)).
    cbn [map nth_error]. rewrite Hpot. reflexivity. }
  split; [exact Hp|]. split; [exact Hw|].
  split; [rewrite He; vm_compute; reflexivity | exact Hidem].
Defined.

(* ------------------------------------------------------------------ *)
(** ** The life of a shot *)



(** A frame never opens a shot, and records nothing on a closed one. *)
Lemma frame_closed (ph : Physics) (s : State) :
  shotInProgress s = false ->
  shotInProgress (frame ph s) = false /\ shotLog (frame ph s) = shotLog s.
Proof.
  intros Hclosed. unfold frame. destruct (gameOver s); cbn [negb]; [auto|].
  destruct (handlePotting_spec (stepPhysics ph s))
    as (_ & _ & _ & _ & _ & Hi & Hl & _).
  change (shotInProgress (stepPhysics ph s)) with (shotInProgress s) in Hi.
  change (shotLog (stepPhysics ph s)) with (shotLog s) in Hl.
  unfold finalizeShotIfSettled. rewrite Hi, Hclosed. cbn [negb].
  split; [congruence | exact Hl].
Qed.

(** Placing a cue ball touches none of the shot variables. *)
Lemma placeCueBall_shot (x y : Q) (s : State) (g : Rng) :
  let s' := fst (placeCueBall x y s g) in
  shotInProgress s' = shotInProgress s /\
  shotsTaken s' = shotsTaken s /\
  shotLog s' = shotLog s /\
  shotFoulThisShot s' = shotFoulThisShot s /\
  shotPottedThisShot s' = shotPottedThisShot s.
Proof.
  cbv zeta. unfold placeCueBall.
  destruct (cueBall s); [cbn; auto 6|].
  destruct (pointInD (table s) x y); [|cbn; auto 6].
  unfold bind, ret.
  destruct (createBall x y (ballR (table s)) "#f5f5f5" cueExtra g) as [b g'].
  cbn. auto 6.
Qed.



Lemma run_cons (e : Event) (es : list Event) (s : State) :
  run (e :: es) s = run es (step e s).
Proof. reflexivity. Qed.









Section Shot.
Context {math : P5Math}.









End Shot.



(* ------------------------------------------------------------------ *)
(** ** Layouts *)

Lemma dist2_sym (x1 y1 x2 y2 : Q) : dist2 x1 y1 x2 y2 == dist2 x2 y2 x1 y1.
Proof. unfold dist2, sq. ring. Qed.

Lemma apart_sym (m : Q) (a b : Ball) : apart m a b -> apart m b a.
Proof.
  unfold apart, dist_ge. intros [H|H]; [left; exact H|right].
  rewrite dist2_sym. exact H.
Qed.

Lemma separated_app (m : Q) (l1 l2 : list Ball) :
  separated m l1 -> separated m l2 ->
  Forall (fun a => Forall (apart m a) l2) l1 ->
  separated m (l1 ++ l2).
Proof.
  unfold separated. intros H1 H2 H12.
  induction H1 as [|a l1 Ha H1 IH]; cbn; [exact H2|].
  inversion H12 as [|a' l1' Ha2 H12']; subst.
  constructor; [|apply IH; assumption].
  apply Forall_app. split; assumption.
Qed.

Lemma separated_snoc (m : Q) (l : list Ball) (b : Ball) :
  separated m l -> Forall (fun a => apart m a b) l -> separated m (l ++ [b]).
Proof.
  intros Hl Hb. apply separated_app; [exact Hl | |].
  - constructor; constructor.
  - rewrite Forall_forall in *. intros a Ha. constructor; [auto|constructor].
Qed.

(** Grid coordinates 1.025 apart give centres [1.025 * d] apart, whatever
    the sign of [d]. *)
Lemma farCoeff_dist (x0 y0 d m : Q) (p q : Point) (c1 c2 : Q * Q) :
  m == 1.025 * d ->
  onGrid x0 y0 d p c1 -> onGrid x0 y0 d q c2 ->
  farCoeff c1 c2 = true ->
  dist_ge (p_x p) (p_y p) (p_x q) (p_y q) m.
Proof.
  destruct c1 as [a1 b1], c2 as [a2 b2]. unfold onGrid, farCoeff.
  cbn [fst snd]. intros Hm [Hpx Hpy] [Hqx Hqy] Hfar.
  apply Qle_bool_iff in Hfar. right. unfold dist2, sq in *.
  rewrite Hm, Hpx, Hpy, Hqx, Hqy.
  assert (Hd : 0 <= d * d) by nra.
  assert (Hk : 0 <= ((a2 - a1) * (a2 - a1) + (b2 - b1) * (b2 - b1)
                     - 1.025 * 1.025) * (d * d))
    by (apply Qmult_le_0_compat; [lra | exact Hd]).
  lra.
Qed.

Lemma sepCoeffs_separated (x0 y0 d m : Q) (l : list Ball) (cs : list (Q * Q)) :
  m == 1.025 * d ->
  Forall2 (fun b c => onGrid x0 y0 d (centre b) c) l cs ->
  sepCoeffs cs = true ->
  separated m l.
Proof.
  intros Hm Hg. induction Hg as [|b c l cs Hb Hg IH]; cbn [sepCoeffs].
  - constructor.
  - rewrite andb_true_iff, forallb_forall. intros [Hfar Hsep].
    constructor; [|apply IH; exact Hsep].
    clear IH Hsep. induction Hg as [|b' c' l cs Hb' Hg IH]; constructor.
    + eapply farCoeff_dist; eauto. apply Hfar. left. reflexivity.
    + apply IH. intros x Hx. apply Hfar. right. exact Hx.
Qed.

Example coeffs_separated :
  sepCoeffs (triangleCoeffs ++ colourCoeffs) = true.
Proof. vm_compute. reflexivity. Qed.

(** The table in ball diameters: the surface is 68.8 by 32.8, the overlap
    bound [ballR * 2.05] is 1.025, and the colour spots are where
    [colourCoeffs] says. *)
Lemma geometry_grid (width height : Q) :
  let t := rebuildTableGeometry width height in
  let sf := surface t in
  let x0 := r_x sf in
  let y0 := r_y sf + r_h sf / 2 in
  let d := ballD t in
  ballR t * 2.05 == 1.025 * d /\
  r_w sf == 68.8 * d /\
  r_h sf == 32.8 * d /\
  p_x (pink (spots t)) == x0 + 0.75 * 68.8 * d /\
  Forall2 (onGrid x0 y0 d)
    [yellow (spots t); green (spots t); brown (spots t);
     blue (spots t); pink (spots t); black (spots t)]
    colourCoeffs.
Proof.
  intros t sf x0 y0 d.
  assert (Hd : d == t_w t / 2 / 36) by reflexivity.
  assert (Hr : ballR t == d / 2) by reflexivity.
  assert (Hw : r_w sf == t_w t - 2 * (d * 1.6)) by reflexivity.
  assert (Hh : r_h sf == t_w t / 2 - 2 * (d * 1.6)) by reflexivity.
  assert (Hbx : baulkX t == x0 + r_w sf * 0.207) by reflexivity.
  assert (Hdr : dRadius t == r_h sf * 0.165) by reflexivity.
  assert (Hyx : p_x (yellow (spots t)) == baulkX t) by reflexivity.
  assert (Hyy : p_y (yellow (spots t)) == y0 + dRadius t) by reflexivity.
  assert (Hgx : p_x (green (spots t)) == baulkX t) by reflexivity.
  assert (Hgy : p_y (green (spots t)) == y0 - dRadius t) by reflexivity.
  assert (Hnx : p_x (brown (spots t)) == baulkX t) by reflexivity.
  assert (Hny : p_y (brown (spots t)) == y0) by reflexivity.
  assert (Hux : p_x (blue (spots t)) == x0 + r_w sf / 2) by reflexivity.
  assert (Huy : p_y (blue (spots t)) == y0) by reflexivity.
  assert (Hpx : p_x (pink (spots t)) == x0 + r_w sf * 0.75) by reflexivity.
  assert (Hpy : p_y (pink (spots t)) == y0) by reflexivity.
  assert (Hkx : p_x (black (spots t)) == x0 + r_w sf * 0.91) by reflexivity.
  assert (Hky : p_y (black (spots t)) == y0) by reflexivity.
  clearbody t. clearbody y0. clearbody x0.
  unfold colourCoeffs, onGrid. cbn [fst snd].
  qdiv. repeat split; try lra.
  repeat constructor; cbn [fst snd]; lra.
Qed.

(** [floor(random(n))] is a valid index of an array of length [n], so
    [clusters[floor(random(clusters.length))]] is always one of the
    clusters. *)
Lemma random_index (n : nat) (g : Rng) :
  (0 < n)%nat ->
  (Z.to_nat (Qfloor (fst (random1 (nq n) g))) < n)%nat.
Proof.
  intros Hn. unfold random1, bind, draw, ret. cbn [fst].
  destruct (g 0%nat) as [u Hu]. cbn [u01].
  unfold in01 in Hu. apply andb_true_iff in Hu. destruct Hu as [H0 H1].
  apply Qle_bool_iff in H0. apply Qltb_lt in H1.
  assert (Hnq : 0 < nq n).
  { unfold nq. change 0 with (inject_Z 0). rewrite <- Zlt_Qlt. lia. }
  assert (Hlo : (0 <= Qfloor (u * nq n))%Z).
  { change 0%Z with (Qfloor 0). apply Qfloor_resp_le. nra. }
  assert (Hhi : (Qfloor (u * nq n) < Z.of_nat n)%Z).
  { rewrite Zlt_Qlt. apply Qle_lt_trans with (u * nq n); [apply Qfloor_le|].
    fold (nq n). nra. }
  lia.
Qed.

(** [createBall] always returns a live ball, in the world, centred where
    asked. *)
Lemma createBall_spec (x y r : Q) (c : string) (e : Extra) (g : Rng) :
  centre (fst (createBall x y r c e g)) = mkPoint x y /\
  potted (fst (createBall x y r c e g)) = false /\
  in_world (body (fst (createBall x y r c e g))) = true /\
  b_r (fst (createBall x y r c e g)) = r.
Proof.
  unfold createBall, bind, ret. destruct (e_id e); cbn; repeat split.
Qed.

Lemma colours_grid (t : Table) (g : Rng) (x0 y0 d : Q) :
  Forall2 (onGrid x0 y0 d)
    [yellow (spots t); green (spots t); brown (spots t);
     blue (spots t); pink (spots t); black (spots t)]
    colourCoeffs ->
  Forall2 (fun b c => onGrid x0 y0 d (centre b) c)
    (fst (createColouredBalls t g)) colourCoeffs /\
  Forall (fun b => potted b = false) (fst (createColouredBalls t g)).
Proof.
  intros Hg. split.
  - unfold colourCoeffs in *.
    repeat match goal with
           | H : Forall2 _ (_ :: _) (_ :: _) |- _ =>
               apply Forall2_cons_iff in H; destruct H
           end.
    cbv [createColouredBalls bind ret createBall named e_id e_isCue e_isRed fst].
    repeat (apply Forall2_cons;
            [unfold onGrid, centre in *; cbn [body position p_x p_y];
             assumption|]).
    apply Forall2_nil.
  - cbn. repeat constructor.
Qed.

(** One red of the standard triangle, on the grid. *)
Lemma triangle_point (x0 y0 d pinkX R C : Q) :
  pinkX == x0 + 0.75 * 68.8 * d ->
  onGrid x0 y0 d
    (mkPoint (pinkX + d * 2.0 + R * (d * 0.98))
             (y0 + (C - R / 2) * (d * 1.05)))
    (0.75 * 68.8 + 2.0 + R * 0.98, (C - R / 2) * 1.05).
Proof.
  intros Hp. unfold onGrid. cbn [fst snd p_x p_y]. rewrite Hp.
  split; ring.
Qed.

Lemma triangle_grid (t : Table) (g : Rng) (x0 y0 : Q) :
  x0 = r_x (surface t) ->
  y0 = r_y (surface t) + r_h (surface t) / 2 ->
  p_x (pink (spots t)) == x0 + 0.75 * 68.8 * ballD t ->
  Forall2 (fun b c => onGrid x0 y0 (ballD t) (centre b) c)
    (fst (createRedsStandardTriangle t g)) triangleCoeffs /\
  List.length (fst (createRedsStandardTriangle t g)) = 15%nat.
Proof.
  intros Hx Hy Hp. split; [|reflexivity].
  unfold triangleCoeffs. cbn [flat_map map seq app].
  cbv [createRedsStandardTriangle foldM seq bind ret createBall redExtra
       e_id e_isCue e_isRed random1 draw fst app].
  repeat (apply Forall2_cons; [|]); try apply Forall2_nil;
    unfold centre; cbn [body position]; rewrite <- Hy;
    apply triangle_point; exact Hp.
Qed.

(** An invariant of the folded state is an invariant of the loop. *)
Lemma foldM_inv {A S : Type} (P : S -> Prop) (f : S -> A -> M S) :
  (forall s a g, P s -> P (fst (f s a g))) ->
  forall l s g, P s -> P (fst (foldM f l s g)).
Proof.
  intros Hstep. induction l as [|a l IH]; intros s g Hs; cbn; [exact Hs|].
  unfold bind. pose proof (Hstep s a g Hs) as H1.
  destruct (f s a g) as [s' g']. cbn in H1. apply IH. exact H1.
Qed.

Lemma nonOverlapping_apart (x y r : Q) (lst cols : list Ball) (b : Ball) :
  nonOverlapping x y r lst cols None = true ->
  centre b = mkPoint x y ->
  Forall (fun a => potted a = false) (lst ++ cols) ->
  Forall (fun a => apart (r * 2.05) a b) (lst ++ cols).
Proof.
  unfold nonOverlapping, with_cue. intros Hno Hb Hlive.
  rewrite forallb_forall in Hno. rewrite Forall_forall in *.
  intros a Ha. specialize (Hno a Ha). rewrite (Hlive a Ha) in Hno.
  cbn [orb] in Hno. apply negb_true_iff, dist_lt_false in Hno.
  apply apart_sym. unfold apart. rewrite Hb. exact Hno.
Qed.

(** Placing a ball that passed [nonOverlapping] keeps the invariant. *)
Lemma layoutInv_place (x y r : Q) (c : string) (e : Extra) (g : Rng)
    (cols lst : list Ball) :
  Forall (fun a => potted a = false) cols ->
  layoutInv (r * 2.05) cols lst ->
  nonOverlapping x y r lst cols None = true ->
  layoutInv (r * 2.05) cols (lst ++ [fst (createBall x y r c e g)]).
Proof.
  intros Hcols (Hsep & Hcross & Hlive) Hno.
  destruct (createBall_spec x y r c e g) as (Hc & Hp & _).
  set (b := fst (createBall x y r c e g)) in *.
  assert (Hall : Forall (fun a => potted a = false) (lst ++ cols))
    by (apply Forall_app; split; assumption).
  pose proof (nonOverlapping_apart x y r lst cols b Hno Hc Hall) as Hap.
  apply Forall_app in Hap. destruct Hap as [Hl Hcs].
  split; [|split].
  - apply separated_snoc; assumption.
  - apply Forall_app. split; [exact Hcross|].
    constructor; [|constructor].
    rewrite Forall_forall in *. intros a Ha. apply apart_sym. auto.
  - apply Forall_app. split; [exact Hlive|]. constructor; [exact Hp|constructor].
Qed.

Lemma clusterAttempts_inv (t : Table) (cols : list Ball)
    (clusters : list Cluster) (n : nat) :
  Forall (fun a => potted a = false) cols ->
  forall (lst : list Ball) (g : Rng),
    layoutInv (ballR t * 2.05) cols lst ->
    layoutInv (ballR t * 2.05) cols
      (fst (fst (clusterAttempts t cols None clusters n lst g))).
Proof.
  intros Hcols. induction n as [|n IH]; intros lst g Hinv; [exact Hinv|].
  cbn [clusterAttempts]. unfold bind at 1.
  destruct (random1 _ g) as [k g1]. unfold bind at 1.
  destruct (random2 _ _ g1) as [x g2]. unfold bind at 1.
  destruct (random2 _ _ g2) as [y g3].
  destruct (pointInSurface t x y (ballR t)); cbn [negb]; [|apply IH; exact Hinv].
  destruct (nonOverlapping x y (ballR t) lst cols None) eqn:Hno; cbn [negb];
    [|apply IH; exact Hinv].
  unfold bind, ret.
  pose proof (layoutInv_place x y (ballR t) "#c1121f" redExtra g3 cols lst
                Hcols Hinv Hno) as Hplace.
  destruct (createBall x y (ballR t) "#c1121f" redExtra g3) as [b g4].
  exact Hplace.
Qed.

Lemma clustered_inv (t : Table) (cols : list Ball) (g : Rng) :
  Forall (fun a => potted a = false) cols ->
  layoutInv (ballR t * 2.05) cols (fst (createRedsClusteredRandom t cols None g)).
Proof.
  intros Hcols. unfold createRedsClusteredRandom. cbv zeta. unfold bind at 1.
  destruct (foldM _ (seq 0 3) [] g) as [clusters g0].
  apply (foldM_inv (layoutInv (ballR t * 2.05) cols)).
  - intros lst i g1 Hinv. unfold bind at 1.
    pose proof (clusterAttempts_inv t cols clusters 300 Hcols lst g1 Hinv) as H1.
    destruct (clusterAttempts t cols None clusters 300 lst g1)
      as [[lst1 placed] g2]. cbn [fst] in H1.
    destruct placed; cbn [negb]; [exact H1|].
    destruct (pointInSurface t _ _ (ballR t)); cbn [andb]; [|exact H1].
    match goal with
    | |- context [nonOverlapping ?x ?y ?r lst1 cols None] =>
        destruct (nonOverlapping x y r lst1 cols None) eqn:Hno
    end; [|exact H1].
    unfold bind, ret.
    match goal with
    | |- context [createBall ?x ?y ?r ?c ?e g2] =>
        pose proof (layoutInv_place x y r c e g2 cols lst1 Hcols H1 Hno)
          as Hplace;
        destruct (createBall x y r c e g2) as [b g3]
    end.
    exact Hplace.
  - repeat split; constructor.
Qed.

Lemma practice_inv (t : Table) (cols : list Ball) (g : Rng) :
  Forall (fun a => potted a = false) cols ->
  layoutInv (ballR t * 2.05) cols (fst (createRedsPracticeLayout t cols None g)).
Proof.
  intros Hcols. unfold createRedsPracticeLayout. cbv zeta.
  apply (foldM_inv (layoutInv (ballR t * 2.05) cols)).
  - intros lst row g1 Hinv.
    apply (foldM_inv (layoutInv (ballR t * 2.05) cols)); [|exact Hinv].
    intros lst1 col g2 Hinv1.
    destruct (pointInSurface t _ _ (ballR t)); cbn [andb]; [|exact Hinv1].
    match goal with
    | |- context [nonOverlapping ?x ?y ?r lst1 cols None] =>
        destruct (nonOverlapping x y r lst1 cols None) eqn:Hno
    end; [|exact Hinv1].
    unfold bind, ret.
    match goal with
    | |- context [createBall ?x ?y ?r ?c ?e g2] =>
        pose proof (layoutInv_place x y r c e g2 cols lst1 Hcols Hinv1 Hno)
          as Hplace;
        destruct (createBall x y r c e g2) as [b g3]
    end.
    exact Hplace.
  - repeat split; constructor.
Qed.

Lemma setMode_balls (nextMode : Z) (s : State) (g : Rng) :
  let cols := fst (createColouredBalls (table s) g) in
  let g1 := snd (createColouredBalls (table s) g) in
  let s' := fst (setMode nextMode s g) in
  table s' = table s /\ cueBall s' = None /\ colours s' = cols /\
  reds s'
  = fst ((if (nextMode =? 1)%Z then createRedsStandardTriangle (table s)
          else if (nextMode =? 2)%Z then
            createRedsClusteredRandom (table s) cols None
          else if (nextMode =? 3)%Z then
            createRedsPracticeLayout (table s) cols None
          else ret []) g1).
Proof.
  intros cols g1 s'.
  set (rs := fst ((if (nextMode =? 1)%Z then createRedsStandardTriangle (table s)
                   else if (nextMode =? 2)%Z then
                     createRedsClusteredRandom (table s) cols None
                   else if (nextMode =? 3)%Z then
                     createRedsPracticeLayout (table s) cols None
                   else ret []) g1)).
  assert (E : s' = mkState (table s) (pockets s) rs cols None nextMode
                     0 0.35 [] [] false "" (predictor s) 0 false [] false []).
  { unfold s', rs, cols, g1, setMode, bind at 1.
    destruct (createColouredBalls (table s) g) as [c g']. cbn [fst snd].
    unfold bind at 1.
    match goal with
    | |- context [let (a, g'') := ?m g' in _] => destruct (m g') as [r g2]
    end.
    reflexivity. }
  rewrite E. repeat split.
Qed.

(** C7: whatever the canvas, the mode and the random draws, the layout
    [setMode] produces has no cue ball, and every two of its balls (reds
    and colours) have centres at least [2.05 * ballR] apart; the standard
    layout has fifteen reds. *)
Theorem C7_layout_separation :
  forall (width height : Q) (s : State) (nextMode : Z) (g : Rng),
    table s = rebuildTableGeometry width height ->
    let s' := fst (setMode nextMode s g) in
    cueBall s' = None /\
    all_balls s' = reds s' ++ colours s' /\
    List.length (colours s') = 6%nat /\
    (nextMode = 1%Z -> List.length (reds s') = 15%nat) /\
    separated (ballR (table s') * 2.05) (all_balls s').
Proof.
  intros width height s nextMode g Ht s'.
  destruct (setMode_balls nextMode s g) as (Htab & Hcue & Hcols & Hreds).
  fold s' in Htab, Hcue, Hcols, Hreds.
  assert (Hall : all_balls s' = reds s' ++ colours s')
    by (unfold all_balls; rewrite Hcue; reflexivity).
  destruct (geometry_grid width height) as (Hm & _ & _ & Hpink & Hspots).
  rewrite <- Ht in Hm, Hpink, Hspots.
  set (t := table s) in *.
  set (x0 := r_x (surface t)) in *.
  set (y0 := r_y (surface t) + r_h (surface t) / 2) in *.
  destruct (colours_grid t g x0 y0 (ballD t) Hspots) as (Hcg & Hclive).
  set (cols := fst (createColouredBalls t g)) in *.
  set (g1 := snd (createColouredBalls t g)) in *.
  assert (Hcsep : separated (ballR t * 2.05) cols).
  { apply (sepCoeffs_separated x0 y0 (ballD t) _ _ colourCoeffs Hm Hcg).
    vm_compute. reflexivity. }
  split; [exact Hcue|]. split; [exact Hall|].
  split; [rewrite Hcols; reflexivity|].
  rewrite Hall, Htab, Hcols, Hreds.
  assert (Hchecked : forall rs,
             layoutInv (ballR t * 2.05) cols rs ->
             separated (ballR t * 2.05) (rs ++ cols)).
  { intros rs (Hsep & Hcross & _). apply separated_app; assumption. }
  destruct (nextMode =? 1)%Z eqn:E1.
  - destruct (triangle_grid t g1 x0 y0 eq_refl eq_refl Hpink) as (Htg & Hlen).
    split; [intros _; exact Hlen|].
    apply (sepCoeffs_separated x0 y0 (ballD t) _ _
             (triangleCoeffs ++ colourCoeffs) Hm).
    + apply Forall2_app; assumption.
    + exact coeffs_separated.
  - split; [intros ->; discriminate|].
    destruct (nextMode =? 2)%Z; [|destruct (nextMode =? 3)%Z].
    + apply Hchecked, clustered_inv, Hclive.
    + apply Hchecked, practice_inv, Hclive.
    + exact Hcsep.
Qed.

(** The clustered layout on the 1280 by 720 canvas, every draw being
    1/2. *)
Lemma C7_layout_separation_witness :
  let s := initialState (rebuildTableGeometry 1280 720) in
  let s' := fst (setMode 2 s rngHalf) in
  cueBall s' = None /\
  all_balls s' = reds s' ++ colours s' /\
  List.length (colours s') = 6%nat /\
  (2%Z = 1%Z -> List.length (reds s') = 15%nat) /\
  separated (ballR (table s') * 2.05) (all_balls s').
Proof.
  exact (C7_layout_separation 1280 720
           (initialState (rebuildTableGeometry 1280 720)) 2 rngHalf eq_refl).
Defined.

(* ================================================================== *)
(** * Further properties *)

(** ** Stepping the engine *)

Lemma constrain_bounds (n low high : Q) :
  low <= high -> low <= constrain n low high <= high.
Proof.
  intros Hlh. unfold constrain. split.
  - apply Q.le_max_r.
  - apply Q.max_lub; [apply Q.le_min_r | exact Hlh].
Qed.

Lemma constrain_inside (n low high : Q) :
  low <= n <= high -> constrain n low high == n.
Proof.
  intros [Hl Hh]. unfold constrain.
  rewrite (Q.min_l n high Hh). apply Q.max_l. exact Hl.
Qed.

Lemma Qsum_repeat (x : Q) (n : nat) : Qsum (repeat x n) == nq n * x.
Proof.
  induction n as [|n IH].
  - change (0 == 0 * x). ring.
  - cbn [repeat Qsum fold_right]. fold (Qsum (repeat x n)). rewrite IH.
    unfold nq. rewrite Nat2Z.inj_succ. unfold Z.succ. rewrite inject_Z_plus.
    ring.
Qed.

(** X1: whatever the frame delta, [stepPhysics] runs the engine once or
    twice (the cap of five steps is never reached, the delta being clamped
    to 1000/30 ms first), each step is at most 1000/60 ms long, and the
    steps add up to the clamped delta. *)
Theorem X1_substeps :
  forall deltaTime : Q,
    let l := stepPhysicsSchedule deltaTime in
    0 <= clampDelta deltaTime <= 1000 / 30 /\
    (List.length l = 1%nat \/ List.length l = 2%nat) /\
    Forall (fun stepMs => 0 <= stepMs <= 1000 / 60) l /\
    Qsum l == clampDelta deltaTime.
Proof.
  intros deltaTime l.
  assert (Hf : 0 <= clampDelta deltaTime <= 1000 / 30)
    by (apply constrain_bounds; vm_compute; discriminate).
  split; [exact Hf|].
  unfold l, stepPhysicsSchedule. cbv zeta.
  set (f := clampDelta deltaTime) in *.
  assert (Hq : f / (1000 / 60) == f * (3 # 50)) by (field; discriminate).
  set (z := Qceiling (f / (1000 / 60))).
  pose proof (Qle_ceiling (f / (1000 / 60))) as Hup.
  pose proof (Qceiling_lt (f / (1000 / 60))) as Hlo.
  fold z in Hup, Hlo. rewrite Hq in Hup, Hlo.
  destruct Hf as [Hf0 Hf1]. qdiv.
  assert (Hz : (z = 0 \/ z = 1 \/ z = 2)%Z).
  { assert (H0 : (0 <= z)%Z)
      by (rewrite Zle_Qle; change (inject_Z 0) with 0; lra).
    assert (H2 : (z - 1 < 2)%Z)
      by (rewrite Zlt_Qlt; change (inject_Z 2) with 2; lra).
    lia. }
  clearbody z.
  destruct Hz as [-> | [-> | ->]]; cbn [repeat Z.to_nat Qfloor constrain];
    cbn in Hup, Hlo |- *;
    change (Pos.to_nat 1) with 1%nat; change (Pos.to_nat 2) with 2%nat;
    cbn [repeat List.length fold_right];
    change (inject_Z 0) with 0 in *; change (inject_Z 1) with 1 in *;
    change (inject_Z 2) with 2 in *;
    (split; [auto|]); (split; [repeat constructor; lra | lra]).
Qed.

(** ** The failsafe and the speed cap of [stepBalls] *)

Section StepBalls.
Context {math : P5Math}.

(** X2: [stepBalls] leaves potted balls alone.  A live ball more than four
    radii outside the surface is moved to its own position clamped,
    coordinate by coordinate, into the surface inset by the ball radius,
    and its velocity is set to zero; where that inset is not empty the
    ball is therefore inside it.  A live ball within the margin keeps its
    position.  The forces applied and the membership of the world are
    never touched. *)
Theorem X2_escape_recovery :
  forall (t : Table) (b : Ball),
    let sf := surface t in
    let r := ballR t in
    let b' := stepBall t b in
    (potted b = true -> b' = b) /\
    applied (body b') = applied (body b) /\
    in_world (body b') = in_world (body b) /\
    id b' = id b /\ isCue b' = isCue b /\ potted b' = potted b /\
    (potted b = false -> escaped t (centre b) = false ->
     centre b' = centre b) /\
    (potted b = false -> escaped t (centre b) = true ->
     centre b'
     = mkPoint (constrain (p_x (centre b)) (r_x sf + r) (r_x sf + r_w sf - r))
               (constrain (p_y (centre b)) (r_y sf + r) (r_y sf + r_h sf - r)) /\
     p_x (velocity (body b')) == 0 /\ p_y (velocity (body b')) == 0 /\
     (r_x sf + r <= r_x sf + r_w sf - r ->
      r_y sf + r <= r_y sf + r_h sf - r ->
      r_x sf + r <= p_x (centre b') <= r_x sf + r_w sf - r /\
      r_y sf + r <= p_y (centre b') <= r_y sf + r_h sf - r)).
Proof.
  intros t b sf r b'. unfold b', stepBall, centre.
  destruct (potted b) eqn:Hp.
  - rewrite Hp. repeat split; intros; try reflexivity; discriminate.
  - cbn [body id isCue potted]. unfold stepBallBody. cbv zeta.
    split; [discriminate|].
    destruct (escaped t (position (body b))) eqn:He.
    + break_ifs; cbn; repeat split; try discriminate; intros;
        try (apply constrain_bounds; assumption); try reflexivity; ring.
    + break_ifs; cbn; repeat split; try discriminate; auto.
Qed.

(** X3: for a live ball inside the margin, [stepBalls] changes the
    velocity only when the speed exceeds [4.2 * ballD]; it then multiplies
    both components by [maxSpeed / speed], which keeps the direction and
    brings the squared speed to exactly [maxSpeed^2]. *)
Theorem X3_speed_cap :
  forall (t : Table) (bd : Body),
    let v := velocity bd in
    let speed := magnitude v in
    let maxSpeed := ballD t * 4.2 in
    let bd' := stepBallBody t bd in
    escaped t (position bd) = false ->
    (speed <= maxSpeed -> bd' = bd) /\
    (maxSpeed < speed ->
     position bd' = position bd /\
     velocity bd' = mkPoint (p_x v * (maxSpeed / speed))
                            (p_y v * (maxSpeed / speed)) /\
     (0 <= maxSpeed -> speed * speed == p_x v * p_x v + p_y v * p_y v ->
      sq (p_x (velocity bd')) + sq (p_y (velocity bd')) == sq maxSpeed /\
      p_x v * p_y (velocity bd') == p_y v * p_x (velocity bd') /\
      0 <= p_x v * p_x (velocity bd') + p_y v * p_y (velocity bd'))).
Proof.
  intros t bd v speed maxSpeed bd' He.
  unfold bd', stepBallBody. cbv zeta. rewrite He.
  fold v. fold speed. fold maxSpeed.
  split.
  - intros Hle. apply Qltb_ge in Hle. unfold Qgtb. rewrite Hle. reflexivity.
  - intros Hgt. pose proof Hgt as Hgt'. apply Qltb_lt in Hgt'.
    unfold Qgtb. rewrite Hgt'. cbn [setVelocity position velocity].
    split; [reflexivity|]. split; [reflexivity|].
    intros Hm Hs. cbn [p_x p_y]. unfold sq.
    assert (Hpos : 0 < speed) by lra.
    assert (Hne : ~ speed == 0) by lra.
    assert (Hk : 0 <= maxSpeed / speed).
    { apply Qle_shift_div_l; [exact Hpos | lra]. }
    split; [|split].
    + transitivity ((p_x v * p_x v + p_y v * p_y v)
                    * (maxSpeed * maxSpeed) / (speed * speed)).
      * field. exact Hne.
      * rewrite <- Hs. field. exact Hne.
    + ring.
    + setoid_replace (p_x v * (p_x v * (maxSpeed / speed))
                      + p_y v * (p_y v * (maxSpeed / speed)))
        with ((speed * speed) * (maxSpeed / speed))
        by (rewrite Hs; ring).
      apply Qmult_le_0_compat; [nra | exact Hk].
Qed.

End StepBalls.

(** A ball thrown 100 px left of the table comes back to its left edge, at
    rest. *)
Lemma X2_escape_recovery_witness :
  let t := rebuildTableGeometry 1280 720 in
  let b := cueBallAt t (-100) 360 5 0 in
  let b' := @stepBall mathAtZero t b in
  escaped t (centre b) = true /\
  centre b'
  = mkPoint (constrain (-100) (r_x (surface t) + ballR t)
                       (r_x (surface t) + r_w (surface t) - ballR t))
            (constrain 360 (r_y (surface t) + ballR t)
                       (r_y (surface t) + r_h (surface t) - ballR t)) /\
  p_x (centre b') == r_x (surface t) + ballR t /\
  p_x (velocity (body b')) == 0.
Proof.
  cbv zeta.
  set (t := rebuildTableGeometry 1280 720).
  set (b := cueBallAt t (-100) 360 5 0).
  destruct (@X2_escape_recovery mathAtZero t b)
    as (_ & _ & _ & _ & _ & _ & _ & Hesc).
  assert (He : escaped t (centre b) = true) by (vm_compute; reflexivity).
  destruct (Hesc eq_refl He) as (Hc & Hvx & _).
  split; [exact He|]. split; [exact Hc|]. split; [|exact Hvx].
  rewrite Hc. vm_compute. reflexivity.
Defined.

(** A ball moving at (60, 80), speed 100, is slowed to the cap [57.4] of
    the 1280 by 720 table. *)
Lemma X3_speed_cap_witness :
  let t := rebuildTableGeometry 1280 720 in
  let bd := bodyAt 500 360 60 80 in
  let bd' := @stepBallBody mathHundred t bd in
  ballD t * 4.2 < @magnitude mathHundred (velocity bd) /\
  sq (p_x (velocity bd')) + sq (p_y (velocity bd')) == sq (ballD t * 4.2).
Proof.
  cbv zeta.
  set (t := rebuildTableGeometry 1280 720).
  set (bd := bodyAt 500 360 60 80).
  destruct (@X3_speed_cap mathHundred t bd eq_refl) as (_ & Hcap).
  assert (Hfast : ballD t * 4.2 < @magnitude mathHundred (velocity bd))
    by (vm_compute; reflexivity).
  destruct (Hcap Hfast) as (_ & _ & Hsq).
  destruct Hsq as (Hs & _).
  - vm_compute. discriminate.
  - vm_compute. reflexivity.
  - split; [exact Hfast | exact Hs].
Defined.

(** ** Cushions *)

(** X4: [buildTablePhysics] adds six cushions of thickness [1.05 * ballD]
    whose inner faces lie exactly on the four edges of the playing surface.
    Along the long sides they stop one pocket radius from each corner and
    [1.05] pocket radii from the middle, along the short sides one pocket
    radius from each corner.  No point strictly inside the surface lies in
    a cushion. *)
Theorem X4_cushions :
  forall t : Table,
    let sf := surface t in
    let r := pocketR t in
    let thick := ballD t * 1.05 in
    let x0 := r_x sf in
    let x1 := r_x sf + r_w sf in
    let y0 := r_y sf in
    let y1 := r_y sf + r_h sf in
    let mid := r_x sf + r_w sf / 2 in
    Forall2 cushionSpans (buildTablePhysics t)
      [ (x0 + r, mid - 1.05 * r, y0 - thick, y0);
        (mid + 1.05 * r, x1 - r, y0 - thick, y0);
        (x0 + r, mid - 1.05 * r, y1, y1 + thick);
        (mid + 1.05 * r, x1 - r, y1, y1 + thick);
        (x0 - thick, x0, y0 + r, y1 - r);
        (x1, x1 + thick, y0 + r, y1 - r) ] /\
    (forall x y,
        x0 < x < x1 -> y0 < y < y1 ->
        Forall (fun c => ~ inCushion c x y) (buildTablePhysics t)).
Proof.
  intros t sf r thick x0 x1 y0 y1 mid.
  unfold buildTablePhysics. cbv zeta.
  fold sf. fold r. fold thick.
  unfold x0, x1, y0, y1, mid.
  split.
  - repeat constructor; cbn [cu_cx cu_cy cu_w cu_h]; qdiv; lra.
  - intros x y Hx Hy.
    repeat constructor; unfold inCushion; cbn [cu_cx cu_cy cu_w cu_h];
      qdiv; lra.
Qed.

(** The centre of the 1280 by 720 table is in no cushion. *)
Lemma X4_cushions_witness :
  Forall (fun c => ~ inCushion c 500 360)
         (buildTablePhysics (rebuildTableGeometry 1280 720)).
Proof.
  apply (X4_cushions (rebuildTableGeometry 1280 720)); vm_compute; split; reflexivity.
Defined.

(** ** The table on the canvas *)

(** X5: on a canvas at least as high as the two bars (72 px), the table
    computed by [rebuildTableGeometry] has a non-negative size and lies
    within the canvas, between the top bar and the bottom bar; from a
    canvas width of 980 on it also leaves room for the side panel on its
    right.  The playing surface lies within the table. *)
Theorem X5_table_fits :
  forall width height : Q,
    0 <= width -> 72 <= height ->
    let t := rebuildTableGeometry width height in
    0 <= t_w t /\ 0 <= t_x t /\ t_x t + t_w t <= width /\
    UI_LAYOUT.topBarH <= t_y t /\
    t_y t + t_h t <= height - UI_LAYOUT.bottomBarH /\
    (980 <= width ->
     t_x t + t_w t + UI_LAYOUT.panelGap + UI_LAYOUT.panelW + UI_LAYOUT.sidePad
     <= width) /\
    t_x t <= r_x (surface t) /\
    r_x (surface t) + r_w (surface t) <= t_x t + t_w t /\
    t_y t <= r_y (surface t) /\
    r_y (surface t) + r_h (surface t) <= t_y t + t_h t /\
    0 <= r_w (surface t) /\ 0 <= r_h (surface t).
Proof.
  intros width height Hw Hh.
  unfold rebuildTableGeometry, UI_LAYOUT.topBarH, UI_LAYOUT.bottomBarH,
    UI_LAYOUT.sidePad, UI_LAYOUT.panelW, UI_LAYOUT.panelGap, pocketD_of.
  cbv zeta. cbn [t_w t_x t_y t_h surface r_x r_y r_w r_h].
  destruct (Qgeb width 980) eqn:Hc.
  - apply Qgeb_ge in Hc.
    set (L := Qmin (width - 20 - (240 + 16 + 20)) ((height - (40 + 32)) * 0.86 * 2)).
    assert (H1 : L <= width - 20 - (240 + 16 + 20)) by apply Q.le_min_l.
    assert (H2 : L <= (height - (40 + 32)) * 0.86 * 2) by apply Q.le_min_r.
    assert (H3 : 0 <= L) by (apply Q.min_glb; lra).
    clearbody L. qdiv. repeat split; lra.
  - set (L := Qmin (width * 0.86) ((height - (40 + 32)) * 0.86 * 2)).
    assert (H1 : L <= width * 0.86) by apply Q.le_min_l.
    assert (H2 : L <= (height - (40 + 32)) * 0.86 * 2) by apply Q.le_min_r.
    assert (H3 : 0 <= L) by (apply Q.min_glb; lra).
    assert (H4 : width < 980).
    { apply Qnot_le_lt. intros Hge. apply Qle_bool_iff in Hge.
      unfold Qgeb in Hc. congruence. }
    clearbody L. qdiv. repeat split; lra.
Qed.

(** The canvas of [setup]. *)
Lemma X5_table_fits_witness :
  let t := rebuildTableGeometry 1280 720 in
  0 <= t_w t /\ t_x t + t_w t <= 1280.
Proof.
  destruct (X5_table_fits 1280 720) as (H1 & _ & H2 & _).
  - vm_compute. discriminate.
  - vm_compute. discriminate.
  - split; [exact H1 | exact H2].
Defined.

(** ** Placing the cue ball *)

Lemma sq_bound (a b R : Q) : 0 <= R -> a * a + b * b <= R * R -> - R <= a <= R.
Proof. intros HR H. split; nra. Qed.

(** X6: on a table with a positive ball diameter the D is inside the
    playing surface, so [pointInD] accepts exactly the half disc: the
    points not right of the baulk line and within [dRadius] of
    [dCenter]. *)
Theorem X6_pointInD :
  forall width height px py : Q,
    let t := rebuildTableGeometry width height in
    0 < ballD t ->
    (pointInD t px py = true <->
     px <= baulkX t /\
     dist2 px py (p_x (dCenter t)) (p_y (dCenter t)) <= sq (dRadius t)).
Proof.
  intros width height px py t Hd.
  destruct (geometry_grid width height) as (_ & Hw & Hh & _).
  fold t in Hw, Hh.
  assert (Hr : ballR t == ballD t / 2) by reflexivity.
  assert (Hbx : baulkX t == r_x (surface t) + r_w (surface t) * 0.207)
    by reflexivity.
  assert (Hdr : dRadius t == r_h (surface t) * 0.165) by reflexivity.
  assert (Hcx : p_x (dCenter t) == baulkX t) by reflexivity.
  assert (Hcy : p_y (dCenter t) == r_y (surface t) + r_h (surface t) / 2)
    by reflexivity.
  unfold pointInD, pointInSurface, dist_le. cbv zeta.
  set (sf := surface t) in *. clearbody t.
  unfold Qgtb, Qgeb.
  split.
  - destruct (_ && _ && _ && _); cbn [negb]; [|discriminate].
    destruct (Qltb (baulkX t) px) eqn:Hb; [discriminate|].
    apply Qltb_ge in Hb. rewrite andb_true_iff, !Qle_bool_iff.
    intros [_ H]. split; assumption.
  - intros [Hleft Hdisc].
    assert (HR : 0 <= dRadius t) by (qdiv; lra).
    unfold dist2, sq in Hdisc.
    pose proof (sq_bound _ _ _ HR Hdisc) as Hx.
    assert (Hdisc' : (p_y (dCenter t) - py) * (p_y (dCenter t) - py)
                     + (p_x (dCenter t) - px) * (p_x (dCenter t) - px)
                     <= dRadius t * dRadius t) by lra.
    pose proof (sq_bound _ _ _ HR Hdisc') as Hy.
    assert (Hin : Qle_bool (r_x sf + ballR t) px
                  && Qle_bool px (r_x sf + r_w sf - ballR t)
                  && Qle_bool (r_y sf + ballR t) py
                  && Qle_bool py (r_y sf + r_h sf - ballR t) = true).
    { rewrite !andb_true_iff, !Qle_bool_iff. qdiv. repeat split; lra. }
    rewrite Hin. cbn [negb].
    assert (Hb : Qltb (baulkX t) px = false) by (apply Qltb_ge; exact Hleft).
    rewrite Hb. rewrite andb_true_iff, !Qle_bool_iff.
    split; [exact HR | exact Hdisc].
Qed.

(** A point of the D of the 1280 by 720 table. *)
Lemma X6_pointInD_witness :
  pointInD (rebuildTableGeometry 1280 720) 200 360 = true.
Proof.
  apply (X6_pointInD 1280 720 200 360).
  - vm_compute. reflexivity.
  - split; vm_compute; discriminate.
Defined.

(** X7: a click places a cue ball only when there is none and the point
    is accepted by [pointInD]; otherwise it changes nothing.  The ball
    placed is a live cue ball of the table's radius, centred on the click
    and at rest, so the cue ball then counts as resting and whether any
    ball is moving is as before; the reds, the colours and the shot
    variables are untouched. *)
Theorem X7_placeCueBall :
  forall (x y : Q) (s : State) (g : Rng),
    let s' := fst (placeCueBall x y s g) in
    ((cueBall s <> None \/ pointInD (table s) x y = false) -> s' = s) /\
    (cueBall s = None -> pointInD (table s) x y = true ->
     exists c,
       cueBall s' = Some c /\
       centre c = mkPoint x y /\ velocity (body c) = mkPoint 0 0 /\
       isCue c = true /\ isRed c = false /\ potted c = false /\
       in_world (body c) = true /\ b_r c = ballR (table s) /\
       reds s' = reds s /\ colours s' = colours s /\ table s' = table s /\
       gameOver s' = gameOver s /\
       shotsTaken s' = shotsTaken s /\ shotLog s' = shotLog s /\
       shotInProgress s' = shotInProgress s /\
       isCueBallResting s' = true /\
       areAnyBallsMoving s' = areAnyBallsMoving s).
Proof.
  intros x y s g s'. unfold s', placeCueBall. split.
  - intros [Hc|Hd].
    + destruct (cueBall s); [reflexivity | congruence].
    + destruct (cueBall s); [reflexivity|]. rewrite Hd. reflexivity.
  - intros Hc Hd.
    set (c0 := mkBall (IdBall (Qfloor (u01 (g 0%nat) * 1000000000))) "#f5f5f5"
                 (mkBody (mkPoint x y) (mkPoint 0 0) [] true)
                 (ballR (table s)) true false false).
    assert (E : fst (match cueBall s with
                     | Some _ => ret s
                     | None =>
                         if pointInD (table s) x y
                         then b <- createBall x y (ballR (table s)) "#f5f5f5"
                                     cueExtra ;;
                              ret (set_cueBall (Some b) s)
                         else ret s
                     end g) = set_cueBall (Some c0) s)
      by (rewrite Hc, Hd; reflexivity).
    rewrite E. exists c0.
    repeat (split; [reflexivity|]).
    unfold areAnyBallsMoving, all_balls, with_cue.
    cbn [reds colours cueBall set_cueBall]. rewrite Hc.
    rewrite existsb_app. cbn [existsb].
    change (ballIsMoving c0) with false.
    rewrite !orb_false_r. reflexivity.
Qed.

(** A click in the D of the empty 1280 by 720 table. *)
Lemma X7_placeCueBall_witness :
  let s := initialState (rebuildTableGeometry 1280 720) in
  exists c,
    cueBall (fst (placeCueBall 200 360 s rngZero)) = Some c /\
    centre c = mkPoint 200 360 /\
    isCueBallResting (fst (placeCueBall 200 360 s rngZero)) = true.
Proof.
  cbv zeta.
  destruct (X7_placeCueBall 200 360
              (initialState (rebuildTableGeometry 1280 720)) rngZero)
    as (_ & Hplace).
  destruct (Hplace eq_refl) as (c & Hc & Hpos & H).
  - vm_compute. reflexivity.
  - exists c. split; [exact Hc|]. split; [exact Hpos|]. apply H.
Defined.

Lemma brown_in_D (width height : Q) :
  let t := rebuildTableGeometry width height in
  0 < ballD t ->
  pointInD t (p_x (brown (spots t))) (p_y (brown (spots t))) = true.
Proof.
  intros t Hd.
  destruct (geometry_grid width height) as (_ & Hw & Hh & _).
  fold t in Hw, Hh.
  assert (Hr : ballR t == ballD t / 2) by reflexivity.
  assert (Hbx : baulkX t == r_x (surface t) + r_w (surface t) * 0.207)
    by reflexivity.
  assert (Hdr : dRadius t == r_h (surface t) * 0.165) by reflexivity.
  assert (Hx : p_x (brown (spots t)) == baulkX t) by reflexivity.
  assert (Hy : p_y (brown (spots t))
               == r_y (surface t) + r_h (surface t) / 2) by reflexivity.
  assert (Hcx : p_x (dCenter t) == baulkX t) by reflexivity.
  assert (Hcy : p_y (dCenter t) == r_y (surface t) + r_h (surface t) / 2)
    by reflexivity.
  unfold pointInD, pointInSurface, dist_le, dist2, sq, Qgtb, Qgeb. cbv zeta.
  clearbody t.
  assert (Hin : Qle_bool (r_x (surface t) + ballR t) (p_x (brown (spots t)))
                && Qle_bool (p_x (brown (spots t)))
                     (r_x (surface t) + r_w (surface t) - ballR t)
                && Qle_bool (r_y (surface t) + ballR t) (p_y (brown (spots t)))
                && Qle_bool (p_y (brown (spots t)))
                     (r_y (surface t) + r_h (surface t) - ballR t) = true).
  { rewrite !andb_true_iff, !Qle_bool_iff. qdiv. repeat split; lra. }
  rewrite Hin. cbn [negb].
  assert (Hb : Qltb (baulkX t) (p_x (brown (spots t))) = false)
    by (apply Qltb_ge; lra).
  rewrite Hb. rewrite andb_true_iff, !Qle_bool_iff. split.
  - qdiv. lra.
  - rewrite Hx, Hy, Hcx, Hcy.
    assert (H0 : 0 <= dRadius t * dRadius t) by nra.
    lra.
Qed.

(** X8: placing the cue ball is not subject to the overlap check of the
    layouts.  On every table with a positive ball diameter the brown spot
    is a point of the D, so after [setMode] a click there puts the cue
    ball exactly on the brown, and the balls on the table are no longer
    [2.05 * ballR] apart. *)
Theorem X8_cue_on_brown :
  forall (width height : Q) (s0 : State) (nextMode : Z) (g g' : Rng),
    table s0 = rebuildTableGeometry width height ->
    0 < ballD (table s0) ->
    let t := table s0 in
    let s := fst (setMode nextMode s0 g) in
    let bx := p_x (brown (spots t)) in
    let by_ := p_y (brown (spots t)) in
    let s' := fst (placeCueBall bx by_ s g') in
    pointInD t bx by_ = true /\
    (exists c b,
        cueBall s' = Some c /\ nth_error (colours s') 2 = Some b /\
        id b = IdName "brown" /\ centre c = centre b) /\
    ~ separated (ballR t * 2.05) (all_balls s').
Proof.
  intros width height s0 nextMode g g' Ht Hd t s bx by_ s'.
  assert (HinD : pointInD t bx by_ = true).
  { pose proof (brown_in_D width height) as H. cbv zeta in H.
    rewrite <- Ht in H. exact (H Hd). }
  split; [exact HinD|].
  destruct (setMode_balls nextMode s0 g) as (Htab & Hcue & Hcols & _).
  fold s t in Htab, Hcue, Hcols.
  set (c0 := mkBall (IdBall (Qfloor (u01 (g' 0%nat) * 1000000000))) "#f5f5f5"
               (mkBody (mkPoint bx by_) (mkPoint 0 0) [] true)
               (ballR t) true false false).
  assert (E : s' = set_cueBall (Some c0) s).
  { unfold s', placeCueBall. rewrite Hcue, Htab, HinD. reflexivity. }
  set (b0 := mkBall (IdName "brown") "#8e5a2b"
               (mkBody (mkPoint bx by_) (mkPoint 0 0) [] true)
               (ballR t) false false false).
  assert (Hb0 : nth_error (colours s) 2 = Some b0) by (rewrite Hcols; reflexivity).
  split.
  - exists c0, b0. rewrite E. cbn [cueBall colours set_cueBall].
    repeat split; assumption || reflexivity.
  - intros Hsep. rewrite E in Hsep.
    unfold all_balls, with_cue in Hsep. cbn [reds colours cueBall set_cueBall] in Hsep.
    assert (Hin_b : In b0 ((reds s ++ colours s) ++ [c0])).
    { apply nth_error_In in Hb0. rewrite !in_app_iff. tauto. }
    assert (Hin_c : In c0 ((reds s ++ colours s) ++ [c0])).
    { rewrite !in_app_iff. cbn. tauto. }
    assert (Hm : 0 < ballR t * 2.05).
    { assert (Hr : ballR t == ballD t / 2)
        by (unfold t; rewrite Ht; reflexivity).
      fold t in Hd. qdiv. lra. }
    assert (Hno : forall a b, centre a = mkPoint bx by_ ->
                              centre b = mkPoint bx by_ ->
                              ~ apart (ballR t * 2.05) a b).
    { intros a b Ha Hb. unfold apart, dist_ge, dist2, sq. rewrite Ha, Hb.
      cbn [p_x p_y]. intros [H|H]; [lra | nra]. }
    destruct (ForallOrdPairs_In Hsep b0 c0 Hin_b Hin_c) as [Heq|[H|H]].
    + discriminate Heq.
    + exact (Hno b0 c0 eq_refl eq_refl H).
    + exact (Hno c0 b0 eq_refl eq_refl H).
Qed.

(** The standard layout on the 1280 by 720 canvas. *)
Lemma X8_cue_on_brown_witness :
  let t := rebuildTableGeometry 1280 720 in
  let s := fst (setMode 1 (initialState t) rngZero) in
  let s' := fst (placeCueBall (p_x (brown (spots t))) (p_y (brown (spots t)))
                   s rngZero) in
  ~ separated (ballR t * 2.05) (all_balls s').
Proof.
  apply (X8_cue_on_brown 1280 720
           (initialState (rebuildTableGeometry 1280 720)) 1 rngZero rngZero
           eq_refl).
  vm_compute. reflexivity.
Defined.

(** ** The ray against the cushions *)

(** X9: [rayRectHit] returns nothing exactly when no wall crossing is
    acceptable; otherwise it returns an acceptable crossing whose
    parameter is least among all acceptable ones. *)
Theorem X9_rayRectHit_earliest :
  forall ox oy dx dy minX minY maxX maxY : Q,
    let cands := wallCandidates ox oy dx dy minX minY maxX maxY in
    match rayRectHit ox oy dx dy minX minY maxX maxY with
    | None => cands = []
    | Some wh =>
        In wh cands /\ Forall (fun c => wh_t wh <= wh_t c) cands
    end.
Proof.
  intros ox oy dx dy minX minY maxX maxY.
  unfold wallCandidates, rayRectHit, crossX, crossY, lt_best. cbv zeta.
  cbn [filter wh_t wh_x wh_y].
  set (tx1 := (minX - ox) / dx). set (tx2 := (maxX - ox) / dx).
  set (ty1 := (minY - oy) / dy). set (ty2 := (maxY - oy) / dy).
  destruct (Qgtb (Qabs dx) 0.000001);
    destruct (Qgtb (Qabs dy) 0.000001);
    repeat match goal with
           | |- context [Qgtb ?t 0.0001 && ?a && ?b] =>
               let E := fresh "E" in
               destruct (Qgtb t 0.0001 && a && b) eqn:E; cbn [andb]
           end;
    repeat match goal with
           | |- context [Qltb ?a ?b] =>
               let E := fresh "L" in
               destruct (Qltb a b) eqn:E;
               [apply Qltb_lt in E | apply Qltb_ge in E]
           end;
    cbn [app In];
    try reflexivity;
    (split; [tauto | repeat constructor; cbn [wh_t]; lra]).
Qed.

Lemma Qabs_gt_nonzero (d e : Q) : 0 <= e -> Qgtb (Qabs d) e = true -> ~ d == 0.
Proof.
  intros He H Hd. apply Qgtb_gt in H. rewrite Hd in H.
  change (Qabs 0) with 0 in H. lra.
Qed.

(** An acceptable crossing lies on the ray, on a wall and within its
    extent; its normal is the outward normal of that wall. *)
Lemma wallCandidates_sound (ox oy dx dy minX minY maxX maxY : Q) (wh : WallHit) :
  In wh (wallCandidates ox oy dx dy minX minY maxX maxY) ->
  0.0001 < wh_t wh /\
  wh_x wh == ox + wh_t wh * dx /\
  wh_y wh == oy + wh_t wh * dy /\
  (((wh_x wh = minX /\ wh_n wh = mkPoint (-1) 0) \/
    (wh_x wh = maxX /\ wh_n wh = mkPoint 1 0)) /\
   minY <= wh_y wh <= maxY /\ ~ dx == 0
   \/
   ((wh_y wh = minY /\ wh_n wh = mkPoint 0 (-1)) \/
    (wh_y wh = maxY /\ wh_n wh = mkPoint 0 1)) /\
   minX <= wh_x wh <= maxX /\ ~ dy == 0).
Proof.
  unfold wallCandidates. rewrite in_app_iff.
  intros [H|H].
  - destruct (Qgtb (Qabs dx) 0.000001) eqn:Hd; [|destruct H].
    apply Qabs_gt_nonzero in Hd; [|vm_compute; discriminate].
    apply filter_In in H. destruct H as [Hin Hok].
    rewrite !andb_true_iff in Hok. destruct Hok as [[Ht Hlo] Hhi].
    apply Qgtb_gt in Ht. apply Qgeb_ge in Hlo. apply Qle_bool_iff in Hhi.
    destruct Hin as [<-|[<-|[]]]; unfold crossX in *;
      cbn [wh_t wh_x wh_y wh_n] in *;
      (split; [exact Ht|]); (split; [field; exact Hd|]);
      (split; [reflexivity|]); left; repeat split; auto.
  - destruct (Qgtb (Qabs dy) 0.000001) eqn:Hd; [|destruct H].
    apply Qabs_gt_nonzero in Hd; [|vm_compute; discriminate].
    apply filter_In in H. destruct H as [Hin Hok].
    rewrite !andb_true_iff in Hok. destruct Hok as [[Ht Hlo] Hhi].
    apply Qgtb_gt in Ht. apply Qgeb_ge in Hlo. apply Qle_bool_iff in Hhi.
    destruct Hin as [<-|[<-|[]]]; unfold crossY in *;
      cbn [wh_t wh_x wh_y wh_n] in *;
      (split; [exact Ht|]); (split; [reflexivity|]);
      (split; [field; exact Hd|]); right; repeat split; auto.
Qed.

Lemma rayRectHit_candidate (ox oy dx dy minX minY maxX maxY : Q) (wh : WallHit) :
  rayRectHit ox oy dx dy minX minY maxX maxY = Some wh ->
  In wh (wallCandidates ox oy dx dy minX minY maxX maxY).
Proof.
  unfold wallCandidates, rayRectHit, crossX, crossY. cbv zeta.
  cbn [filter wh_t wh_x wh_y].
  destruct (Qgtb (Qabs dx) 0.000001);
    destruct (Qgtb (Qabs dy) 0.000001);
    repeat match goal with
           | |- context [Qgtb ?t 0.0001 && ?a && ?b] =>
               let E := fresh "E" in
               destruct (Qgtb t 0.0001 && a && b) eqn:E; cbn [andb]
           end;
    repeat match goal with
           | |- context [lt_best ?a ?b] => destruct (lt_best a b)
           end;
    intros H; inversion H; subst; cbn [app In]; tauto.
Qed.

(** A positive multiple of [d] that is not positive, [d] not being zero,
    means [d] is negative. *)
Lemma neg_of_product (t d : Q) : 0 < t -> ~ d == 0 -> t * d <= 0 -> d < 0.
Proof.
  intros Ht Hd H. destruct (Qlt_le_dec d 0) as [Hn|Hp]; [exact Hn|].
  exfalso. apply Hd. nra.
Qed.

Lemma pos_of_product (t d : Q) : 0 < t -> ~ d == 0 -> 0 <= t * d -> 0 < d.
Proof.
  intros Ht Hd H. destruct (Qlt_le_dec 0 d) as [Hp|Hn]; [exact Hp|].
  exfalso. apply Hd. nra.
Qed.

(** X10: the wall hit [rayRectHit] returns is the point of the ray at the
    returned parameter, which exceeds [0.0001]; it lies on one of the four
    walls, within the extent of that wall, and carries the outward normal
    of that wall.  When the ray starts inside the rectangle it crosses the
    wall outwards, so the reflected direction points back inside. *)
Theorem X10_rayRectHit_sound :
  forall (ox oy dx dy minX minY maxX maxY : Q) (wh : WallHit),
    rayRectHit ox oy dx dy minX minY maxX maxY = Some wh ->
    0.0001 < wh_t wh /\
    wh_x wh == ox + wh_t wh * dx /\
    wh_y wh == oy + wh_t wh * dy /\
    (((wh_x wh = minX /\ wh_n wh = mkPoint (-1) 0) \/
      (wh_x wh = maxX /\ wh_n wh = mkPoint 1 0)) /\
     minY <= wh_y wh <= maxY /\ ~ dx == 0
     \/
     ((wh_y wh = minY /\ wh_n wh = mkPoint 0 (-1)) \/
      (wh_y wh = maxY /\ wh_n wh = mkPoint 0 1)) /\
     minX <= wh_x wh <= maxX /\ ~ dy == 0) /\
    (minX <= ox <= maxX -> minY <= oy <= maxY ->
     0 < dot dx dy (wh_n wh) /\
     let d' := reflect dx dy (wh_n wh) in
     dot (p_x d') (p_y d') (wh_n wh) < 0).
Proof.
  intros ox oy dx dy minX minY maxX maxY wh Hhit.
  apply rayRectHit_candidate, wallCandidates_sound in Hhit.
  destruct Hhit as (Ht & Hx & Hy & Hwall).
  repeat (split; [assumption|]).
  intros Hox Hoy.
  assert (Ht0 : 0 < wh_t wh) by lra.
  assert (Hout : 0 < dot dx dy (wh_n wh)).
  { unfold dot.
    destruct Hwall as [[[[Hw Hn]|[Hw Hn]] [_ Hd]]|[[[Hw Hn]|[Hw Hn]] [_ Hd]]];
      rewrite Hn; cbn [p_x p_y]; rewrite Hw in *.
    - assert (dx < 0) by (apply (neg_of_product (wh_t wh)); auto; lra). lra.
    - assert (0 < dx) by (apply (pos_of_product (wh_t wh)); auto; lra). lra.
    - assert (dy < 0) by (apply (neg_of_product (wh_t wh)); auto; lra). lra.
    - assert (0 < dy) by (apply (pos_of_product (wh_t wh)); auto; lra). lra. }
  split; [exact Hout|].
  cbv zeta. unfold dot, reflect in *.
  destruct Hwall as [[[[_ Hn]|[_ Hn]] _]|[[[_ Hn]|[_ Hn]] _]];
    rewrite Hn in *; cbn [p_x p_y] in *; lra.
Qed.

(** A ray from the centre of a 20 by 20 box towards (3/5, 4/5). *)
Lemma X10_rayRectHit_sound_witness :
  exists wh,
    rayRectHit 0 0 (3 # 5) (4 # 5) (-10) (-10) 10 10 = Some wh /\
    wh_y wh = 10 /\ 0.0001 < wh_t wh /\
    0 < dot (3 # 5) (4 # 5) (wh_n wh).
Proof.
  eexists. split; [reflexivity|].
  destruct (X10_rayRectHit_sound 0 0 (3 # 5) (4 # 5) (-10) (-10) 10 10 _ eq_refl)
    as (Ht & _ & _ & _ & Hin).
  split; [reflexivity|]. split; [exact Ht|].
  apply Hin; split; vm_compute; discriminate.
Defined.

(** X11: reflecting about the normal of a wall hit keeps the squared
    length of the direction, so a unit direction stays a unit direction
    from bounce to bounce, and reflecting twice about the same wall gives
    the direction back. *)
Theorem X11_reflect_isometry :
  forall (ox oy dx dy minX minY maxX maxY : Q) (wh : WallHit),
    rayRectHit ox oy dx dy minX minY maxX maxY = Some wh ->
    let d' := reflect dx dy (wh_n wh) in
    let d'' := reflect (p_x d') (p_y d') (wh_n wh) in
    sq (p_x d') + sq (p_y d') == sq dx + sq dy /\
    p_x d'' == dx /\ p_y d'' == dy.
Proof.
  intros ox oy dx dy minX minY maxX maxY wh Hhit.
  pose proof (rayRectHit_normal _ _ _ _ _ _ _ _ _ Hhit) as Hin.
  unfold unitNormals in Hin. cbn [In] in Hin.
  cbv zeta. unfold reflect, sq.
  destruct Hin as [E|[E|[E|[E|[]]]]]; rewrite <- E; cbn [p_x p_y];
    repeat split; ring.
Qed.

Lemma X11_reflect_isometry_witness :
  let d' := reflect (3 # 5) (4 # 5) (mkPoint 0 1) in
  sq (p_x d') + sq (p_y d') == sq (3 # 5) + sq (4 # 5).
Proof.
  apply (X11_reflect_isometry 0 0 (3 # 5) (4 # 5) (-10) (-10) 10 10
           (mkWallHit ((10 - 0) / (4 # 5)) (0 + (10 - 0) / (4 # 5) * (3 # 5)) 10
                      (mkPoint 0 1))).
  reflexivity.
Defined.

(** ** The ray against a ball *)

Section Circle.
Context {math : P5Math}.

(** X12: [rayCircleHit] returns nothing when the discriminant is negative;
    a parameter it returns exceeds [0.0001] and is the smaller root of the
    quadratic unless that one is at most [0.0001], in which case it is the
    larger.  Where [sqrt] is exact on the discriminant and the direction is
    not zero, the returned point of the ray is at distance [radius] from
    the centre. *)
Theorem X12_rayCircleHit :
  forall ox oy dx dy cx cy radius : Q,
    let fx := ox - cx in
    let fy := oy - cy in
    let a := dx * dx + dy * dy in
    let b := 2 * (fx * dx + fy * dy) in
    let c := fx * fx + fy * fy - radius * radius in
    let disc := b * b - 4 * a * c in
    let t1 := (- b - sqrt disc) / (2 * a) in
    let t2 := (- b + sqrt disc) / (2 * a) in
    (disc < 0 -> rayCircleHit ox oy dx dy cx cy radius = None) /\
    (forall t,
        rayCircleHit ox oy dx dy cx cy radius = Some t ->
        0 <= disc /\ 0.0001 < t /\
        (t = t1 \/ (t1 <= 0.0001 /\ t = t2)) /\
        (~ a == 0 -> sqrt disc * sqrt disc == disc ->
         dist2 (ox + t * dx) (oy + t * dy) cx cy == sq radius)).
Proof.
  intros ox oy dx dy cx cy radius fx fy a b c disc t1 t2.
  unfold rayCircleHit. cbv zeta.
  fold fx fy. fold a. fold b. fold c. fold disc. fold t1 t2.
  split.
  - intros Hneg. apply Qltb_lt in Hneg. rewrite Hneg. reflexivity.
  - intros t. destruct (Qltb disc 0) eqn:Hd; [discriminate|].
    apply Qltb_ge in Hd. unfold Qgtb.
    assert (Hroot : forall sgn : Q,
               sgn * sgn == 1 -> ~ a == 0 -> sqrt disc * sqrt disc == disc ->
               let u := (- b + sgn * sqrt disc) / (2 * a) in
               dist2 (ox + u * dx) (oy + u * dy) cx cy == sq radius).
    { intros sgn Hsgn Ha Hs u.
      assert (Hq : a * (u * u) + b * u + c == 0).
      { unfold u. transitivity
          ((sgn * sgn * (sqrt disc * sqrt disc) - (b * b - 4 * a * c)) / (4 * a)).
        - field. exact Ha.
        - rewrite Hsgn, Hs. unfold disc. field. exact Ha. }
      unfold dist2, sq.
      transitivity (a * (u * u) + b * u + c + radius * radius).
      - unfold a, b, c, fx, fy. ring.
      - rewrite Hq. ring. }
    destruct (Qltb 0.0001 t1) eqn:H1.
    + intros E. inversion E; subst t. apply Qltb_lt in H1.
      split; [exact Hd|]. split; [exact H1|]. split; [left; reflexivity|].
      intros Ha Hs. pose proof (Hroot (-1) ltac:(ring) Ha Hs) as Hr.
      cbv zeta in Hr.
      assert (Et : t1 == (- b + -1 * sqrt disc) / (2 * a))
        by (unfold t1; field; intros H2; apply Ha; lra).
      unfold dist2, sq in *. rewrite Et. exact Hr.
    + apply Qltb_ge in H1.
      destruct (Qltb 0.0001 t2) eqn:H2; [|discriminate].
      intros E. inversion E; subst t. apply Qltb_lt in H2.
      split; [exact Hd|]. split; [exact H2|].
      split; [right; split; [exact H1|reflexivity]|].
      intros Ha Hs. pose proof (Hroot 1 ltac:(ring) Ha Hs) as Hr.
      cbv zeta in Hr.
      assert (Et : t2 == (- b + 1 * sqrt disc) / (2 * a))
        by (unfold t2; field; intros H3; apply Ha; lra).
      unfold dist2, sq in *. rewrite Et. exact Hr.
Qed.

End Circle.

(** A ray along x from the origin meets the circle of radius 1/2 about
    (5, 0) at [t = 4.5]. *)
Lemma X12_rayCircleHit_witness :
  exists t : Q,
    @rayCircleHit mathAtZero 0 0 1 0 5 0 (1 # 2) = Some t /\
    dist2 (0 + t * 1) (0 + t * 0) 5 0 == sq (1 # 2).
Proof.
  destruct (@rayCircleHit mathAtZero 0 0 1 0 5 0 (1 # 2)) as [t|] eqn:E;
    [|vm_compute in E; discriminate].
  exists t. split; [reflexivity|].
  destruct (@X12_rayCircleHit mathAtZero 0 0 1 0 5 0 (1 # 2)) as (_ & Hsome).
  destruct (Hsome t E) as (_ & _ & _ & Hon).
  apply Hon; vm_compute; [discriminate | reflexivity].
Defined.

(** ** The predicted path *)

Section Path.
Context {math : P5Math}.

Lemma nearestBall_in (targets : list Ball) (r ox oy dx dy : Q) (b : Ball) :
  snd (nearestBall targets r ox oy dx dy) = Some b ->
  In b targets /\
  exists t, fst (nearestBall targets r ox oy dx dy) = Some t /\ 0 < t /\
            rayCircleHit ox oy dx dy (p_x (position (body b)))
              (p_y (position (body b))) (r + b_r b) = Some t.
Proof.
  unfold nearestBall.
  set (f := fun (acc : option Q * option Ball) b => _).
  assert (Hgen : forall l acc,
             (forall b, snd acc = Some b ->
                In b targets /\
                exists t, fst acc = Some t /\ 0 < t /\
                  rayCircleHit ox oy dx dy (p_x (position (body b)))
                    (p_y (position (body b))) (r + b_r b) = Some t) ->
             incl l targets ->
             forall b, snd (fold_left f l acc) = Some b ->
                In b targets /\
                exists t, fst (fold_left f l acc) = Some t /\ 0 < t /\
                  rayCircleHit ox oy dx dy (p_x (position (body b)))
                    (p_y (position (body b))) (r + b_r b) = Some t).
  { induction l as [|x l IH]; intros acc Hacc Hincl b0; cbn [fold_left].
    - apply Hacc.
    - apply IH.
      + intros b1. unfold f. destruct acc as [bt bb].
        destruct (rayCircleHit ox oy dx dy _ _ _) as [t|] eqn:Hx;
          [|apply Hacc].
        destruct (Qgtb t 0 && lt_best t bt) eqn:Hc; [|apply Hacc].
        cbn [snd fst]. intros E. inversion E; subst b1.
        apply andb_true_iff in Hc. destruct Hc as [Hpos _].
        apply Qgtb_gt in Hpos.
        split; [apply Hincl; left; reflexivity|].
        exists t. auto.
      + intros y Hy. apply Hincl. right. exact Hy. }
  apply Hgen.
  - cbn. discriminate.
  - apply incl_refl.
Qed.

Lemma predictLoop_path (bounces : list nat) :
  forall targets r minX minY maxX maxY ox oy dx dy pts,
    let p := predictLoop bounces targets r minX minY maxX maxY
               ox oy dx dy pts in
    exists ws tl : list Point,
      points p = pts ++ ws ++ tl /\
      Forall (onWall minX minY maxX maxY) ws /\
      (List.length ws <= List.length bounces)%nat /\
      match hitBall p with
      | None => tl = [] /\ hitPoint p = None
      | Some b => In b targets /\ exists pt, tl = [pt] /\ hitPoint p = Some pt
      end.
Proof.
  induction bounces as [|b rest IH]; intros; subst p; cbn [predictLoop].
  - exists [], []. cbn. rewrite app_nil_r.
    split; [reflexivity|]. split; [constructor|]. split; [lia|]. split; reflexivity.
  - destruct (nearestBall targets r ox oy dx dy) as [bestBallT bestBall] eqn:Hn.
    destruct (ballFirst bestBallT bestBall _) eqn:Hf.
    + unfold ballFirst in Hf.
      destruct bestBall as [hb|]; [|discriminate].
      exists [], [mkPoint (ox + dx * match bestBallT with Some t => t | None => 0 end)
                          (oy + dy * match bestBallT with Some t => t | None => 0 end)].
      cbn [points hitBall hitPoint app List.length].
      split; [reflexivity|]. split; [constructor|]. split; [lia|].
      split.
      * apply (nearestBall_in targets r ox oy dx dy). rewrite Hn. reflexivity.
      * eexists. split; reflexivity.
    + destruct (rayRectHit ox oy dx dy minX minY maxX maxY) as [wh|] eqn:Hw.
      * destruct (IH targets r minX minY maxX maxY
                    (wh_x wh + p_x (reflect dx dy (wh_n wh)) * 0.5)
                    (wh_y wh + p_y (reflect dx dy (wh_n wh)) * 0.5)
                    (p_x (reflect dx dy (wh_n wh)))
                    (p_y (reflect dx dy (wh_n wh)))
                    (pts ++ [mkPoint (wh_x wh) (wh_y wh)]))
          as (ws & tl & Hp & Hws & Hlen & Hhit).
        cbv zeta in Hp, Hhit.
        exists (mkPoint (wh_x wh) (wh_y wh) :: ws), tl.
        split; [rewrite Hp, <- app_assoc; reflexivity|].
        split.
        { constructor; [|exact Hws].
          apply rayRectHit_candidate, wallCandidates_sound in Hw.
          destruct Hw as (_ & _ & _ & [([[Hx _]|[Hx _]] & Hy & _)
                                      |([[Hy _]|[Hy _]] & Hx & _)]);
            unfold onWall; cbn [p_x p_y]; tauto. }
        split; [cbn [List.length]; lia|].
        exact Hhit.
      * exists [], []. cbn. rewrite app_nil_r.
    split; [reflexivity|]. split; [constructor|]. split; [lia|]. split; reflexivity.
Qed.

(** X13: the path the predictor draws starts at the cue position clamped
    into the rectangle of ball centres; every following vertex, except a
    final one, lies on the boundary of that rectangle.  The path ends on a
    ball exactly when [hitBall] is set: that ball is then a red or a colour
    still on the table, and the last vertex is [hitPoint]. *)
Theorem X13_predicted_path :
  forall (s : State) (startX startY angle : Q),
    let sf := surface (table s) in
    let r := ballR (table s) in
    let minX := r_x sf + r in
    let maxX := r_x sf + r_w sf - r in
    let minY := r_y sf + r in
    let maxY := r_y sf + r_h sf - r in
    let p := drawTrajectoryPredictor startX startY angle s in
    exists ws tl : list Point,
      points p
      = mkPoint (constrain startX minX maxX) (constrain startY minY maxY)
          :: ws ++ tl /\
      Forall (onWall minX minY maxX maxY) ws /\
      (List.length ws <= S (maxBounces (predictor s)))%nat /\
      match hitBall p with
      | None => tl = [] /\ hitPoint p = None
      | Some b =>
          In b (reds s ++ colours s) /\ potted b = false /\
          exists pt, tl = [pt] /\ hitPoint p = Some pt
      end.
Proof.
  intros s startX startY angle sf r minX maxX minY maxY p.
  unfold p, drawTrajectoryPredictor. cbv zeta.
  fold sf. fold r. fold minX maxX minY maxY.
  match goal with
  | |- context [predictLoop ?bs ?ts r minX minY maxX maxY ?ox ?oy ?dx ?dy ?pts] =>
      destruct (predictLoop_path bs ts r minX minY maxX maxY ox oy dx dy pts)
        as (ws & tl & Hp & Hws & Hlen & Hhit)
  end.
  cbv zeta in Hp, Hhit. rewrite length_seq in Hlen.
  exists ws, tl.
  split; [exact Hp|]. split; [exact Hws|]. split; [exact Hlen|].
  destruct (hitBall _) as [b|]; [|exact Hhit].
  destruct Hhit as (Hin & Hpt).
  apply filter_In in Hin. destruct Hin as [Hin Hnp].
  apply negb_true_iff in Hnp. auto.
Qed.

End Path.

(** ** What the handlers preserve *)

(** The state [setMode] builds: fresh balls, no cue ball, and every
    variable of the frame and of the shot reset. *)
Lemma setMode_shape (nextMode : Z) (s : State) (g : Rng) :
  exists rs cols,
    fst (setMode nextMode s g)
    = mkState (table s) (pockets s) rs cols None nextMode
        0 0.35 [] [] false "" (predictor s) 0 false [] false [].
Proof.
  unfold setMode, bind at 1.
  destruct (createColouredBalls (table s) g) as [c g'].
  unfold bind at 1.
  match goal with
  | |- context [let (a, g'') := ?m g' in _] => destruct (m g') as [r g2]
  end.
  exists r, c. reflexivity.
Qed.

Section Reactions.
Context {math : P5Math}.
Variable atan2 : Q -> Q -> Q.
Variable P : State -> Prop.
Hypothesis P_setMode :
  forall n s g,
    P s -> (n = 1 \/ n = 2 \/ n = 3 \/ n = mode s)%Z ->
    P (fst (setMode n s g)).
Hypothesis P_tryShoot : forall s, P s -> P (tryShoot s).
Hypothesis P_predictor : forall v s, P s -> P (set_predictor v s).
Hypothesis P_aim :
  forall a p s, P s -> p = aimPower s \/ 0 <= p <= 1 -> P (set_aim a p s).
Hypothesis P_place : forall x y s g, P s -> P (fst (placeCueBall x y s g)).
Hypothesis P_frame : forall ph s, P s -> P (frame ph s).
Hypothesis P_anim : forall s, P s -> P (drawAnimations s).

Lemma keyPressed_inv (key : string) (keyCode : Z) (sk : Sketch) (g : Rng) :
  P (game sk) -> P (game (fst (keyPressed key keyCode sk g))).
Proof.
  intros H0. unfold keyPressed.
  assert (Hcond : forall (c : bool) (m : M State) (s : State) (g0 : Rng),
             P s -> (forall g1, P (fst (m g1))) ->
             P (fst ((if c then m else ret s) g0))).
  { intros c m s g0 Hs Hm. destruct c; [apply Hm | exact Hs]. }
  unfold bind at 1.
  pose proof (Hcond (String.eqb key "1") (setMode 1 (game sk)) (game sk) g H0
                (fun g' => P_setMode 1%Z (game sk) g' H0 (or_introl eq_refl)))
    as H1.
  match type of H1 with P (fst (?m ?r)) => destruct (m r) as [g1 r1] end.
  cbn [fst] in H1.
  unfold bind at 1.
  pose proof (Hcond (String.eqb key "2") (setMode 2 g1) g1 r1 H1
                (fun g' => P_setMode 2%Z g1 g' H1
                             (or_intror (or_introl eq_refl)))) as H2.
  match type of H2 with P (fst (?m ?r)) => destruct (m r) as [g2 r2] end.
  cbn [fst] in H2.
  unfold bind at 1.
  pose proof (Hcond (String.eqb key "3") (setMode 3 g2) g2 r2 H2
                (fun g' => P_setMode 3%Z g2 g' H2
                             (or_intror (or_intror (or_introl eq_refl))))) as H3.
  match type of H3 with P (fst (?m ?r)) => destruct (m r) as [g3 r3] end.
  cbn [fst] in H3.
  cbv zeta.
  set (g4 := if String.eqb key "t" || String.eqb key "T" then _ else g3).
  assert (H4 : P g4) by (unfold g4; break_ifs; auto).
  clearbody g4.
  unfold bind at 1.
  pose proof (Hcond ((keyCode =? ENTER)%Z || String.eqb key "n" || String.eqb key "N")
                (resetTable g4) g4 r3 H4
                (fun g' => P_setMode (mode g4) g4 g' H4
                             (or_intror (or_intror (or_intror eq_refl)))))
    as H5.
  match type of H5 with P (fst (?m ?r)) => destruct (m r) as [g5 r5] end.
  cbn [fst] in H5.
  unfold ret. cbn [fst game].
  break_ifs; auto.
Qed.

Lemma mousePressed_inv (ui : Ui) (x y : Q) (sk : Sketch) (g : Rng) :
  P (game sk) -> P (game (fst (mousePressed ui x y sk g))).
Proof.
  intros H0. unfold mousePressed. cbv zeta.
  assert (Hreset : P (game (fst ((g' <- resetTable (game sk) ;;
                                  ret (set_game g' sk)) g)))).
  { unfold bind, ret.
    pose proof (P_setMode (mode (game sk)) (game sk) g H0
                  (or_intror (or_intror (or_intror eq_refl)))) as H.
    unfold resetTable. destruct (setMode _ _ g) as [s1 r1]. exact H. }
  destruct (onButton (noticeResetRect ui) x y); [exact Hreset|].
  destruct (onButton (resetRect ui) x y); [exact Hreset|].
  destruct (gameOver (game sk)); [exact Hreset|].
  destruct (cueBall (game sk)) as [cue|].
  - break_ifs; exact H0.
  - unfold bind, ret. pose proof (P_place x y (game sk) g H0) as H.
    destruct (placeCueBall x y (game sk) g) as [s1 r1]. exact H.
Qed.

Lemma react_inv (i : Input) (sk : Sketch) :
  P (game sk) -> P (game (react atan2 i sk)).
Proof.
  intros H0. destruct i as [key keyCode g|ui x y g|x y| |ph x y keys];
    cbn [react].
  - apply keyPressed_inv, H0.
  - apply mousePressed_inv, H0.
  - unfold mouseDragged. cbv zeta.
    destruct (gameOver (game sk)); [exact H0|].
    destruct (cueBall (game sk)); [|exact H0].
    destruct (dragPower sk); [|exact H0].
    destruct (negb (isAiming sk)); [exact H0|].
    cbn [game]. apply P_aim; [exact H0|].
    right. apply constrain_bounds. lra.
  - unfold mouseReleased. break_ifs; cbn [game]; auto.
  - unfold drawSketch, set_game. cbn [game].
    apply P_anim. unfold drawCueAndGuides.
    pose proof (P_frame ph (game sk) H0) as H1.
    destruct (gameOver (frame ph (game sk))); [exact H1|].
    destruct (cueBall (frame ph (game sk))); [|exact H1].
    destruct (isCueBallResting _ && negb _); [|exact H1].
    cbv zeta. apply P_aim; [exact H1|].
    destruct (keys 87%Z), (keys 83%Z);
      try (right; apply constrain_bounds; lra).
    left. reflexivity.
Qed.

Lemma reactAll_inv (ins : list Input) :
  forall sk, P (game sk) -> P (game (reactAll atan2 ins sk)).
Proof.
  induction ins as [|i ins IH]; intros sk H0; [exact H0|].
  cbn [reactAll fold_left]. apply IH, react_inv, H0.
Qed.

Lemma reachable_inv (ins : list Input) (width height : Q) (g : Rng) :
  P (game (setupOn width height g)) ->
  P (game (reactAll atan2 ins (setupOn width height g))).
Proof. apply reactAll_inv. Qed.

End Reactions.

(** ** The shot counter and the log *)

Lemma FOP_snoc {A} (R : A -> A -> Prop) (l : list A) (e : A) :
  ForallOrdPairs R l -> Forall (fun a => R a e) l ->
  ForallOrdPairs R (l ++ [e]).
Proof.
  induction 1 as [|a l Ha Hl IH]; intros Hall; cbn.
  - repeat constructor.
  - inversion Hall; subst. constructor; [|apply IH; assumption].
    apply Forall_app. split; [assumption|]. constructor; [assumption|constructor].
Qed.

Lemma FOP_skipn {A} (R : A -> A -> Prop) (l : list A) :
  ForallOrdPairs R l -> forall n, ForallOrdPairs R (skipn n l).
Proof.
  induction 1 as [|a l Ha Hl IH]; intros [|n]; cbn;
    try constructor; auto.
Qed.

Lemma Forall_skipn_keeps {A} (R : A -> Prop) (l : list A) :
  Forall R l -> forall n, Forall R (skipn n l).
Proof.
  induction 1 as [|a l Ha Hl IH]; intros [|n]; cbn;
    try constructor; auto.
Qed.

Lemma capLog_length (log : list LogEntry) :
  (List.length log <= 61)%nat -> (List.length (capLog log) <= 60)%nat.
Proof.
  intros H. unfold capLog.
  destruct (60 <? List.length log)%nat eqn:E.
  - rewrite length_skipn. lia.
  - apply Nat.ltb_ge in E. exact E.
Qed.

(** A change that leaves the five shot variables alone keeps the books. *)
Lemma book_same (s s' : State) :
  shotsTaken s' = shotsTaken s -> shotInProgress s' = shotInProgress s ->
  shotLog s' = shotLog s -> shotPottedThisShot s' = shotPottedThisShot s ->
  shotFoulThisShot s' = shotFoulThisShot s ->
  shotBook s -> shotBook s'.
Proof.
  unfold shotBook. intros -> -> -> -> ->. auto.
Qed.

Lemma setMode_book (n : Z) (s : State) (g : Rng) :
  shotBook (fst (setMode n s g)).
Proof.
  destruct (setMode_shape n s g) as (rs & cols & ->).
  unfold shotBook. cbn.
  split; [lia|]. split; [lia|]. split; [constructor|]. split; [constructor|].
  split; [discriminate|auto].
Qed.

Lemma tryShoot_book {math : P5Math} (s : State) :
  shotBook s -> shotBook (tryShoot s).
Proof.
  intros Hb. unfold tryShoot.
  destruct (cueBall s) as [cue|]; [|exact Hb].
  destruct (negb (isCueBallResting s)); [exact Hb|].
  destruct (areAnyBallsMoving s); [exact Hb|].
  destruct Hb as (H0 & Hlen & Hord & Hall & Hopen & Hclosed).
  unfold shotBook. cbn.
  split; [lia|]. split; [exact Hlen|]. split; [exact Hord|].
  split; [eapply Forall_impl; [|exact Hall]; cbn; intros; lia|].
  split; [|discriminate].
  intros _. split; [lia|].
  eapply Forall_impl; [|exact Hall]. cbn. intros. lia.
Qed.

Lemma finalize_book (s : State) :
  shotBook s -> shotBook (finalizeShotIfSettled s).
Proof.
  intros Hb. unfold finalizeShotIfSettled.
  destruct (shotInProgress s) eqn:Ho; cbn [negb]; [|exact Hb].
  destruct (areAnyBallsMoving s); [exact Hb|].
  destruct Hb as (H0 & Hlen & Hord & Hall & Hopen & Hclosed).
  destruct (Hopen Ho) as [H1 Hlt].
  fold (capLog (shotLog s ++
                  [mkLogEntry (shotsTaken s)
                     (classify (shotFoulThisShot s) (shotPottedThisShot s))
                     (shotPottedThisShot s)])).
  set (e := mkLogEntry _ _ _).
  assert (Hord' : ForallOrdPairs (fun a b => (le_n a < le_n b)%Z)
                    (shotLog s ++ [e])) by (apply FOP_snoc; assumption).
  assert (Hall' : Forall (fun e0 => (1 <= le_n e0 <= shotsTaken s)%Z)
                    (shotLog s ++ [e])).
  { apply Forall_app. split; [exact Hall|]. repeat constructor; cbn; lia. }
  unfold shotBook. cbn.
  split; [exact H0|].
  split; [apply capLog_length; rewrite length_app; cbn; lia|].
  unfold capLog. destruct (60 <? _)%nat.
  - split; [apply FOP_skipn, Hord'|].
    split; [apply Forall_skipn_keeps, Hall'|].
    split; [discriminate|auto].
  - split; [exact Hord'|]. split; [exact Hall'|].
    split; [discriminate|auto].
Qed.

Lemma handlePotting_book (s : State) :
  shotBook s -> shotBook (handlePotting s).
Proof.
  intros Hb.
  destruct (handlePotting_spec s)
    as (_ & _ & _ & _ & Hn & Hi & Hl & Hf & Hps & _).
  destruct Hb as (H0 & Hlen & Hord & Hall & Hopen & Hclosed).
  unfold shotBook. rewrite Hn, Hi, Hl, Hf, Hps.
  split; [exact H0|]. split; [exact Hlen|]. split; [exact Hord|].
  split; [exact Hall|]. split; [exact Hopen|].
  intros Hc. rewrite Hc. cbn [andb]. rewrite app_nil_r, orb_false_r.
  apply Hclosed, Hc.
Qed.

Lemma frame_book (ph : Physics) (s : State) :
  shotBook s -> shotBook (frame ph s).
Proof.
  intros Hb. unfold frame. destruct (gameOver s); cbn [negb]; [exact Hb|].
  apply finalize_book, handlePotting_book.
  apply (book_same s); try reflexivity. exact Hb.
Qed.

Lemma placeCueBall_book (x y : Q) (s : State) (g : Rng) :
  shotBook s -> shotBook (fst (placeCueBall x y s g)).
Proof.
  destruct (placeCueBall_shot x y s g) as (Hi & Hn & Hl & Hf & Hps).
  apply book_same; assumption.
Qed.

(** X14: in every state the sketch can reach from [setup], whatever the
    keys, clicks, drags and frames, the shot log holds at most 60 entries;
    their shot numbers increase strictly along the log and lie between 1
    and [shotsTaken]; while a shot is in progress the counter is ahead of
    every logged number; and between shots the record of the current shot
    is empty. *)
Theorem X14_shot_log :
  forall (math : P5Math) (atan2 : Q -> Q -> Q) (ins : list Input)
         (width height : Q) (g : Rng),
    let s := game (reactAll atan2 ins (setupOn width height g)) in
    (0 <= shotsTaken s)%Z /\
    (List.length (shotLog s) <= 60)%nat /\
    ForallOrdPairs (fun a b => (le_n a < le_n b)%Z) (shotLog s) /\
    Forall (fun e => (1 <= le_n e <= shotsTaken s)%Z) (shotLog s) /\
    (shotInProgress s = true ->
     (1 <= shotsTaken s)%Z /\
     Forall (fun e => (le_n e < shotsTaken s)%Z) (shotLog s)) /\
    (shotInProgress s = false ->
     shotPottedThisShot s = [] /\ shotFoulThisShot s = false).
Proof.
  intros math atan2 ins width height g.
  apply (reachable_inv atan2 shotBook).
  - intros n s g0 _ _. apply setMode_book.
  - apply @tryShoot_book.
  - intros v s. apply book_same; reflexivity.
  - intros a p s Hb _. revert Hb. apply book_same; reflexivity.
  - apply placeCueBall_book.
  - apply frame_book.
  - intros s. apply book_same; reflexivity.
  - apply setMode_book.
Qed.

(** ** The balls of a layout *)

Lemma createBall_fresh (t : Table) (x y : Q) (c : string) (g : Rng) :
  freshBall t true (fst (createBall x y (ballR t) c redExtra g)) /\
  position (body (fst (createBall x y (ballR t) c redExtra g))) = mkPoint x y.
Proof.
  unfold freshBall, createBall, bind, ret, redExtra. cbn. repeat split.
Qed.

(** A loop whose body adds at most [k] elements adds at most [k] for each
    pass. *)
Lemma foldM_length {A B : Type} (k : nat) (f : list B -> A -> M (list B)) :
  (forall s a g, (List.length (fst (f s a g)) <= List.length s + k)%nat) ->
  forall l s g,
    (List.length (fst (foldM f l s g)) <= List.length s + k * List.length l)%nat.
Proof.
  intros Hstep. induction l as [|a l IH]; intros s g; cbn [foldM].
  - cbn. lia.
  - unfold bind. pose proof (Hstep s a g) as H1.
    destruct (f s a g) as [s' g']. cbn [fst] in H1.
    etransitivity; [apply IH|]. cbn [List.length]. lia.
Qed.

Lemma clusterAttempts_fresh (t : Table) (cols : list Ball)
    (clusters : list Cluster) (n : nat) :
  forall (lst : list Ball) (g : Rng),
    Forall (fun b => freshBall t true b /\ onSurface t b) lst ->
    forall res, res = fst (clusterAttempts t cols None clusters n lst g) ->
    Forall (fun b => freshBall t true b /\ onSurface t b) (fst res) /\
    (snd res = false -> fst res = lst) /\
    (List.length (fst res) <= List.length lst + 1)%nat.
Proof.
  induction n as [|n IH]; intros lst g Hinv res Hr;
    [cbn in Hr; subst res; cbn; split; [exact Hinv|split; [reflexivity|lia]]|].
  cbn [clusterAttempts] in Hr. unfold bind at 1 in Hr.
  destruct (random1 _ g) as [k g1]. unfold bind at 1 in Hr.
  destruct (random2 _ _ g1) as [x g2]. unfold bind at 1 in Hr.
  destruct (random2 _ _ g2) as [y g3].
  destruct (pointInSurface t x y (ballR t)) eqn:Hin; cbn [negb] in Hr;
    [|apply (IH lst g3 Hinv res Hr)].
  destruct (nonOverlapping x y (ballR t) lst cols None); cbn [negb] in Hr;
    [|apply (IH lst g3 Hinv res Hr)].
  unfold bind, ret in Hr.
  destruct (createBall_fresh t x y "#c1121f" g3) as [Hf Hp].
  destruct (createBall x y (ballR t) "#c1121f" redExtra g3) as [b g4].
  cbn [fst] in *. subst res. cbn [fst snd]. split; [|split].
  - apply Forall_app. split; [exact Hinv|].
    constructor; [|constructor]. split; [exact Hf|].
    unfold onSurface. rewrite Hp. exact Hin.
  - discriminate.
  - rewrite length_app. cbn. lia.
Qed.

Lemma clusterAttempts_adds (t : Table) (cols : list Ball)
    (clusters : list Cluster) (n : nat) (lst : list Ball) (g : Rng) :
  Forall (fun b => freshBall t true b /\ onSurface t b) lst ->
  Forall (fun b => freshBall t true b /\ onSurface t b)
    (fst (fst (clusterAttempts t cols None clusters n lst g))) /\
  (snd (fst (clusterAttempts t cols None clusters n lst g)) = false ->
   fst (fst (clusterAttempts t cols None clusters n lst g)) = lst) /\
  (List.length (fst (fst (clusterAttempts t cols None clusters n lst g)))
   <= List.length lst + 1)%nat.
Proof.
  intros Hinv. eapply clusterAttempts_fresh; [exact Hinv|reflexivity].
Qed.

(** A loop that keeps [P] and adds at most [k] elements a pass. *)
Lemma foldM_grow {A B : Type} (P : list B -> Prop) (k : nat)
    (f : list B -> A -> M (list B)) :
  (forall s a g, P s ->
     P (fst (f s a g)) /\ (List.length (fst (f s a g)) <= List.length s + k)%nat) ->
  forall l s g, P s ->
    P (fst (foldM f l s g)) /\
    (List.length (fst (foldM f l s g)) <= List.length s + k * List.length l)%nat.
Proof.
  intros Hstep. induction l as [|a l IH]; intros s g Hs; cbn [foldM].
  - cbn. split; [exact Hs|lia].
  - unfold bind. destruct (Hstep s a g Hs) as [H1 H2].
    destruct (f s a g) as [s' g']. cbn [fst] in H1, H2.
    destruct (IH s' g' H1) as [H3 H4]. split; [exact H3|].
    cbn [List.length]. lia.
Qed.

Lemma clustered_fresh (t : Table) (cols : list Ball) (g : Rng) :
  Forall (fun b => freshBall t true b /\ onSurface t b)
    (fst (createRedsClusteredRandom t cols None g)) /\
  (List.length (fst (createRedsClusteredRandom t cols None g)) <= 15)%nat.
Proof.
  remember (fst (createRedsClusteredRandom t cols None g)) as rs eqn:Hrs.
  unfold createRedsClusteredRandom in Hrs. cbv zeta in Hrs.
  unfold bind at 1 in Hrs.
  destruct (foldM _ (seq 0 3) [] g) as [clusters g0].
  match type of Hrs with context [foldM ?f (seq 0 15)] => set (F := f) in Hrs end.
  enough (Hstep : forall lst i g1,
             Forall (fun b => freshBall t true b /\ onSurface t b) lst ->
             Forall (fun b => freshBall t true b /\ onSurface t b)
               (fst (F lst i g1)) /\
             (List.length (fst (F lst i g1)) <= List.length lst + 1)%nat).
  { subst rs.
    exact (foldM_grow _ 1 F Hstep (seq 0 15) [] g0 (Forall_nil _)). }
  clear rs Hrs. intros lst i g1 Hinv.
  set (Pr := fun r : list Ball =>
               Forall (fun b => freshBall t true b /\ onSurface t b) r /\
               (List.length r <= List.length lst + 1)%nat).
  change (Pr (fst (F lst i g1))).
  unfold F. unfold bind at 1.
  pose proof (clusterAttempts_adds t cols clusters 300 lst g1 Hinv) as H1.
  destruct (clusterAttempts t cols None clusters 300 lst g1)
    as [[lst1 placed] g2].
  cbn [fst snd] in H1.
  destruct H1 as (H1 & Hsame & H2).
  destruct placed; cbn [negb]; [unfold Pr; cbn [ret fst]; auto|].
  pose proof (Hsame eq_refl) as Esame. subst lst1. clear Hsame.
  destruct (pointInSurface t _ _ (ballR t)) eqn:Hin; cbn [andb];
    [|unfold Pr; cbn [ret fst]; auto].
  destruct (nonOverlapping _ _ _ lst cols None);
    [|unfold Pr; cbn [ret fst]; auto].
  unfold bind, ret.
  match goal with
  | |- context [createBall ?x ?y _ ?c redExtra g2] =>
      destruct (createBall_fresh t x y c g2) as [Hf Hp];
      destruct (createBall x y (ballR t) c redExtra g2) as [b g3]
  end.
  cbn [fst] in *. unfold Pr. split.
  - apply Forall_app. split; [exact H1|].
    constructor; [|constructor]. split; [exact Hf|].
    unfold onSurface. rewrite Hp. exact Hin.
  - clear. rewrite length_app. cbn [List.length]. lia.
Qed.

Lemma practice_fresh (t : Table) (cols : list Ball) (g : Rng) :
  Forall (fun b => freshBall t true b /\ onSurface t b)
    (fst (createRedsPracticeLayout t cols None g)) /\
  (List.length (fst (createRedsPracticeLayout t cols None g)) <= 15)%nat.
Proof.
  unfold createRedsPracticeLayout. cbv zeta.
  match goal with |- context [foldM ?f (seq 0 3)] => set (F := f) end.
  enough (Hstep : forall lst row g1,
             Forall (fun b => freshBall t true b /\ onSurface t b) lst ->
             Forall (fun b => freshBall t true b /\ onSurface t b)
               (fst (F lst row g1)) /\
             (List.length (fst (F lst row g1)) <= List.length lst + 5)%nat).
  { exact (foldM_grow _ 5 F Hstep (seq 0 3) [] g (Forall_nil _)). }
  intros lst row g1 Hinv. unfold F.
  match goal with |- context [foldM ?f (seq 0 5)] => set (G := f) end.
  enough (Hcol : forall lst1 col g2,
             Forall (fun b => freshBall t true b /\ onSurface t b) lst1 ->
             Forall (fun b => freshBall t true b /\ onSurface t b)
               (fst (G lst1 col g2)) /\
             (List.length (fst (G lst1 col g2)) <= List.length lst1 + 1)%nat).
  { exact (foldM_grow _ 1 G Hcol (seq 0 5) lst g1 Hinv). }
  intros lst1 col g2 Hinv1.
  remember (fst (G lst1 col g2)) as r eqn:Hr. unfold G in Hr.
  destruct (pointInSurface t _ _ (ballR t)) eqn:Hin; cbn [andb] in Hr;
    [|cbn [ret fst] in Hr; subst r; split; [exact Hinv1|lia]].
  destruct (nonOverlapping _ _ _ lst1 cols None);
    [|cbn [ret fst] in Hr; subst r; split; [exact Hinv1|lia]].
  unfold bind, ret in Hr.
  match type of Hr with
  | context [createBall ?x ?y _ ?c redExtra g2] =>
      destruct (createBall_fresh t x y c g2) as [Hf Hp];
      destruct (createBall x y (ballR t) c redExtra g2) as [b g3]
  end.
  cbn [fst] in *. subst r. split.
  - apply Forall_app. split; [exact Hinv1|].
    constructor; [|constructor]. split; [exact Hf|].
    unfold onSurface. rewrite Hp. exact Hin.
  - clear. rewrite length_app. cbn [List.length]. lia.
Qed.

Lemma triangle_fresh (t : Table) (g : Rng) :
  Forall (freshBall t true) (fst (createRedsStandardTriangle t g)) /\
  List.length (fst (createRedsStandardTriangle t g)) = 15%nat.
Proof.
  split; [|reflexivity].
  cbv [createRedsStandardTriangle foldM seq bind ret createBall redExtra
       e_id e_isCue e_isRed random1 draw fst app].
  repeat constructor.
Qed.

Lemma colours_fresh (t : Table) (g : Rng) :
  let cols := fst (createColouredBalls t g) in
  Forall (freshBall t false) cols /\
  map id cols = [IdName "yellow"; IdName "green"; IdName "brown";
       IdName "blue"; IdName "pink"; IdName "black"] /\
  map centre cols
  = [yellow (spots t); green (spots t); brown (spots t);
     blue (spots t); pink (spots t); black (spots t)].
Proof.
  cbv [createColouredBalls bind ret createBall named e_id e_isCue e_isRed fst].
  cbn [map id centre body position].
  split; [repeat constructor|]. split; [reflexivity|].
  repeat f_equal; match goal with |- _ = ?p => destruct p; reflexivity end.
Qed.

(** Every ball [setMode] creates is as [createBall] leaves it. *)
Lemma setMode_fresh (nextMode : Z) (s : State) (g : Rng) :
  Forall (freshBall (table s) false) (colours (fst (setMode nextMode s g))) /\
  Forall (freshBall (table s) true) (reds (fst (setMode nextMode s g))).
Proof.
  destruct (setMode_balls nextMode s g) as (_ & _ & Hc & Hr).
  cbv zeta in Hc, Hr. rewrite Hc, Hr.
  destruct (colours_fresh (table s) g) as (Hcf & _).
  split; [exact Hcf|].
  destruct (nextMode =? 1)%Z; [apply triangle_fresh|].
  destruct (nextMode =? 2)%Z;
    [eapply Forall_impl; [|apply clustered_fresh]; cbn; tauto|].
  destruct (nextMode =? 3)%Z;
    [eapply Forall_impl; [|apply practice_fresh]; cbn; tauto|].
  constructor.
Qed.

(** X15: whatever the mode and the draws, [setMode] lays out the six
    colours on their spots, in the order yellow, green, brown, blue, pink,
    black, and at most fifteen reds (none for a mode other than 1, 2
    and 3); every ball it creates is live, at rest, in the world, of
    radius [ballR], with no force applied, and only the reds carry
    [isRed].  In modes 2 and 3 every red passed [pointInSurface] with a
    margin of one radius. *)
Theorem X15_layout_balls :
  forall (nextMode : Z) (s : State) (g : Rng),
    let t := table s in
    let s' := fst (setMode nextMode s g) in
    Forall (freshBall t false) (colours s') /\
    map id (colours s')
    = [IdName "yellow"; IdName "green"; IdName "brown";
       IdName "blue"; IdName "pink"; IdName "black"] /\
    map centre (colours s')
    = [yellow (spots t); green (spots t); brown (spots t);
       blue (spots t); pink (spots t); black (spots t)] /\
    Forall (freshBall t true) (reds s') /\
    (List.length (reds s') <= 15)%nat /\
    (nextMode = 2%Z \/ nextMode = 3%Z -> Forall (onSurface t) (reds s')) /\
    (nextMode <> 1%Z -> nextMode <> 2%Z -> nextMode <> 3%Z -> reds s' = []).
Proof.
  intros nextMode s g t s'.
  destruct (setMode_balls nextMode s g) as (_ & _ & Hc & Hr).
  fold s' in Hc, Hr. fold t in Hc, Hr. rewrite Hc, Hr.
  destruct (colours_fresh t g) as (Hcf & Hci & Hcc).
  split; [exact Hcf|]. split; [exact Hci|]. split; [exact Hcc|].
  set (cols := fst (createColouredBalls t g)).
  set (g1 := snd (createColouredBalls t g)).
  destruct (nextMode =? 1)%Z eqn:E1; [apply Z.eqb_eq in E1|apply Z.eqb_neq in E1].
  { destruct (triangle_fresh t g1) as [Hf Hl].
    split; [exact Hf|]. split; [rewrite Hl; lia|]. split; [lia|]. lia. }
  destruct (nextMode =? 2)%Z eqn:E2; [apply Z.eqb_eq in E2|apply Z.eqb_neq in E2].
  { destruct (clustered_fresh t cols g1) as [Hf Hl].
    split; [eapply Forall_impl; [|exact Hf]; cbn; tauto|].
    split; [exact Hl|].
    split; [intros _; eapply Forall_impl; [|exact Hf]; cbn; tauto|lia]. }
  destruct (nextMode =? 3)%Z eqn:E3; [apply Z.eqb_eq in E3|apply Z.eqb_neq in E3].
  { destruct (practice_fresh t cols g1) as [Hf Hl].
    split; [eapply Forall_impl; [|exact Hf]; cbn; tauto|].
    split; [exact Hl|].
    split; [intros _; eapply Forall_impl; [|exact Hf]; cbn; tauto|lia]. }
  cbn. split; [constructor|]. split; [lia|]. split; [lia|reflexivity].
Qed.

(** ** The forces handed to the engine *)

Lemma potBall_aim (ref : BallRef) (b : Ball) (p : Pocket) (s : State) :
  aimPower (potBall ref b p s) = aimPower s /\
  aimAngle (potBall ref b p s) = aimAngle s /\
  mode (potBall ref b p s) = mode s /\
  impactEffects (potBall ref b p s) = impactEffects s.
Proof.
  unfold potBall, store_ball. cbv zeta.
  destruct ref; [| |destruct (cueBall s)]; break_ifs; cbn; repeat split.
Qed.

Lemma potStepAt_aim (pr : Q) (s : State) (ref : BallRef) :
  aimPower (potStepAt pr s ref) = aimPower s /\
  aimAngle (potStepAt pr s ref) = aimAngle s /\
  mode (potStepAt pr s ref) = mode s /\
  impactEffects (potStepAt pr s ref) = impactEffects s.
Proof.
  unfold potStepAt, potStep.
  destruct (get_ball s ref) as [b|]; [|auto].
  destruct (potted b); [auto|].
  destruct (firstPocket _ _ _); [apply potBall_aim|auto].
Qed.

(** A scan leaves the aim, the mode and the impact effects alone. *)
Lemma handlePotting_aim (s : State) :
  aimPower (handlePotting s) = aimPower s /\
  aimAngle (handlePotting s) = aimAngle s /\
  mode (handlePotting s) = mode s /\
  impactEffects (handlePotting s) = impactEffects s.
Proof.
  assert (Hfold : forall refs s0,
             aimPower (fold_left (potStepAt (pocketR (table s) * 1.18)) refs s0)
             = aimPower s0 /\
             aimAngle (fold_left (potStepAt (pocketR (table s) * 1.18)) refs s0)
             = aimAngle s0 /\
             mode (fold_left (potStepAt (pocketR (table s) * 1.18)) refs s0)
             = mode s0 /\
             impactEffects (fold_left (potStepAt (pocketR (table s) * 1.18)) refs s0)
             = impactEffects s0).
  { induction refs as [|r refs IH]; intros s0; cbn [fold_left]; [auto|].
    destruct (IH (potStepAt (pocketR (table s) * 1.18) s0 r)) as (-> & -> & -> & ->).
    apply potStepAt_aim. }
  unfold handlePotting. cbv zeta.
  set (s1 := fold_left _ (map RedRef _) s).
  set (s2 := fold_left _ (map ColourRef _) s1).
  assert (H2 : aimPower s2 = aimPower s /\ aimAngle s2 = aimAngle s /\
               mode s2 = mode s /\ impactEffects s2 = impactEffects s).
  { unfold s2. destruct (Hfold (map ColourRef (seq 0 (List.length (colours s)))) s1)
      as (-> & -> & -> & ->). apply Hfold. }
  destruct H2 as (E1 & E2 & E3 & E4).
  destruct (cueBall s) as [c|]; [|auto].
  unfold potStep. destruct (potted c); [auto|].
  destruct (firstPocket _ _ _); [|auto].
  destruct (potBall_aim CueRef c p s2) as (-> & -> & -> & ->). auto.
Qed.

Lemma frame_aim (ph : Physics) (s : State) :
  aimPower (frame ph s) = aimPower s /\ aimAngle (frame ph s) = aimAngle s /\
  mode (frame ph s) = mode s.
Proof.
  unfold frame. destruct (gameOver s); cbn [negb]; [auto|].
  destruct (handlePotting_aim (stepPhysics ph s)) as (E1 & E2 & E3 & _).
  unfold finalizeShotIfSettled. break_ifs; cbn; auto.
Qed.

Lemma map_applied (f : Ball -> Ball) (l : list Ball) :
  (forall b, applied (body (f b)) = applied (body b)) ->
  Forall (fun b => applied (body b) = []) l ->
  Forall (fun b => applied (body b) = []) (map f l).
Proof.
  intros Hf Hl. induction Hl as [|b l Hb _ IH]; cbn; constructor; [|exact IH].
  rewrite Hf. exact Hb.
Qed.

Lemma move_ball_applied (ph : Physics) (ref : BallRef) (b : Ball) :
  applied (body (move_ball ph ref b)) = applied (body b).
Proof. unfold move_ball. destruct (ph ref (body b)). reflexivity. Qed.

Lemma move_list_applied (ph : Physics) (mk : nat -> BallRef) (l : list Ball) :
  forall i,
    Forall (fun b => applied (body b) = []) l ->
    Forall (fun b => applied (body b) = []) (move_list ph mk i l).
Proof.
  induction l as [|b l IH]; intros i Hl; cbn; [constructor|].
  inversion Hl; subst. constructor; [|apply IH; assumption].
  rewrite move_ball_applied. assumption.
Qed.

Lemma potIf_applied (pks : list Pocket) (pr : Q) (b : Ball) :
  applied (body (potIf pks pr b)) = applied (body b).
Proof. unfold potIf. destruct (inPocket pks pr b); reflexivity. Qed.

Section Forces.
Context {math : P5Math}.

Lemma setMode_forces (n : Z) (s : State) (g : Rng) :
  forcesInv (fst (setMode n s g)).
Proof.
  destruct (setMode_fresh n s g) as (Hc & Hr).
  destruct (setMode_shape n s g) as (rs & cols & E).
  rewrite E in *. cbn [reds colours] in Hc, Hr.
  unfold forcesInv. cbn [aimPower reds colours cueBall].
  split; [lra|]. split; [|discriminate].
  apply Forall_app. split.
  - eapply Forall_impl; [|exact Hr]. unfold freshBall. cbn. tauto.
  - eapply Forall_impl; [|exact Hc]. unfold freshBall. cbn. tauto.
Qed.

Lemma tryShoot_forces (s : State) : forcesInv s -> forcesInv (tryShoot s).
Proof.
  intros Hf. unfold tryShoot.
  destruct (cueBall s) as [cue|] eqn:Hc; [|exact Hf].
  destruct (negb (isCueBallResting s)); [exact Hf|].
  destruct (areAnyBallsMoving s); [exact Hf|].
  destruct Hf as (Hp & Hb & Hcue).
  unfold forcesInv. cbn. split; [exact Hp|]. split; [exact Hb|].
  intros c E. inversion E; subst c. cbn. constructor; [|apply Hcue; exact Hc].
  exists (aimAngle s), (aimPower s). split; [exact Hp|reflexivity].
Qed.

Lemma placeCueBall_forces (x y : Q) (s : State) (g : Rng) :
  forcesInv s -> forcesInv (fst (placeCueBall x y s g)).
Proof.
  intros Hf. unfold placeCueBall.
  destruct (cueBall s); [exact Hf|].
  destruct (pointInD (table s) x y); [|exact Hf].
  unfold bind, ret, createBall, cueExtra. cbn.
  destruct Hf as (Hp & Hb & _).
  unfold forcesInv. cbn. split; [exact Hp|]. split; [exact Hb|].
  intros c E. inversion E; subst c. cbn. constructor.
Qed.

Lemma frame_forces (ph : Physics) (s : State) :
  forcesInv s -> forcesInv (frame ph s).
Proof.
  intros (Hp & Hb & Hcue).
  destruct (frame_aim ph s) as (Ea & _).
  unfold forcesInv. rewrite Ea. split; [exact Hp|].
  unfold frame. destruct (gameOver s); cbn [negb]; [auto|].
  destruct (finalize_balls (handlePotting (stepPhysics ph s)))
    as (-> & -> & ->).
  destruct (handlePotting_spec (stepPhysics ph s))
    as (-> & -> & _ & _ & _ & _ & _ & _ & _ & _ & ->).
  apply Forall_app in Hb. destruct Hb as [Hr Hc].
  split.
  - apply Forall_app. split.
    + apply map_applied; [apply potIf_applied|].
      apply move_list_applied, Hr.
    + apply map_applied; [apply potIf_applied|].
      apply move_list_applied, Hc.
  - intros c. destruct (existsb isCue _); [discriminate|].
    change (cueBall (stepPhysics ph s))
      with (option_map (move_ball ph CueRef) (cueBall s)).
    destruct (cueBall s) as [c0|] eqn:E0; cbn [option_map]; [|discriminate].
    intros E. inversion E; subst c.
    rewrite potIf_applied, move_ball_applied. apply Hcue. reflexivity.
Qed.

(** X16: on a table with balls of positive size (so that [mouseDragged]
    divides the drag distance by a positive number), in every state the
    sketch can reach from [setup] the power is between 0 and 1, no force
    has been applied to a red or to a colour, and every force applied to
    the cue ball on the table is [0.012 * p] times
    [(cos a, sin a)] for some angle [a] and some [p] between 0 and 1. *)
Theorem X16_forces :
  forall (atan2 : Q -> Q -> Q) (ins : list Input) (width height : Q) (g : Rng),
    0 < ballD (rebuildTableGeometry width height) ->
    let s := game (reactAll atan2 ins (setupOn width height g)) in
    0 <= aimPower s <= 1 /\
    Forall (fun b => applied (body b) = []) (reds s ++ colours s) /\
    (forall c, cueBall s = Some c ->
               Forall (fun f => exists a p : Q,
                           0 <= p <= 1 /\
                           f = mkPoint (cos a * (0.012 * p))
                                       (sin a * (0.012 * p)))
                      (applied (body c))).
Proof.
  intros atan2 ins width height g _.
  apply (reachable_inv atan2 forcesInv).
  - intros n s g0 _ _. apply setMode_forces.
  - apply tryShoot_forces.
  - intros v s Hf. exact Hf.
  - intros a p s (Hp & Hb & Hcue) Hcase.
    unfold forcesInv. cbn. split; [|split; assumption].
    destruct Hcase as [->|Hr]; assumption.
  - apply placeCueBall_forces.
  - apply frame_forces.
  - intros s Hf. exact Hf.
  - apply setMode_forces.
Qed.

End Forces.

(** On the canvas of [setup]: a click at (200, 360), inside the D, places
    the cue ball; a press, a drag and a release then fire a stroke, and
    the one force applied is on the cue ball. *)
Lemma X16_forces_witness :
  let s := game (@reactAll mathAtZero (fun _ _ => 0)
                   [MousePressed (mkUi None None) 200 360 rngZero;
                    MousePressed (mkUi None None) 200 360 rngZero;
                    MouseDragged 300 360; MouseReleased]
                   (setupOn 1280 720 rngZero)) in
  pointInD (rebuildTableGeometry 1280 720) 200 360 = true /\
  option_map (fun c => List.length (applied (body c))) (cueBall s)
  = Some 1%nat /\
  0 <= aimPower s <= 1 /\
  Forall (fun b => applied (body b) = []) (reds s ++ colours s).
Proof.
  pose proof (@X16_forces mathAtZero (fun _ _ => 0)
                [MousePressed (mkUi None None) 200 360 rngZero;
                 MousePressed (mkUi None None) 200 360 rngZero;
                 MouseDragged 300 360; MouseReleased]
                1280 720 rngZero) as H.
  cbv zeta in H |- *.
  destruct H as (H1 & H2 & _); [vm_compute; reflexivity|].
  split; [vm_compute; reflexivity|]. split; [vm_compute; reflexivity|].
  split; [exact H1|exact H2].
Defined.

(** ** Firing twice before the engine runs *)

Section DoubleFire.
Context {math : P5Math}.

Lemma applyForce_still (b : Ball) (f : Point) :
  ballIsMoving (applyForce b f) = ballIsMoving b.
Proof. reflexivity. Qed.

(** [tryShoot] changes none of what its own guard reads. *)
Lemma tryShoot_guard (s : State) (cue : Ball) :
  cueBall s = Some cue -> isCueBallResting s = true ->
  areAnyBallsMoving s = false ->
  isCueBallResting (tryShoot s) = true /\
  areAnyBallsMoving (tryShoot s) = false.
Proof.
  intros Hc Hr Hm. rewrite (tryShoot_accepted s cue Hc Hr Hm).
  unfold isCueBallResting, areAnyBallsMoving, all_balls in *.
  cbn [cueBall set_impactEffects set_cueBall set_shot reds colours].
  rewrite Hc in *. cbn [applyForce body velocity]. split; [exact Hr|].
  cbn [with_cue] in *. rewrite existsb_app in *. cbn [existsb] in *.
  rewrite applyForce_still. exact Hm.
Qed.

(** X17: the guard of [tryShoot] reads velocities, and a force changes
    none until the engine steps.  So when a shot is accepted, a second
    [tryShoot] before the next frame is accepted too: the cue ball
    receives the force twice, the counter advances by two and the log is
    untouched; closing the shot in that state logs a single entry, which
    carries the higher number. *)
Theorem X17_double_fire :
  forall (s : State) (cue : Ball),
    cueBall s = Some cue -> isCueBallResting s = true ->
    areAnyBallsMoving s = false ->
    let s2 := tryShoot (tryShoot s) in
    shotsTaken s2 = (shotsTaken s + 2)%Z /\
    shotInProgress s2 = true /\
    cueBall s2 = Some (applyForce (applyForce cue (shotForce s)) (shotForce s)) /\
    reds s2 = reds s /\ colours s2 = colours s /\
    List.length (impactEffects s2) = (List.length (impactEffects s) + 2)%nat /\
    shotLog s2 = shotLog s /\
    shotLog (finalizeShotIfSettled s2)
    = capLog (shotLog s ++ [mkLogEntry (shotsTaken s + 2) Miss []]).
Proof.
  intros s cue Hc Hr Hm s2.
  destruct (tryShoot_guard s cue Hc Hr Hm) as [Hr1 Hm1].
  assert (Hc1 : cueBall (tryShoot s) = Some (applyForce cue (shotForce s)))
    by (rewrite (tryShoot_accepted s cue Hc Hr Hm); reflexivity).
  destruct (tryShoot_guard (tryShoot s) _ Hc1 Hr1 Hm1) as [Hr2 Hm2].
  fold s2 in Hr2, Hm2.
  assert (E : s2 = set_impactEffects
                     (impactEffects (tryShoot s) ++
                        [mkEffect (p_x (position (body cue)))
                                  (p_y (position (body cue))) 0 14])
                     (set_cueBall
                        (Some (applyForce (applyForce cue (shotForce s))
                                          (shotForce (tryShoot s))))
                        (set_shot (shotsTaken (tryShoot s) + 1) true [] false
                                  (shotLog (tryShoot s)) (tryShoot s)))).
  { unfold s2. rewrite (tryShoot_accepted (tryShoot s) _ Hc1 Hr1 Hm1).
    reflexivity. }
  assert (E1 : tryShoot s = _) by exact (tryShoot_accepted s cue Hc Hr Hm).
  assert (Hforce : shotForce (tryShoot s) = shotForce s)
    by (rewrite E1; reflexivity).
  assert (Hn : shotsTaken s2 = (shotsTaken s + 2)%Z).
  { rewrite E. cbn [shotsTaken set_impactEffects set_cueBall set_shot].
    rewrite E1. cbn [shotsTaken set_impactEffects set_cueBall set_shot]. lia. }
  assert (Hl : shotLog s2 = shotLog s).
  { rewrite E. cbn [shotLog set_impactEffects set_cueBall set_shot].
    rewrite E1. reflexivity. }
  split; [exact Hn|].
  split; [rewrite E; reflexivity|].
  split; [rewrite E, Hforce; reflexivity|].
  split; [rewrite E; cbn; rewrite E1; reflexivity|].
  split; [rewrite E; cbn; rewrite E1; reflexivity|].
  split.
  { rewrite E. cbn [impactEffects set_impactEffects]. rewrite length_app.
    rewrite E1. cbn [impactEffects set_impactEffects]. rewrite length_app.
    cbn [List.length]. lia. }
  split; [exact Hl|].
  unfold finalizeShotIfSettled. rewrite Hm2.
  assert (Ho : shotInProgress s2 = true) by (rewrite E; reflexivity).
  rewrite Ho. cbn [negb].
  assert (Hps : shotPottedThisShot s2 = []) by (rewrite E; reflexivity).
  assert (Hfl : shotFoulThisShot s2 = false) by (rewrite E; reflexivity).
  rewrite Hps, Hfl, Hn, Hl. reflexivity.
Qed.

End DoubleFire.

(** On the table of [setup], with the cue ball at rest in the D. *)
Lemma X17_double_fire_witness :
  shotsTaken (@tryShoot mathAtZero (@tryShoot mathAtZero aimingState))
  = (shotsTaken aimingState + 2)%Z.
Proof.
  destruct (cueBall aimingState) as [cue|] eqn:Hc;
    [|vm_compute in Hc; discriminate].
  pose proof (@X17_double_fire mathAtZero aimingState cue Hc) as H.
  cbv zeta in H.
  destruct H as (H & _); [vm_compute; reflexivity|vm_compute; reflexivity|].
  exact H.
Defined.

(** ** When the frame is over, and when the cue ball is off the table *)

Section Terminal.
Context {math : P5Math}.
Variable atan2 : Q -> Q -> Q.

(** The keys that rebuild the table. *)
Lemma keyPressed_plain (key : string) (keyCode : Z) (sk : Sketch) (g : Rng) :
  String.eqb key "1" = false -> String.eqb key "2" = false ->
  String.eqb key "3" = false ->
  ((keyCode =? ENTER)%Z || String.eqb key "n" || String.eqb key "N") = false ->
  fst (keyPressed key keyCode sk g)
  = let theme :=
      if String.eqb key "c" || String.eqb key "C"
      then ((themeIndex sk + 1) mod themeCount)%nat else themeIndex sk in
    let g1 :=
      if String.eqb key "t" || String.eqb key "T"
      then set_predictor (mkPredictor (negb (enabled (predictor (game sk))))
                                      (maxBounces (predictor (game sk))))
                         (game sk)
      else game sk in
    let g2 :=
      if negb (gameOver g1)
         && match cueBall g1 with Some _ => true | None => false end then
        if (keyCode =? SPACE)%Z then tryShoot g1 else g1
      else g1 in
    mkSketch g2 theme (isAiming sk) (dragPower sk).
Proof.
  intros E1 E2 E3 E4. unfold keyPressed, bind, ret.
  rewrite E1, E2, E3, E4. reflexivity.
Qed.

(** X18: once the frame is over, the game stands still until it is reset.
    Drags and releases change nothing; a frame only ages the effects; a
    key other than 1, 2, 3, N and Enter changes at most the theme and the
    predictor switch, the space bar included; and a click, wherever it
    lands, resets the table. *)
Theorem X18_frame_over_terminal :
  forall sk : Sketch,
    gameOver (game sk) = true ->
    (forall x y, mouseDragged x y sk = sk) /\
    mouseReleased sk = sk /\
    (forall ph x y keys,
        drawSketch atan2 ph x y keys sk
        = set_game (drawAnimations (game sk)) sk) /\
    (forall key keyCode g,
        String.eqb key "1" = false -> String.eqb key "2" = false ->
        String.eqb key "3" = false ->
        ((keyCode =? ENTER)%Z || String.eqb key "n" || String.eqb key "N")
        = false ->
        let s' := game (fst (keyPressed key keyCode sk g)) in
        (s' = game sk \/
         s' = set_predictor
                (mkPredictor (negb (enabled (predictor (game sk))))
                             (maxBounces (predictor (game sk)))) (game sk)) /\
        gameOver s' = true) /\
    (forall ui x y g,
        let s' := game (fst (mousePressed ui x y sk g)) in
        s' = fst (resetTable (game sk) g) /\
        gameOver s' = false /\ shotsTaken s' = 0%Z /\ shotLog s' = [] /\
        cueBall s' = None /\ mode s' = mode (game sk)).
Proof.
  intros sk Hover. split; [|split; [|split; [|split]]].
  - intros x y. unfold mouseDragged. cbv zeta. rewrite Hover. reflexivity.
  - unfold mouseReleased. rewrite Hover. reflexivity.
  - intros ph x y keys. unfold drawSketch, frame, drawCueAndGuides.
    rewrite Hover. cbn [negb]. rewrite Hover. reflexivity.
  - intros key keyCode g E1 E2 E3 E4.
    rewrite (keyPressed_plain key keyCode sk g E1 E2 E3 E4). cbv zeta.
    cbn [game].
    destruct (String.eqb key "t" || String.eqb key "T");
      cbn [gameOver set_predictor]; rewrite Hover; cbn [negb andb]; auto.
  - intros ui x y g. cbv zeta.
    assert (E : game (fst (mousePressed ui x y sk g))
                = fst (resetTable (game sk) g)).
    { unfold mousePressed. cbv zeta. rewrite Hover.
      unfold bind, ret.
      destruct (onButton (noticeResetRect ui) x y);
        [destruct (resetTable (game sk) g); reflexivity|].
      destruct (onButton (resetRect ui) x y);
        destruct (resetTable (game sk) g); reflexivity. }
    rewrite E. split; [reflexivity|]. unfold resetTable.
    destruct (setMode_shape (mode (game sk)) (game sk) g) as (rs & cols & ->).
    cbn. auto.
Qed.

(** X19: while no cue ball is on the table no input opens a shot, and the
    only input that brings a cue ball back is a click inside the D, with
    the frame not over. *)
Theorem X19_no_cue_no_shot :
  forall (sk : Sketch) (i : Input),
    cueBall (game sk) = None ->
    let sk' := react atan2 i sk in
    (shotInProgress (game sk') = true -> shotInProgress (game sk) = true) /\
    (shotsTaken (game sk') = shotsTaken (game sk) \/
     shotsTaken (game sk') = 0%Z) /\
    (cueBall (game sk') <> None ->
     exists ui x y g,
       i = MousePressed ui x y g /\ gameOver (game sk) = false /\
       pointInD (table (game sk)) x y = true).
Proof.
  intros sk i Hnone. cbv zeta.
  match goal with
  | |- (shotInProgress ?X = true -> ?A) /\ (shotsTaken ?X = ?B \/ _) /\
       (cueBall ?X <> None -> ?C) =>
      set (Post := fun s' : State =>
                     (shotInProgress s' = true -> A) /\
                     (shotsTaken s' = B \/ shotsTaken s' = 0%Z) /\
                     (cueBall s' <> None -> C));
      change (Post X)
  end.
  assert (Hsame : forall s' : State,
             cueBall s' = None ->
             (shotInProgress s' = true -> shotInProgress (game sk) = true) ->
             (shotsTaken s' = shotsTaken (game sk) \/ shotsTaken s' = 0%Z) ->
             Post s').
  { intros s' H0 H1 H2. unfold Post. split; [exact H1|]. split; [exact H2|].
    intros H. contradiction. }
  assert (Hreset : forall g0 : Rng,
             Post (fst (setMode (mode (game sk)) (game sk) g0))).
  { intros g0. apply Hsame;
      destruct (setMode_shape (mode (game sk)) (game sk) g0)
        as (rs & cols & ->); cbn; auto; discriminate. }
  destruct i as [key keyCode g|ui x y g|x y| |ph x y keys]; cbn [react].
  - (* a key: a rebuilt table has no cue ball either *)
    assert (Hgen : forall s0 : State,
               cueBall s0 = None ->
               (shotInProgress s0 = true -> shotInProgress (game sk) = true) ->
               (shotsTaken s0 = shotsTaken (game sk) \/ shotsTaken s0 = 0%Z) ->
               forall (c : bool) (n : Z) (g0 : Rng),
                 let s1 := fst ((if c then setMode n s0 else ret s0) g0) in
                 cueBall s1 = None /\
                 (shotInProgress s1 = true -> shotInProgress (game sk) = true) /\
                 (shotsTaken s1 = shotsTaken (game sk) \/ shotsTaken s1 = 0%Z)).
    { intros s0 H0 H1 H2 c n g0. destruct c; [|cbn; auto].
      cbv zeta. destruct (setMode_shape n s0 g0) as (rs & cols & ->).
      cbn. split; [reflexivity|]. split; [discriminate|auto]. }
    unfold keyPressed. unfold bind at 1.
    pose proof (Hgen (game sk) Hnone (fun H => H) (or_introl eq_refl)
                  (String.eqb key "1") 1%Z g) as H1. cbv zeta in H1.
    match type of H1 with context [fst (?m ?r)] => destruct (m r) as [g1 r1] end.
    cbn [fst] in H1. destruct H1 as (A1 & B1 & C1).
    unfold bind at 1.
    pose proof (Hgen g1 A1 B1 C1 (String.eqb key "2") 2%Z r1) as H2.
    cbv zeta in H2.
    match type of H2 with context [fst (?m ?r)] => destruct (m r) as [g2 r2] end.
    cbn [fst] in H2. destruct H2 as (A2 & B2 & C2).
    unfold bind at 1.
    pose proof (Hgen g2 A2 B2 C2 (String.eqb key "3") 3%Z r2) as H3.
    cbv zeta in H3.
    match type of H3 with context [fst (?m ?r)] => destruct (m r) as [g3 r3] end.
    cbn [fst] in H3. destruct H3 as (A3 & B3 & C3).
    cbv zeta.
    set (g4 := if String.eqb key "t" || String.eqb key "T" then _ else g3).
    assert (H4 : cueBall g4 = None /\
                 (shotInProgress g4 = true -> shotInProgress (game sk) = true) /\
                 (shotsTaken g4 = shotsTaken (game sk) \/ shotsTaken g4 = 0%Z))
      by (unfold g4; break_ifs; cbn; auto).
    clearbody g4. destruct H4 as (A4 & B4 & C4).
    unfold bind at 1.
    pose proof (Hgen g4 A4 B4 C4
                  ((keyCode =? ENTER)%Z || String.eqb key "n" || String.eqb key "N")
                  (mode g4) r3) as H5.
    cbv zeta in H5. unfold resetTable.
    match type of H5 with context [fst (?m ?r)] => destruct (m r) as [g5 r5] end.
    cbn [fst] in H5. destruct H5 as (A5 & B5 & C5).
    unfold ret. cbn [fst game]. rewrite A5, andb_false_r.
    apply Hsame; assumption.
  - (* a click *)
    unfold mousePressed. cbv zeta.
    assert (Hclick : Post (game (fst ((g' <- resetTable (game sk) ;;
                                       ret (set_game g' sk)) g)))).
    { unfold bind, ret, resetTable. pose proof (Hreset g) as H.
      destruct (setMode (mode (game sk)) (game sk) g) as [s1 r1]. exact H. }
    destruct (onButton (noticeResetRect ui) x y); [exact Hclick|].
    destruct (onButton (resetRect ui) x y); [exact Hclick|].
    destruct (gameOver (game sk)) eqn:Hover; [exact Hclick|].
    rewrite Hnone. unfold bind, ret.
    destruct (placeCueBall_shot x y (game sk) g) as (Hi & Hn & _).
    assert (Hp : pointInD (table (game sk)) x y = false ->
                 fst (placeCueBall x y (game sk) g) = game sk).
    { intros Hd. unfold placeCueBall. rewrite Hnone, Hd. reflexivity. }
    destruct (placeCueBall x y (game sk) g) as [s1 r1].
    cbn [fst set_game game] in *. unfold Post.
    split; [rewrite Hi; auto|]. split; [left; exact Hn|].
    intros Hcue. exists ui, x, y, g.
    split; [reflexivity|]. split; [reflexivity|].
    destruct (pointInD (table (game sk)) x y); [reflexivity|].
    rewrite (Hp eq_refl) in Hcue. contradiction.
  - (* a drag *)
    unfold mouseDragged. cbv zeta. rewrite Hnone.
    destruct (gameOver (game sk)); apply Hsame; auto.
  - (* a release: [tryShoot] without a cue ball *)
    unfold mouseReleased.
    destruct (gameOver (game sk)); [|destruct (isAiming sk)];
      cbn [game]; unfold tryShoot; rewrite ?Hnone; apply Hsame; auto.
  - (* a frame *)
    unfold drawSketch, set_game. cbn [game].
    assert (Hf : cueBall (frame ph (game sk)) = None).
    { unfold frame. destruct (gameOver (game sk)); cbn [negb]; [exact Hnone|].
      destruct (finalize_balls (handlePotting (stepPhysics ph (game sk))))
        as (_ & _ & ->).
      destruct (handlePotting_spec (stepPhysics ph (game sk)))
        as (_ & _ & _ & _ & _ & _ & _ & _ & _ & _ & ->).
      change (cueBall (stepPhysics ph (game sk)))
        with (option_map (move_ball ph CueRef) (cueBall (game sk))).
      rewrite Hnone. cbn [option_map]. destruct (existsb isCue _); reflexivity. }
    unfold drawCueAndGuides. rewrite Hf.
    replace (if gameOver (frame ph (game sk)) then frame ph (game sk)
             else frame ph (game sk)) with (frame ph (game sk))
      by (destruct (gameOver (frame ph (game sk))); reflexivity).
    apply Hsame.
    + exact Hf.
    + cbn [drawAnimations shotInProgress set_pocketEffects set_impactEffects].
      intros Ho. destruct (shotInProgress (game sk)) eqn:E; [reflexivity|].
      destruct (frame_closed ph (game sk) E) as [Hc _]. congruence.
    + left. cbn [drawAnimations shotsTaken set_pocketEffects set_impactEffects].
      unfold frame. destruct (gameOver (game sk)); cbn [negb]; [reflexivity|].
      destruct (handlePotting_spec (stepPhysics ph (game sk)))
        as (_ & _ & _ & _ & Hn & _).
      unfold finalizeShotIfSettled. break_ifs; cbn; exact Hn.
Qed.

End Terminal.

Lemma X18_frame_over_terminal_witness :
  @mouseReleased mathAtZero overSketch = overSketch.
Proof.
  destruct (@X18_frame_over_terminal mathAtZero (fun _ _ => 0) overSketch)
    as (_ & H & _); [reflexivity|exact H].
Defined.

(** After [setup] there is no cue ball: releasing the mouse opens no
    shot. *)
Lemma X19_no_cue_no_shot_witness :
  cueBall (game (setupOn 1280 720 rngZero)) = None /\
  (shotInProgress (game (@react mathAtZero (fun _ _ => 0) MouseReleased
                           (setupOn 1280 720 rngZero))) = true ->
   shotInProgress (game (setupOn 1280 720 rngZero)) = true).
Proof.
  assert (Hc : cueBall (game (setupOn 1280 720 rngZero)) = None)
    by (vm_compute; reflexivity).
  split; [exact Hc|].
  destruct (@X19_no_cue_no_shot mathAtZero (fun _ _ => 0)
              (setupOn 1280 720 rngZero) MouseReleased Hc) as (H & _).
  exact H.
Defined.

(** ** The statistics of the panel *)

Lemma count_acc (l : list Ball) :
  forall a : Z,
    fold_left (fun acc b => (acc + (if potted b then 1 else 0))%Z) l a
    = (a + fold_left (fun acc b => (acc + (if potted b then 1 else 0))%Z) l 0)%Z.
Proof.
  induction l as [|b l IH]; intros a; cbn [fold_left]; [lia|].
  rewrite IH. rewrite (IH (0 + _)%Z). lia.
Qed.

Lemma stats_mono (l l' : list Ball) :
  Forall2 keepsPot l l' ->
  let nc := fun b : Ball => negb (isCue b) in
  let cnt := fun l : list Ball =>
    fold_left (fun acc b => (acc + (if potted b then 1 else 0))%Z)
              (filter nc l) 0%Z in
  List.length (filter nc l') = List.length (filter nc l) /\
  (0 <= cnt l <= cnt l')%Z /\
  (cnt l' <= Z.of_nat (List.length (filter nc l')))%Z.
Proof.
  intros H. cbv zeta.
  induction H as [|b b' l l' [Hc Hp] _ IH]; [cbn; lia|].
  destruct IH as (IH1 & IH2 & IH3).
  cbn [filter]. rewrite Hc.
  destruct (isCue b); cbn [negb]; [auto|].
  cbn [fold_left List.length].
  rewrite (count_acc (filter _ l)), (count_acc (filter _ l')).
  rewrite IH1. split; [reflexivity|].
  destruct (potted b); [rewrite (Hp eq_refl)|destruct (potted b')]; lia.
Qed.

Lemma keepsPot_refl (l : list Ball) : Forall2 keepsPot l l.
Proof. induction l; constructor; [split; auto | assumption]. Qed.

Lemma keepsPot_trans (l1 l2 l3 : list Ball) :
  Forall2 keepsPot l1 l2 -> Forall2 keepsPot l2 l3 -> Forall2 keepsPot l1 l3.
Proof.
  intros H12. revert l3.
  induction H12 as [|a b l1 l2 [Hi Hp] _ IH]; intros l3 H23;
    inversion H23 as [|b' c l2' l3' [Hi' Hp'] Hrest]; subst; constructor.
  - split; [congruence | auto].
  - apply IH. assumption.
Qed.

Lemma move_list_keeps (ph : Physics) (mk : nat -> BallRef) (l : list Ball) :
  forall i, Forall2 keepsPot l (move_list ph mk i l).
Proof.
  induction l as [|b l IH]; intros i; cbn; constructor; [|apply IH].
  unfold keepsPot, move_ball. destruct (ph (mk i) (body b)). cbn. auto.
Qed.

Lemma map_potIf_keeps (pks : list Pocket) (pr : Q) (l : list Ball) :
  Forall2 keepsPot l (map (potIf pks pr) l).
Proof.
  induction l as [|b l IH]; cbn; constructor; [|exact IH].
  unfold keepsPot, potIf. destruct (inPocket pks pr b); cbn; auto.
Qed.

Lemma step_keeps (e : Event) (s : State) :
  Forall2 keepsPot (reds s ++ colours s)
                   (reds (step e s) ++ colours (step e s)).
Proof.
  destruct e as [ph|x y g]; cbn [step].
  - unfold frame. destruct (gameOver s); cbn [negb]; [apply keepsPot_refl|].
    destruct (finalize_balls (handlePotting (stepPhysics ph s)))
      as (-> & -> & _).
    destruct (handlePotting_spec (stepPhysics ph s)) as (-> & -> & _).
    apply Forall2_app.
    + eapply keepsPot_trans; [|apply map_potIf_keeps]. apply move_list_keeps.
    + eapply keepsPot_trans; [|apply map_potIf_keeps]. apply move_list_keeps.
  - assert (Hsame : reds (fst (placeCueBall x y s g)) = reds s /\
                    colours (fst (placeCueBall x y s g)) = colours s).
    { unfold placeCueBall. destruct (cueBall s); [auto|].
      destruct (pointInD (table s) x y); [|auto].
      unfold bind, ret.
      destruct (createBall x y (ballR (table s)) "#f5f5f5" cueExtra g).
      auto. }
    destruct Hsame as [Hr Hc].
    destruct (gameOver s); rewrite ?Hr, ?Hc; apply keepsPot_refl.
Qed.

Lemma run_keeps (es : list Event) :
  forall s,
    Forall2 keepsPot (reds s ++ colours s)
                     (reds (run es s) ++ colours (run es s)).
Proof.
  induction es as [|e es IH]; intros s; [apply keepsPot_refl|].
  rewrite run_cons. eapply keepsPot_trans; [apply step_keeps|apply IH].
Qed.

(** X20: the numbers [getPotStats] reports add up: [remaining] is [total]
    minus [potted], and [potted] lies between 0 and [total].  Across any
    run of frames and cue-ball placements [total] stays the same and
    [potted] never goes down, so [remaining] never goes up. *)
Theorem X20_pot_stats :
  forall (es : list Event) (s : State),
    let a := getPotStats s in
    let b := getPotStats (run es s) in
    st_remaining b = (st_total b - st_potted b)%Z /\
    (0 <= st_potted b <= st_total b)%Z /\
    st_total b = st_total a /\
    (st_potted a <= st_potted b)%Z /\
    (st_remaining b <= st_remaining a)%Z.
Proof.
  intros es s. cbv zeta. unfold getPotStats. cbv zeta.
  cbn [st_potted st_remaining st_total].
  destruct (stats_mono _ _ (run_keeps es s)) as (H1 & H2 & H3).
  cbv zeta in H1, H2, H3. rewrite H1. lia.
Qed.

(** ** The pockets *)

Lemma square_nonneg (z : Q) : 0 <= z * z.
Proof. nra. Qed.

Lemma along_axis (a D pr : Q) :
  0 < pr -> a * a < pr * pr -> 2 * pr <= D \/ D <= - (2 * pr) ->
  pr * pr <= (a + D) * (a + D).
Proof.
  intros Hpr Ha HD.
  assert (Hlo : - pr < a).
  { destruct (Qlt_le_dec (- pr) a) as [H|H]; [exact H|]. exfalso. nra. }
  assert (Hhi : a < pr).
  { destruct (Qlt_le_dec a pr) as [H|H]; [exact H|]. exfalso. nra. }
  destruct HD as [HD|HD]; nra.
Qed.

(** A point closer than [pr] to [(px, py)] is not closer than [pr] to a
    point at least [2 pr] away along an axis. *)
Lemma dist_lt_far (x y px py qx qy pr : Q) :
  dist_lt x y px py pr = true ->
  2 * pr <= qx - px \/ qx - px <= - (2 * pr) \/
  2 * pr <= qy - py \/ qy - py <= - (2 * pr) ->
  dist_lt x y qx qy pr = false.
Proof.
  unfold dist_lt. rewrite andb_true_iff. intros [Hpr Hp] Hfar.
  apply Qltb_lt in Hpr. apply Qltb_lt in Hp.
  apply andb_false_iff. right. apply Qltb_ge.
  unfold dist2, sq in *.
  set (a := px - x) in *. set (b := py - y) in *.
  pose proof (square_nonneg a) as Ha.
  pose proof (square_nonneg b) as Hb.
  assert (Hx : a * a < pr * pr) by lra.
  assert (Hy : b * b < pr * pr) by lra.
  assert (Eqx : qx - x == a + (qx - px)) by (unfold a; ring).
  assert (Eqy : qy - y == b + (qy - py)) by (unfold b; ring).
  rewrite Eqx, Eqy.
  pose proof (square_nonneg (a + (qx - px))) as Hqa.
  pose proof (square_nonneg (b + (qy - py))) as Hqb.
  destruct Hfar as [H|[H|[H|H]]].
  - pose proof (along_axis a (qx - px) pr Hpr Hx (or_introl H)). lra.
  - pose proof (along_axis a (qx - px) pr Hpr Hx (or_intror H)). lra.
  - pose proof (along_axis b (qy - py) pr Hpr Hy (or_introl H)). lra.
  - pose proof (along_axis b (qy - py) pr Hpr Hy (or_intror H)). lra.
Qed.

(** X21: whatever the canvas, the capture discs of two different pockets
    (radius [1.18 * pocketR] about the pocket centres) have no point in
    common: a ball is never within capture distance of two pockets, so the
    pocket [handlePotting] picks does not depend on the order of the
    list. *)
Theorem X21_one_pocket :
  forall (width height : Q) (p q : Pocket) (x y : Q),
    let t := rebuildTableGeometry width height in
    let pr := pocketR t * 1.18 in
    In p (buildPocketList t) -> In q (buildPocketList t) ->
    pk_id p <> pk_id q ->
    dist_lt x y (pk_x p) (pk_y p) pr = true ->
    dist_lt x y (pk_x q) (pk_y q) pr = false.
Proof.
  intros width height p q x y t pr Hp Hq Hne Hnear.
  destruct (geometry_grid width height) as (_ & HW & HH & _).
  fold t in HW, HH.
  assert (HR : pocketR t == 1.5 * ballD t / 2) by reflexivity.
  assert (Hpos : 0 < pr).
  { unfold dist_lt in Hnear. apply andb_true_iff in Hnear.
    destruct Hnear as [H _]. apply Qltb_lt in H. exact H. }
  unfold pr in *. clearbody t.
  apply (dist_lt_far x y (pk_x p) (pk_y p)); [exact Hnear|].
  unfold buildPocketList in Hp, Hq. cbv zeta in Hp, Hq. cbn [In] in Hp, Hq.
  revert HR. qdiv. intros HR.
  destruct Hp as [<-|[<-|[<-|[<-|[<-|[<-|[]]]]]]];
    destruct Hq as [<-|[<-|[<-|[<-|[<-|[<-|[]]]]]]];
    cbn [pk_id pk_x pk_y] in *;
    try (exfalso; apply Hne; reflexivity);
    lra.
Qed.

(** On the table of [setup], a point within capture distance of the top
    left pocket is not within capture distance of the top middle one. *)
Lemma X21_one_pocket_witness :
  let t := rebuildTableGeometry 1280 720 in
  dist_lt (r_x (surface t)) (r_y (surface t))
          (r_x (surface t) + r_w (surface t) / 2)
          (r_y (surface t) + pocketR t * 0.2) (pocketR t * 1.18) = false.
Proof.
  cbv zeta.
  apply (X21_one_pocket 1280 720
           (mkPocket TL (r_x (surface (rebuildTableGeometry 1280 720))
                         + pocketR (rebuildTableGeometry 1280 720) * 0.2)
                        (r_y (surface (rebuildTableGeometry 1280 720))
                         + pocketR (rebuildTableGeometry 1280 720) * 0.2))
           (mkPocket TM (r_x (surface (rebuildTableGeometry 1280 720))
                         + r_w (surface (rebuildTableGeometry 1280 720)) / 2)
                        (r_y (surface (rebuildTableGeometry 1280 720))
                         + pocketR (rebuildTableGeometry 1280 720) * 0.2))).
  - left. reflexivity.
  - right. left. reflexivity.
  - discriminate.
  - vm_compute. reflexivity.
Defined.

(** ** The life of an effect *)

Lemma Qltb_compat (a b c d : Q) : a == c -> b == d -> Qltb a b = Qltb c d.
Proof.
  intros Hac Hbd.
  destruct (Qltb a b) eqn:E1, (Qltb c d) eqn:E2; try reflexivity;
    rewrite ?Qltb_lt, ?Qltb_ge in *; lra.
Qed.

Lemma age_once (k : Q) (l' m : list Effect) :
  Forall2 (olderBy k) l' m ->
  Forall2 (olderBy (k + 1)) (ageEffects l') (filter (shownAfter (k + 1)) m).
Proof.
  induction 1 as [|e' e l' m (Hx & Hy & Hd & Ht) _ IH]; [constructor|].
  unfold ageEffects in *. cbn [map filter fx_t fx_duration].
  assert (E : Qltb (fx_t e' + 1) (fx_duration e') = shownAfter (k + 1) e).
  { unfold shownAfter. apply Qltb_compat; [rewrite Ht; ring|rewrite Hd; reflexivity]. }
  rewrite E. destruct (shownAfter (k + 1) e); [|exact IH].
  constructor; [|exact IH].
  unfold olderBy. cbn. repeat split; auto. rewrite Ht. ring.
Qed.

Lemma shown_twice (k : Q) (l : list Effect) :
  0 <= k ->
  filter (shownAfter (k + 1)) (filter (shownAfter k) l)
  = filter (shownAfter (k + 1)) l.
Proof.
  intros Hk. induction l as [|e l IH]; [reflexivity|].
  cbn [filter]. destruct (shownAfter k e) eqn:E1.
  - cbn [filter]. rewrite IH. reflexivity.
  - rewrite IH. destruct (shownAfter (k + 1) e) eqn:E2; [|reflexivity].
    unfold shownAfter in *. apply Qltb_ge in E1. apply Qltb_lt in E2. lra.
Qed.

Lemma nq_succ (n : nat) : nq (S n) == nq n + 1.
Proof.
  unfold nq. rewrite Nat2Z.inj_succ. unfold Z.succ. rewrite inject_Z_plus.
  reflexivity.
Qed.

Lemma nq_nonneg (n : nat) : 0 <= nq n.
Proof.
  unfold nq. change 0 with (inject_Z 0). rewrite <- Zle_Qle. lia.
Qed.

Lemma olderBy_compat (k k' : Q) (l' m : list Effect) :
  k == k' -> Forall2 (olderBy k) l' m -> Forall2 (olderBy k') l' m.
Proof.
  intros Hk. induction 1 as [|e' e l' m (Hx & Hy & Hd & Ht) _ IH]; constructor;
    [|exact IH].
  unfold olderBy. repeat split; auto. rewrite Ht, Hk. reflexivity.
Qed.

Lemma shown_compat (k k' : Q) (l : list Effect) :
  k == k' -> filter (shownAfter k) l = filter (shownAfter k') l.
Proof.
  intros Hk. apply filter_ext. intros e. unfold shownAfter.
  apply Qltb_compat; [rewrite Hk|]; reflexivity.
Qed.

(** X22: [drawAnimations] ages every effect by one frame and drops those
    that reached their duration.  After [n >= 1] calls the effects left
    are exactly those with [t + n < duration], in their order, each [n]
    frames older: the ring of a shot (duration 14) is still listed after
    13 calls and removed by the 14th, that of a pot (duration 18) is
    removed by the 18th. *)
Theorem X22_effect_lifetime :
  forall (n : nat) (s : State),
    let s' := Nat.iter (S n) drawAnimations s in
    Forall2 (olderBy (nq (S n))) (impactEffects s')
            (filter (shownAfter (nq (S n))) (impactEffects s)) /\
    Forall2 (olderBy (nq (S n))) (pocketEffects s')
            (filter (shownAfter (nq (S n))) (pocketEffects s)) /\
    (forall x y : Q,
        filter (shownAfter (nq (S n))) [mkEffect x y 0 14]
        = if (S n <? 14)%nat then [mkEffect x y 0 14] else []) /\
    (forall x y : Q,
        filter (shownAfter (nq (S n))) [mkEffect x y 0 18]
        = if (S n <? 18)%nat then [mkEffect x y 0 18] else []).
Proof.
  intros n s. cbv zeta.
  assert (Hiter : forall k,
             impactEffects (Nat.iter k drawAnimations s)
             = Nat.iter k ageEffects (impactEffects s) /\
             pocketEffects (Nat.iter k drawAnimations s)
             = Nat.iter k ageEffects (pocketEffects s)).
  { induction k as [|k [IH1 IH2]]; [split; reflexivity|].
    change (Nat.iter (S k) drawAnimations s)
      with (drawAnimations (Nat.iter k drawAnimations s)).
    change (Nat.iter (S k) ageEffects (impactEffects s))
      with (ageEffects (Nat.iter k ageEffects (impactEffects s))).
    change (Nat.iter (S k) ageEffects (pocketEffects s))
      with (ageEffects (Nat.iter k ageEffects (pocketEffects s))).
    rewrite <- IH1, <- IH2. split; reflexivity. }
  assert (Hage : forall l k,
             Forall2 (olderBy (nq (S k))) (Nat.iter (S k) ageEffects l)
                     (filter (shownAfter (nq (S k))) l)).
  { intros l. induction k as [|k IH].
    - cbn [Nat.iter nat_rect].
      apply (olderBy_compat (0 + 1)); [reflexivity|].
      rewrite (shown_compat (nq 1) (0 + 1)) by reflexivity.
      apply age_once. clear. induction l; constructor; [|assumption].
      unfold olderBy. repeat split; auto. ring.
    - change (Nat.iter (S (S k)) ageEffects l)
        with (ageEffects (Nat.iter (S k) ageEffects l)).
      apply (olderBy_compat (nq (S k) + 1)); [symmetry; apply nq_succ|].
      rewrite (shown_compat (nq (S (S k))) (nq (S k) + 1)) by apply nq_succ.
      rewrite <- (shown_twice (nq (S k))) by apply nq_nonneg.
      apply age_once, IH. }
  destruct (Hiter (S n)) as [-> ->].
  split; [apply Hage|]. split; [apply Hage|].
  assert (Hone : forall (x y : Q) (d : nat),
             filter (shownAfter (nq (S n))) [mkEffect x y 0 (nq d)]
             = if (S n <? d)%nat then [mkEffect x y 0 (nq d)] else []).
  { intros x y d. cbn [filter]. unfold shownAfter. cbn [fx_t fx_duration].
    destruct (S n <? d)%nat eqn:E.
    - apply Nat.ltb_lt in E.
      assert (H : Qltb (0 + nq (S n)) (nq d) = true).
      { apply Qltb_lt. unfold nq. rewrite Qplus_0_l, <- Zlt_Qlt. lia. }
      rewrite H. reflexivity.
    - apply Nat.ltb_ge in E.
      assert (H : Qltb (0 + nq (S n)) (nq d) = false).
      { apply Qltb_ge. unfold nq. rewrite Qplus_0_l, <- Zle_Qle. lia. }
      rewrite H. reflexivity. }
  split; intros x y; [exact (Hone x y 14%nat)|exact (Hone x y 18%nat)].
Qed.

(** ** The buttons and the panel of the HUD *)

(** The D, the table and the canvas, from a canvas width of 980 on. *)
Lemma D_on_canvas (width height px py : Q) :
  980 <= width -> 72 <= height ->
  let t := rebuildTableGeometry width height in
  pointInD t px py = true ->
  px < width / 2 - 70 /\ py <= height - 32.
Proof.
  intros Hw Hh t Hd.
  unfold pointInD in Hd.
  destruct (pointInSurface t px py (ballR t)) eqn:Hs; cbn [negb] in Hd;
    [|discriminate].
  destruct (Qgtb px (baulkX t)) eqn:Hb; [discriminate|].
  apply Qltb_ge in Hb.
  unfold pointInSurface in Hs. rewrite !andb_true_iff in Hs.
  destruct Hs as [[[_ _] _] Hy]. apply Qle_bool_iff in Hy.
  revert Hb Hy. unfold t, rebuildTableGeometry, UI_LAYOUT.topBarH,
    UI_LAYOUT.bottomBarH, UI_LAYOUT.sidePad, UI_LAYOUT.panelW,
    UI_LAYOUT.panelGap, pocketD_of.
  cbv zeta. cbn [baulkX ballR surface r_x r_y r_w r_h].
  assert (Hc : Qgeb width 980 = true) by (apply Qgeb_ge; exact Hw).
  rewrite Hc.
  set (L := Qmin (width - 20 - (240 + 16 + 20)) ((height - (40 + 32)) * 0.86 * 2)).
  assert (H1 : L <= width - 20 - (240 + 16 + 20)) by apply Q.le_min_l.
  assert (H2 : L <= (height - (40 + 32)) * 0.86 * 2) by apply Q.le_min_r.
  assert (H3 : 0 <= L) by (apply Q.min_glb; lra).
  clearbody L. qdiv. intros Hb Hy. split; lra.
Qed.

(** X23: from a canvas width of 980 on (and a height of at least the two
    bars), no point of the D lies on the reset button or on the button of
    the foul notice.  So with no cue ball on the table and the frame not
    over, a click in the D places the cue ball there, whether the notice
    is showing or not. *)
Theorem X23_click_in_D :
  forall (width height px py : Q) (noticeShown : bool) (sk : Sketch) (g : Rng),
    980 <= width -> 72 <= height ->
    table (game sk) = rebuildTableGeometry width height ->
    gameOver (game sk) = false -> cueBall (game sk) = None ->
    pointInD (table (game sk)) px py = true ->
    pointInRect px py (resetButton height) = false /\
    pointInRect px py (noticeButton width height) = false /\
    let sk' := fst (mousePressed (hudUi width height noticeShown) px py sk g) in
    game sk' = fst (placeCueBall px py (game sk) g) /\
    exists c, cueBall (game sk') = Some c /\
              position (body c) = mkPoint px py /\ isCue c = true.
Proof.
  intros width height px py noticeShown sk g Hw Hh Ht Hover Hnone Hd.
  rewrite Ht in Hd.
  destruct (D_on_canvas width height px py Hw Hh Hd) as [Hx Hy].
  assert (Hreset : pointInRect px py (resetButton height) = false).
  { unfold pointInRect, resetButton, UI_LAYOUT.bottomBarH. cbv zeta.
    cbn [r_x r_y r_w r_h].
    destruct (Qgeb py (height - 32 / 2 - 20 / 2)) eqn:E;
      [|rewrite andb_false_r; reflexivity].
    apply Qgeb_ge in E. revert E. qdiv. intros E. lra. }
  assert (Hnotice : pointInRect px py (noticeButton width height) = false).
  { unfold pointInRect, noticeButton. cbv zeta. cbn [r_x r_y r_w r_h].
    destruct (Qgeb px (width / 2 - 140 / 2)) eqn:E; [|reflexivity].
    apply Qgeb_ge in E. revert E Hx. qdiv. intros E Hx. lra. }
  split; [exact Hreset|]. split; [exact Hnotice|].
  cbv zeta.
  assert (E : fst (mousePressed (hudUi width height noticeShown) px py sk g)
              = set_game (fst (placeCueBall px py (game sk) g)) sk).
  { unfold mousePressed, hudUi. cbv zeta.
    cbn [noticeResetRect resetRect].
    assert (Hn : onButton (if noticeShown then Some (noticeButton width height)
                           else None) px py = false)
      by (destruct noticeShown; [exact Hnotice|reflexivity]).
    rewrite Hn. cbn [onButton]. rewrite Hreset, Hover, Hnone.
    unfold bind, ret. destruct (placeCueBall px py (game sk) g). reflexivity. }
  rewrite E. cbn [set_game game]. split; [reflexivity|].
  unfold placeCueBall. rewrite Hnone, Ht, Hd.
  unfold bind, ret, createBall, cueExtra. cbn.
  eexists. split; [reflexivity|]. split; reflexivity.
Qed.

(** After [setup], a click on the brown spot while the notice shows. *)
Lemma X23_click_in_D_witness :
  pointInRect (p_x (brown (spots (rebuildTableGeometry 1280 720))))
              (p_y (brown (spots (rebuildTableGeometry 1280 720))))
              (noticeButton 1280 720) = false.
Proof.
  destruct (X23_click_in_D 1280 720
              (p_x (brown (spots (rebuildTableGeometry 1280 720))))
              (p_y (brown (spots (rebuildTableGeometry 1280 720))))
              true (setupOn 1280 720 rngZero) rngZero) as (_ & H & _);
    [vm_compute; discriminate | vm_compute; discriminate
    | vm_compute; reflexivity | vm_compute; reflexivity
    | vm_compute; reflexivity | vm_compute; reflexivity | exact H].
Defined.

(** When there is room on the right of the table, the panel docks
    there. *)
Lemma getDockedPanelPos_right (t : Table)
    (width height panelW panelH topBarH bottomBarH pad : Q) :
  let rightX := t_x t + t_w t + UI_LAYOUT.panelGap in
  let y := constrain (topBarH + 10) (topBarH + 8)
                     (height - bottomBarH - panelH - 8) in
  pad <= rightX -> rightX + panelW <= width - pad ->
  topBarH + 8 <= height - bottomBarH - panelH - 8 ->
  getDockedPanelPos t width height panelW panelH topBarH bottomBarH pad
  = mkPoint rightX y /\
  topBarH + 8 <= y /\ y + panelH <= height - bottomBarH - 8.
Proof.
  intros rightX y H1 H2 H3.
  assert (Hy : topBarH + 8 <= y /\ y <= height - bottomBarH - panelH - 8).
  { unfold y. apply constrain_bounds. exact H3. }
  destruct Hy as [Hy1 Hy2].
  unfold getDockedPanelPos. cbv zeta. fold rightX. fold y.
  assert (Hf : fits width height panelW panelH topBarH bottomBarH pad rightX y
               = true).
  { unfold fits. rewrite !andb_true_iff. repeat split.
    - apply Qgeb_ge. exact H1.
    - apply Qgeb_ge. exact Hy1.
    - apply Qle_bool_iff. exact H2.
    - apply Qle_bool_iff. lra. }
  rewrite Hf. split; [reflexivity|]. split; [exact Hy1|lra].
Qed.

(** X24: on a canvas at least 980 wide and 308 high the statistics panel
    docks on the right of the table, one gap away from it, so it never
    covers the table; it is 240 wide and at least 220 high, and lies
    within the canvas, inside the side padding and between the two
    bars. *)
Theorem X24_panel_dock :
  forall (width height : Q) (log : list LogEntry),
    980 <= width -> 308 <= height ->
    let t := rebuildTableGeometry width height in
    let r := pn_rect (drawStatsAndLogPanel t width height log
                        UI_LAYOUT.topBarH UI_LAYOUT.bottomBarH
                        UI_LAYOUT.sidePad) in
    r_x r = t_x t + t_w t + UI_LAYOUT.panelGap /\
    r_w r = UI_LAYOUT.panelW /\
    UI_LAYOUT.panelH <= r_h r /\
    r_x r + r_w r <= width - UI_LAYOUT.sidePad /\
    UI_LAYOUT.topBarH + 8 <= r_y r /\
    r_y r + r_h r <= height - UI_LAYOUT.bottomBarH - 8.
Proof.
  intros width height log Hw Hh t r.
  assert (Ht : t_x t == 20 /\ 0 <= t_w t /\ t_w t <= width - 296).
  { unfold t, rebuildTableGeometry, UI_LAYOUT.topBarH, UI_LAYOUT.bottomBarH,
      UI_LAYOUT.sidePad, UI_LAYOUT.panelW, UI_LAYOUT.panelGap.
    cbv zeta. cbn [t_x t_w].
    assert (Hc : Qgeb width 980 = true) by (apply Qgeb_ge; exact Hw).
    rewrite Hc.
    split; [reflexivity|]. split; [apply Q.min_glb; lra|].
    apply Qle_trans with (width - 20 - (240 + 16 + 20)); [apply Q.le_min_l|lra]. }
  destruct Ht as (Hx & Hw0 & Hw1).
  unfold r, drawStatsAndLogPanel. cbv zeta. cbn [pn_rect r_x r_y r_w r_h].
  clearbody t.
  unfold UI_LAYOUT.topBarH, UI_LAYOUT.bottomBarH, UI_LAYOUT.sidePad,
    UI_LAYOUT.panelW, UI_LAYOUT.panelH, UI_LAYOUT.panelGap in *.
  assert (Hdock : Qle_bool (t_x t + t_w t + 16 + 240 + 20) width = true)
    by (apply Qle_bool_iff; lra).
  rewrite Hdock.
  set (panelH := Qmax 220 (height - 40 - 32 - 24)).
  assert (Hp1 : 220 <= panelH) by apply Q.le_max_l.
  assert (Hp2 : panelH <= height - 88) by (apply Q.max_lub; lra).
  clearbody panelH.
  destruct (getDockedPanelPos_right t width height 240 panelH 40 32 20)
    as (E & Hy1 & Hy2);
    unfold UI_LAYOUT.panelGap; try lra.
  rewrite E. cbn [p_x p_y]. unfold UI_LAYOUT.panelGap.
  split; [reflexivity|]. split; [reflexivity|]. split; [exact Hp1|].
  split; [lra|]. split; [exact Hy1|exact Hy2].
Qed.

(** The canvas of [setup]. *)
Lemma X24_panel_dock_witness :
  let t := rebuildTableGeometry 1280 720 in
  r_x (pn_rect (drawStatsAndLogPanel t 1280 720 []
                  UI_LAYOUT.topBarH UI_LAYOUT.bottomBarH UI_LAYOUT.sidePad))
  = t_x t + t_w t + UI_LAYOUT.panelGap.
Proof.
  destruct (X24_panel_dock 1280 720 []) as (H & _);
    [vm_compute; discriminate | vm_compute; discriminate | exact H].
Defined.

(** ** The rows of the log *)

Lemma combine_seq_rows {A} (f : nat -> Q) (l : list A) :
  forall (i : nat) (P : Q -> Prop),
    (forall j, (i <= j < i + List.length l)%nat -> P (f j)) ->
    Forall (fun row : Q * A => P (fst row))
           (map (fun ie => (f (fst ie), snd ie))
                (combine (seq i (List.length l)) l)) /\
    map snd (map (fun ie : nat * A => (f (fst ie), snd ie))
                 (combine (seq i (List.length l)) l)) = l.
Proof.
  induction l as [|a l IH]; intros i P HP; cbn; [split; [constructor|reflexivity]|].
  destruct (IH (S i) P) as [H1 H2];
    [intros j Hj; apply HP; cbn [List.length]; lia|].
  split; [constructor; [cbn; apply HP; cbn [List.length]; lia|exact H1]|].
  rewrite H2. reflexivity.
Qed.

(** X25: the panel lists the last [maxRows] entries of the log, oldest
    first (all of them while there are fewer).  The panel being at least
    220 high, [maxRows] is at least 4, so the slice is never the whole of
    a longer log; and every row, 22 high, lies between the heading of the
    log and the bottom margin of the panel. *)
Theorem X25_log_rows :
  forall (t : Table) (width height : Q) (log : list LogEntry),
    let p := drawStatsAndLogPanel t width height log
               UI_LAYOUT.topBarH UI_LAYOUT.bottomBarH UI_LAYOUT.sidePad in
    let r := pn_rect p in
    let k := Z.to_nat (pn_maxRows p) in
    (4 <= pn_maxRows p)%Z /\
    map snd (pn_rows p) = skipn (List.length log - k) log /\
    (List.length (pn_rows p) = Nat.min (List.length log) k)%nat /\
    Forall (fun row : Q * LogEntry =>
              r_y r + 114 <= fst row /\
              fst row + 22 <= r_y r + r_h r - 12)
           (pn_rows p).
Proof.
  intros t width height log. cbv zeta.
  unfold drawStatsAndLogPanel. cbv zeta.
  cbn [pn_rect pn_maxRows pn_rows r_y r_h].
  set (panelH := if Qle_bool _ width then _ else _).
  assert (Hp : 220 <= panelH).
  { unfold panelH, UI_LAYOUT.panelH. destruct (Qle_bool _ width);
      [apply Q.le_max_l|lra]. }
  clearbody panelH.
  set (y := p_y (getDockedPanelPos _ _ _ _ _ _ _ _)). clearbody y.
  set (q := (y + panelH - 12 - (y + 10 + 22 + 18 + 18 + 16 + 10 + 20)) / 22).
  assert (Hq : q == (panelH - 126) / 22) by (unfold q; field).
  assert (H4 : (4 <= Qfloor q)%Z).
  { change 4%Z with (Qfloor 4). apply Qfloor_resp_le. rewrite Hq.
    revert Hp. qdiv. intros Hp. lra. }
  assert (Hfl : inject_Z (Qfloor q) <= q) by apply Qfloor_le.
  rewrite (Z.max_r 0 (Qfloor q)) by lia.
  set (m := Qfloor q) in *. clearbody m. clearbody q.
  unfold sliceLast.
  assert (Hm0 : (m =? 0)%Z = false) by (apply Z.eqb_neq; lia).
  rewrite Hm0.
  set (rows := skipn (List.length log - Z.to_nat m) log).
  assert (Hlen : (List.length rows = Nat.min (List.length log) (Z.to_nat m))%nat)
    by (unfold rows; rewrite length_skipn; lia).
  split; [exact H4|].
  destruct (combine_seq_rows (fun j => y + 10 + 22 + 18 + 18 + 16 + 10 + 20
                                         + nq j * 22) rows 0
              (fun v => y + 114 <= v /\ v + 22 <= y + panelH - 12))
    as [Hall Hsnd].
  { intros j Hj. cbn [plus] in Hj.
    assert (Hj0 : 0 <= nq j) by apply nq_nonneg.
    assert (Hj1 : nq j + 1 <= inject_Z m).
    { unfold nq. rewrite <- (inject_Z_plus _ 1), <- Zle_Qle. lia. }
    revert Hq Hfl. qdiv. intros Hq Hfl. split; lra. }
  split; [exact Hsnd|]. split; [|exact Hall].
  rewrite length_map, length_combine, length_seq. lia.
Qed.

(** ** No ball stays lost *)

Section Lost.
Context {math : P5Math}.

Lemma stepBallBody_position (t : Table) (bd : Body) :
  position (stepBallBody t bd)
  = if escaped t (position bd) then
      mkPoint (constrain (p_x (position bd)) (r_x (surface t) + ballR t)
                         (r_x (surface t) + r_w (surface t) - ballR t))
              (constrain (p_y (position bd)) (r_y (surface t) + ballR t)
                         (r_y (surface t) + r_h (surface t) - ballR t))
    else position bd.
Proof.
  unfold stepBallBody. cbv zeta.
  destruct (escaped t (position bd)); break_ifs; reflexivity.
Qed.

(** On a table with room for a ball, a live ball is inside the margin
    after its iteration of [stepBalls]. *)
Lemma stepBall_inside (t : Table) (b : Ball) :
  0 <= ballR t -> 2 * ballR t <= r_w (surface t) ->
  2 * ballR t <= r_h (surface t) ->
  potted (stepBall t b) = false ->
  escaped t (position (body (stepBall t b))) = false.
Proof.
  intros Hr Hw Hh. unfold stepBall.
  destruct (potted b) eqn:Hp; [intros E; congruence|].
  cbn [potted body]. intros _. rewrite stepBallBody_position.
  destruct (escaped t (position (body b))) eqn:He; [|exact He].
  unfold escaped. cbv zeta. cbn [p_x p_y].
  set (sf := surface t) in *. set (r := ballR t) in *.
  destruct (constrain_bounds (p_x (position (body b)))
              (r_x sf + r) (r_x sf + r_w sf - r)) as [X1 X2]; [lra|].
  destruct (constrain_bounds (p_y (position (body b)))
              (r_y sf + r) (r_y sf + r_h sf - r)) as [Y1 Y2]; [lra|].
  rewrite !orb_false_iff. unfold Qgtb. rewrite !Qltb_ge.
  repeat split; lra.
Qed.

(** X26: on the table of any canvas at least as high as the two bars,
    [stepBalls] leaves no live ball more than four radii outside the
    playing surface; it keeps the number of reds and of colours, and
    whether there is a cue ball. *)
Theorem X26_no_ball_lost :
  forall (width height : Q) (s : State),
    0 <= width -> 72 <= height ->
    table s = rebuildTableGeometry width height ->
    Forall (fun b => potted b = false ->
                     escaped (table s) (position (body b)) = false)
           (all_balls (stepBalls s)) /\
    List.length (reds (stepBalls s)) = List.length (reds s) /\
    List.length (colours (stepBalls s)) = List.length (colours s) /\
    (cueBall (stepBalls s) = None <-> cueBall s = None).
Proof.
  intros width height s Hw Hh Ht.
  assert (Hgeo : 0 <= ballR (table s) /\
                 2 * ballR (table s) <= r_w (surface (table s)) /\
                 2 * ballR (table s) <= r_h (surface (table s))).
  { rewrite Ht.
    destruct (geometry_grid width height) as (HR & HW & HH & _).
    cbv zeta in HR, HW, HH.
    assert (Hd : 0 <= ballD (rebuildTableGeometry width height)).
    { unfold rebuildTableGeometry, UI_LAYOUT.topBarH, UI_LAYOUT.bottomBarH,
        UI_LAYOUT.sidePad, UI_LAYOUT.panelW, UI_LAYOUT.panelGap.
      cbv zeta. cbn [ballD].
      destruct (Qgeb width 980) eqn:Hc.
      - apply Qgeb_ge in Hc.
        set (L := Qmin _ _).
        assert (H3 : 0 <= L) by (apply Q.min_glb; lra).
        clearbody L. qdiv. lra.
      - set (L := Qmin _ _).
        assert (H3 : 0 <= L) by (apply Q.min_glb; lra).
        clearbody L. qdiv. lra. }
    revert HR HW HH Hd.
    generalize (ballR (rebuildTableGeometry width height)).
    generalize (ballD (rebuildTableGeometry width height)).
    generalize (surface (rebuildTableGeometry width height)).
    intros sf d r HR HW HH Hd. repeat split; lra. }
  destruct Hgeo as (Hr & Hrw & Hrh).
  unfold stepBalls. cbv zeta.
  cbn [reds colours cueBall set_reds set_colours set_cueBall].
  split; [|split; [apply length_map|split; [apply length_map|]]].
  - unfold all_balls.
    cbn [reds colours cueBall set_reds set_colours set_cueBall].
    assert (Hmap : forall l,
               Forall (fun b => potted b = false ->
                                escaped (table s) (position (body b)) = false)
                      (map (stepBall (table s)) l)).
    { intros l. apply Forall_forall. intros b Hb.
      apply in_map_iff in Hb. destruct Hb as (b0 & <- & _).
      apply stepBall_inside; assumption. }
    destruct (cueBall s) as [c|]; cbn [option_map with_cue].
    + rewrite <- map_app.
      apply Forall_app. split; [apply Hmap|].
      constructor; [|constructor]. apply stepBall_inside; assumption.
    + rewrite <- map_app. apply Hmap.
  - destruct (cueBall s); cbn [option_map]; split; intros H;
      try discriminate; reflexivity.
Qed.

End Lost.

(** The table of [setup] with a cue ball that has left the canvas. *)
Lemma X26_no_ball_lost_witness :
  let s := set_cueBall
             (Some (cueBallAt (rebuildTableGeometry 1280 720) 5000 360 0 0))
             (initialState (rebuildTableGeometry 1280 720)) in
  Forall (fun b => potted b = false ->
                   escaped (table s) (position (body b)) = false)
         (all_balls (@stepBalls mathAtZero s)).
Proof.
  cbv zeta.
  destruct (@X26_no_ball_lost mathAtZero 1280 720
              (set_cueBall
                 (Some (cueBallAt (rebuildTableGeometry 1280 720) 5000 360 0 0))
                 (initialState (rebuildTableGeometry 1280 720)))) as (H & _);
    [vm_compute; discriminate | vm_compute; discriminate | reflexivity
    | exact H].
Defined.

(** ** A stroke with the mouse *)

Section Drag.
Context {math : P5Math}.

(** X27: with the cue ball at rest, no ball moving and the frame not
    over, a press that misses the two buttons starts the aim without
    touching the game; a drag to [(x1, y1)] sets the power to the distance
    between the cue ball (not the point pressed) and the pointer, divided
    by ten ball diameters and clamped to [0, 1]; the release ends the aim
    and fires that stroke: one force of [0.012 * power] along the aim
    angle, on the cue ball, and one more shot on the counter. *)
Theorem X27_drag_shot :
  forall (ui : Ui) (x0 y0 x1 y1 : Q) (g : Rng) (sk : Sketch) (cue : Ball),
    gameOver (game sk) = false -> cueBall (game sk) = Some cue ->
    isCueBallResting (game sk) = true -> areAnyBallsMoving (game sk) = false ->
    onButton (noticeResetRect ui) x0 y0 = false ->
    onButton (resetRect ui) x0 y0 = false ->
    let sk1 := fst (mousePressed ui x0 y0 sk g) in
    let sk2 := mouseDragged x1 y1 sk1 in
    let sk3 := mouseReleased sk2 in
    let power :=
      constrain (sqrt (dist2 (p_x (position (body cue)))
                             (p_y (position (body cue))) x1 y1)
                 / (ballD (table (game sk)) * 10)) 0 1 in
    isAiming sk1 = true /\ game sk1 = game sk /\
    aimPower (game sk2) = power /\ aimAngle (game sk2) = aimAngle (game sk) /\
    isAiming sk3 = false /\ dragPower sk3 = None /\
    shotsTaken (game sk3) = (shotsTaken (game sk) + 1)%Z /\
    shotInProgress (game sk3) = true /\
    cueBall (game sk3)
    = Some (applyForce cue
              (mkPoint (cos (aimAngle (game sk)) * (0.012 * power))
                       (sin (aimAngle (game sk)) * (0.012 * power)))) /\
    reds (game sk3) = reds (game sk) /\ colours (game sk3) = colours (game sk).
Proof.
  intros ui x0 y0 x1 y1 g sk cue Hover Hc Hr Hm Hn Hb sk1 sk2 sk3 power.
  assert (E1 : sk1 = mkSketch (game sk) (themeIndex sk) true
                       (Some (mkDrag (position (body cue)) (mkPoint x0 y0)))).
  { unfold sk1, mousePressed. cbv zeta.
    rewrite Hn, Hb, Hover, Hc, Hr, Hm. reflexivity. }
  assert (E2 : sk2 = mkSketch (set_aim (aimAngle (game sk)) power (game sk))
                       (themeIndex sk) true
                       (Some (mkDrag (position (body cue)) (mkPoint x1 y1)))).
  { unfold sk2. rewrite E1. unfold mouseDragged. cbv zeta.
    cbn [game dragPower isAiming themeIndex d_start d_current p_x p_y negb].
    rewrite Hover, Hc. reflexivity. }
  set (s2 := set_aim (aimAngle (game sk)) power (game sk)) in *.
  assert (Hc2 : cueBall s2 = Some cue) by exact Hc.
  assert (Hr2 : isCueBallResting s2 = true) by exact Hr.
  assert (Hm2 : areAnyBallsMoving s2 = false) by exact Hm.
  assert (E3 : sk3 = mkSketch (tryShoot s2) (themeIndex sk) false None).
  { unfold sk3. rewrite E2. unfold mouseReleased.
    cbn [game isAiming themeIndex].
    change (gameOver s2) with (gameOver (game sk)). rewrite Hover. reflexivity. }
  rewrite E1, E2, E3. cbn [game isAiming dragPower].
  rewrite (tryShoot_accepted s2 cue Hc2 Hr2 Hm2).
  repeat split.
Qed.

End Drag.

(** On the table of [setup], the cue ball at rest at (200, 250): a press
    and a drag along x by as much as the cue ball is from the origin. *)
Lemma X27_drag_shot_witness :
  isAiming (@mouseReleased mathAtZero
              (@mouseDragged mathAtZero 400 250
                 (fst (mousePressed (mkUi None None) 300 300
                         (mkSketch aimingState 0 false None) rngZero))))
  = false.
Proof.
  destruct (cueBall aimingState) as [cue|] eqn:Hc;
    [|vm_compute in Hc; discriminate].
  destruct (@X27_drag_shot mathAtZero (mkUi None None) 300 300 400 250 rngZero
              (mkSketch aimingState 0 false None) cue)
    as (_ & _ & _ & _ & H & _);
    [vm_compute; reflexivity | exact Hc | vm_compute; reflexivity
    | vm_compute; reflexivity | reflexivity | reflexivity | exact H].
Defined.

(** ** A ray from inside always finds a wall *)

Lemma rayRectHit_none (ox oy dx dy minX minY maxX maxY : Q) :
  rayRectHit ox oy dx dy minX minY maxX maxY = None ->
  wallCandidates ox oy dx dy minX minY maxX maxY = [].
Proof.
  unfold wallCandidates, rayRectHit, crossX, crossY, lt_best. cbv zeta.
  cbn [filter wh_t wh_x wh_y].
  destruct (Qgtb (Qabs dx) 0.000001);
    destruct (Qgtb (Qabs dy) 0.000001);
    repeat match goal with
           | |- context [Qgtb ?t 0.0001 && ?a && ?b] =>
               let E := fresh "E" in
               destruct (Qgtb t 0.0001 && a && b) eqn:E; cbn [andb]
           end;
    repeat match goal with
           | |- context [Qltb ?a ?b] => destruct (Qltb a b)
           end;
    cbn [app]; intros H; try discriminate; reflexivity.
Qed.

(** Along one axis: while the parameter is between [0.0001] and the time
    [T] the forward wall [W] is reached, the coordinate stays between the
    two walls. *)
Lemma axis_range (o d lo hi W T t : Q) :
  lo < o + 0.0001 * d < hi -> lo <= W <= hi -> T * d == W - o ->
  0.0001 <= t <= T ->
  lo <= o + t * d <= hi.
Proof.
  intros [H1 H2] [H3 H4] HT [Ht1 Ht2].
  destruct (Qlt_le_dec d 0) as [Hd|Hd]; split; nra.
Qed.

(** The forward wall along an axis the direction is not parallel to. *)
Lemma axis_forward (o d lo hi : Q) :
  lo < o + 0.0001 * d < hi -> ~ d == 0 ->
  (0 < d /\ 0.0001 < (hi - o) / d /\ (hi - o) / d * d == hi - o) \/
  (d < 0 /\ 0.0001 < (lo - o) / d /\ (lo - o) / d * d == lo - o).
Proof.
  intros [H1 H2] Hd.
  destruct (Qlt_le_dec 0 d) as [Hp|Hn].
  - left. assert (E : (hi - o) / d * d == hi - o) by (field; exact Hd).
    split; [exact Hp|]. split; [|exact E].
    destruct (Qlt_le_dec 0.0001 ((hi - o) / d)) as [H|H]; [exact H|].
    exfalso. nra.
  - assert (Hneg : d < 0).
    { destruct (Qlt_le_dec d 0) as [H|H]; [exact H|]. exfalso. apply Hd. lra. }
    right. assert (E : (lo - o) / d * d == lo - o) by (field; exact Hd).
    split; [exact Hneg|]. split; [|exact E].
    destruct (Qlt_le_dec 0.0001 ((lo - o) / d)) as [H|H]; [exact H|].
    exfalso. nra.
Qed.

Lemma candidate_x (ox oy dx dy minX minY maxX maxY W : Q) (n : Point) :
  Qgtb (Qabs dx) 0.000001 = true ->
  (W = minX /\ n = mkPoint (-1) 0) \/ (W = maxX /\ n = mkPoint 1 0) ->
  0.0001 < (W - ox) / dx ->
  minY <= oy + (W - ox) / dx * dy <= maxY ->
  wallCandidates ox oy dx dy minX minY maxX maxY <> [].
Proof.
  intros Hd HW Ht [Hlo Hhi] Hnil.
  assert (Hin : In (crossX ox oy dx dy W n)
                   (wallCandidates ox oy dx dy minX minY maxX maxY)).
  { unfold wallCandidates. rewrite Hd. apply in_or_app. left.
    apply filter_In. split.
    - destruct HW as [[-> ->]|[-> ->]]; cbn; auto.
    - unfold crossX. cbn [wh_t wh_y]. rewrite !andb_true_iff. repeat split.
      + apply Qgtb_gt. exact Ht.
      + apply Qgeb_ge. exact Hlo.
      + apply Qle_bool_iff. exact Hhi. }
  rewrite Hnil in Hin. destruct Hin.
Qed.

Lemma candidate_y (ox oy dx dy minX minY maxX maxY W : Q) (n : Point) :
  Qgtb (Qabs dy) 0.000001 = true ->
  (W = minY /\ n = mkPoint 0 (-1)) \/ (W = maxY /\ n = mkPoint 0 1) ->
  0.0001 < (W - oy) / dy ->
  minX <= ox + (W - oy) / dy * dx <= maxX ->
  wallCandidates ox oy dx dy minX minY maxX maxY <> [].
Proof.
  intros Hd HW Ht [Hlo Hhi] Hnil.
  assert (Hin : In (crossY ox oy dx dy W n)
                   (wallCandidates ox oy dx dy minX minY maxX maxY)).
  { unfold wallCandidates. rewrite Hd. apply in_or_app. right.
    apply filter_In. split.
    - destruct HW as [[-> ->]|[-> ->]]; cbn; auto.
    - unfold crossY. cbn [wh_t wh_x]. rewrite !andb_true_iff. repeat split.
      + apply Qgtb_gt. exact Ht.
      + apply Qgeb_ge. exact Hlo.
      + apply Qle_bool_iff. exact Hhi. }
  rewrite Hnil in Hin. destruct Hin.
Qed.

(** X28: when the point of the ray at parameter [0.0001] is strictly
    inside the rectangle, and each component of the direction is either
    zero or larger than [0.000001] in absolute value (not both zero),
    [rayRectHit] finds a wall.  (A component that is not zero but at most
    [0.000001] makes the code ignore two of the walls.) *)
Theorem X28_rayRectHit_complete :
  forall ox oy dx dy minX minY maxX maxY : Q,
    minX < ox + 0.0001 * dx < maxX ->
    minY < oy + 0.0001 * dy < maxY ->
    dx == 0 \/ 0.000001 < Qabs dx ->
    dy == 0 \/ 0.000001 < Qabs dy ->
    ~ (dx == 0 /\ dy == 0) ->
    exists wh, rayRectHit ox oy dx dy minX minY maxX maxY = Some wh.
Proof.
  intros ox oy dx dy minX minY maxX maxY HX HY Hdx Hdy Hnz.
  destruct (rayRectHit ox oy dx dy minX minY maxX maxY) as [wh|] eqn:E;
    [exists wh; reflexivity|].
  exfalso. apply rayRectHit_none in E. revert E.
  assert (Hmm : minX <= maxX /\ minY <= maxY) by (split; lra).
  destruct Hmm as [HmX HmY].
  destruct Hdx as [Zx|Px]; destruct Hdy as [Zy|Py].
  - exfalso. apply Hnz. split; assumption.
  - (* parallel to the y axis *)
    assert (Hd : ~ dy == 0).
    { intros H. rewrite H in Py. change (Qabs 0) with 0 in Py. lra. }
    apply Qgtb_gt in Py.
    destruct (axis_forward oy dy minY maxY HY Hd) as [(Hs & Ht & Et)|(Hs & Ht & Et)].
    + apply (candidate_y ox oy dx dy minX minY maxX maxY maxY (mkPoint 0 1));
        auto. rewrite Zx. split; nra.
    + apply (candidate_y ox oy dx dy minX minY maxX maxY minY (mkPoint 0 (-1)));
        auto. rewrite Zx. split; nra.
  - (* parallel to the x axis *)
    assert (Hd : ~ dx == 0).
    { intros H. rewrite H in Px. change (Qabs 0) with 0 in Px. lra. }
    apply Qgtb_gt in Px.
    destruct (axis_forward ox dx minX maxX HX Hd) as [(Hs & Ht & Et)|(Hs & Ht & Et)].
    + apply (candidate_x ox oy dx dy minX minY maxX maxY maxX (mkPoint 1 0));
        auto. rewrite Zy. split; nra.
    + apply (candidate_x ox oy dx dy minX minY maxX maxY minX (mkPoint (-1) 0));
        auto. rewrite Zy. split; nra.
  - (* oblique: the wall reached first *)
    assert (Hdx : ~ dx == 0).
    { intros H. rewrite H in Px. change (Qabs 0) with 0 in Px. lra. }
    assert (Hdy : ~ dy == 0).
    { intros H. rewrite H in Py. change (Qabs 0) with 0 in Py. lra. }
    apply Qgtb_gt in Px. apply Qgtb_gt in Py.
    assert (Hx : exists WX nx,
               ((WX = minX /\ nx = mkPoint (-1) 0) \/
                (WX = maxX /\ nx = mkPoint 1 0)) /\
               minX <= WX <= maxX /\
               0.0001 < (WX - ox) / dx /\ (WX - ox) / dx * dx == WX - ox).
    { destruct (axis_forward ox dx minX maxX HX Hdx)
        as [(Hs & Ht & Et)|(Hs & Ht & Et)].
      - exists maxX, (mkPoint 1 0). repeat split; auto; lra.
      - exists minX, (mkPoint (-1) 0). repeat split; auto; lra. }
    assert (Hy : exists WY ny,
               ((WY = minY /\ ny = mkPoint 0 (-1)) \/
                (WY = maxY /\ ny = mkPoint 0 1)) /\
               minY <= WY <= maxY /\
               0.0001 < (WY - oy) / dy /\ (WY - oy) / dy * dy == WY - oy).
    { destruct (axis_forward oy dy minY maxY HY Hdy)
        as [(Hs & Ht & Et)|(Hs & Ht & Et)].
      - exists maxY, (mkPoint 0 1). repeat split; auto; lra.
      - exists minY, (mkPoint 0 (-1)). repeat split; auto; lra. }
    destruct Hx as (WX & nx & HWX & HrX & HtX & EX).
    destruct Hy as (WY & ny & HWY & HrY & HtY & EY).
    destruct (Qlt_le_dec ((WY - oy) / dy) ((WX - ox) / dx)) as [Hlt|Hle].
    + apply (candidate_y ox oy dx dy minX minY maxX maxY WY ny); auto.
      apply (axis_range ox dx minX maxX WX ((WX - ox) / dx)); auto.
      split; lra.
    + apply (candidate_x ox oy dx dy minX minY maxX maxY WX nx); auto.
      apply (axis_range oy dy minY maxY WY ((WY - oy) / dy)); auto.
      split; lra.
Qed.

(** From the centre of a 20 by 20 box, direction (3/5, 4/5). *)
Lemma X28_rayRectHit_complete_witness :
  exists wh, rayRectHit 0 0 (3 # 5) (4 # 5) (-10) (-10) 10 10 = Some wh.
Proof.
  apply (X28_rayRectHit_complete 0 0 (3 # 5) (4 # 5) (-10) (-10) 10 10);
    try (split; vm_compute; reflexivity).
  - right. vm_compute. reflexivity.
  - right. vm_compute. reflexivity.
  - intros [H _]. vm_compute in H. discriminate.
Defined.

(** ** Trails *)

Lemma FOP_filter {A} (R : A -> A -> Prop) (f : A -> bool) (l : list A) :
  ForallOrdPairs R l -> ForallOrdPairs R (filter f l).
Proof.
  induction 1 as [|a l Ha Hl IH]; cbn; [constructor|].
  destruct (f a); [|exact IH].
  constructor; [|exact IH].
  apply Forall_forall. intros x Hx. apply filter_In in Hx.
  rewrite Forall_forall in Ha. apply Ha, Hx.
Qed.

Lemma FOP_map {A B} (R : B -> B -> Prop) (f : A -> B) (l : list A) :
  ForallOrdPairs (fun a b => R (f a) (f b)) l -> ForallOrdPairs R (map f l).
Proof.
  induction 1 as [|a l Ha Hl IH]; cbn; constructor; [|exact IH].
  apply Forall_map. exact Ha.
Qed.

(** A trail with the invariant has at most six points. *)
Lemma trail_short (trail : list TrailPoint) :
  forall lo : Q,
    lo <= 120 ->
    Forall (fun p => lo < tp_a p <= 102) trail ->
    ForallOrdPairs (fun p q => tp_a p + 18 <= tp_a q) trail ->
    nq (List.length trail) * 18 <= 120 - lo.
Proof.
  induction trail as [|p trail IH]; intros lo Hlo Hall Hord.
  - cbn. change (nq 0) with 0. lra.
  - inversion Hall as [|? ? [Hp1 Hp2] Hall']; subst.
    inversion Hord as [|? ? Hgap Hord']; subst.
    cbn [List.length]. rewrite nq_succ.
    assert (IH' : nq (List.length trail) * 18 <= 120 - (lo + 18)).
    { apply IH; [lra| |exact Hord'].
      rewrite Forall_forall in *. intros q Hq.
      specialize (Hall' q Hq). specialize (Hgap q Hq). lra. }
    lra.
Qed.

Section Trail.
Context {math : P5Math}.

Lemma stepTrail_inv (t : Table) (b : Ball) (trail : list TrailPoint) :
  trailInv trail ->
  trailInv (stepTrail t b trail) /\
  (potted b = false ->
   stepTrail t b trail
   = filter (fun p => Qgtb (tp_a p) 0)
       (map (fun p => mkTrailPoint (tp_x p) (tp_y p) (tp_a p - 18))
            (if Qgtb (magnitude (velocity (stepBallBody t (body b)))) 0.15
             then trail ++ [mkTrailPoint
                              (p_x (position (stepBallBody t (body b))))
                              (p_y (position (stepBallBody t (body b)))) 120]
             else trail))).
Proof.
  intros [Hall Hord]. unfold stepTrail.
  destruct (potted b); [split; [split; assumption|discriminate]|].
  cbv zeta.
  set (pushed := if Qgtb _ 0.15 then _ else trail).
  assert (Hp : Forall (fun p => 0 < tp_a p <= 120) pushed /\
               ForallOrdPairs (fun p q => tp_a p + 18 <= tp_a q) pushed).
  { unfold pushed. destruct (Qgtb _ 0.15).
    - split.
      + apply Forall_app. split.
        * eapply Forall_impl; [|exact Hall]. cbn. intros p Hpa. lra.
        * repeat constructor; cbn; lra.
      + apply FOP_snoc; [exact Hord|].
        eapply Forall_impl; [|exact Hall]. cbn. intros p Hpa. lra.
    - split; [|exact Hord].
      eapply Forall_impl; [|exact Hall]. cbn. intros p Hpa. lra. }
  destruct Hp as [Hpall Hpord]. clearbody pushed.
  set (faded := map (fun p => mkTrailPoint (tp_x p) (tp_y p) (tp_a p - 18)) pushed).
  assert (Hf : Forall (fun p => tp_a p <= 102) faded /\
               ForallOrdPairs (fun p q => tp_a p + 18 <= tp_a q) faded).
  { unfold faded. split.
    - apply Forall_map. eapply Forall_impl; [|exact Hpall]. cbn. intros p Hpa. lra.
    - apply FOP_map. clear - Hpord.
      induction Hpord as [|a l Ha Hl IH]; constructor; [|exact IH].
      eapply Forall_impl; [|exact Ha]. cbn. intros q Hq. lra. }
  destruct Hf as [Hfall Hford]. clearbody faded.
  set (kept := filter (fun p => Qgtb (tp_a p) 0) faded).
  assert (Hk : trailInv kept).
  { unfold kept. split; [|apply FOP_filter; exact Hford].
    apply Forall_forall. intros p Hp. apply filter_In in Hp.
    destruct Hp as [Hin Hpos]. apply Qgtb_gt in Hpos.
    rewrite Forall_forall in Hfall. specialize (Hfall p Hin). lra. }
  assert (Hlen : (List.length kept <= 10)%nat).
  { destruct Hk as [Ka Ko].
    pose proof (trail_short kept 0 ltac:(lra) Ka Ko) as Hs.
    destruct (le_lt_dec (List.length kept) 6) as [H|H]; [lia|].
    exfalso.
    assert (H7 : nq 7 <= nq (List.length kept)).
    { unfold nq. rewrite <- Zle_Qle. lia. }
    change (nq 7) with 7 in H7. lra. }
  assert (E : lastN 10 kept = kept).
  { unfold lastN. replace (List.length kept - 10)%nat with 0%nat by lia.
    reflexivity. }
  rewrite E. split; [exact Hk|reflexivity].
Qed.

(** X29: a trail starts empty and fades by 18 a frame from 120, so it
    never holds more than six points, each at least 18 fainter than the
    next; the cut to the last ten points in [stepBalls] therefore never
    removes anything. *)
Theorem X29_trail_short :
  forall (t : Table) (bs : list Ball) (b : Ball),
    let trail := trailAfter t bs in
    (List.length trail <= 6)%nat /\
    Forall (fun p => 0 < tp_a p <= 102) trail /\
    ForallOrdPairs (fun p q => tp_a p + 18 <= tp_a q) trail /\
    (potted b = false ->
     stepTrail t b trail
     = filter (fun p => Qgtb (tp_a p) 0)
         (map (fun p => mkTrailPoint (tp_x p) (tp_y p) (tp_a p - 18))
              (if Qgtb (magnitude (velocity (stepBallBody t (body b)))) 0.15
               then trail ++ [mkTrailPoint
                                (p_x (position (stepBallBody t (body b))))
                                (p_y (position (stepBallBody t (body b)))) 120]
               else trail))).
Proof.
  intros t bs b. cbv zeta.
  assert (Hinv : trailInv (trailAfter t bs)).
  { unfold trailAfter.
    assert (Hgen : forall l tr, trailInv tr ->
                     trailInv (fold_left (fun trail b0 => stepTrail t b0 trail) l tr)).
    { induction l as [|b0 l IH]; intros tr Htr; [exact Htr|].
      cbn [fold_left]. apply IH. apply stepTrail_inv. exact Htr. }
    apply Hgen. split; constructor. }
  destruct (stepTrail_inv t b _ Hinv) as [_ Hstep].
  destruct Hinv as [Ka Ko].
  split; [|split; [exact Ka|split; [exact Ko|exact Hstep]]].
  pose proof (trail_short _ 0 ltac:(lra) Ka Ko) as Hs.
  destruct (le_lt_dec (List.length (trailAfter t bs)) 6) as [H|H]; [exact H|].
  exfalso.
  assert (H7 : nq 7 <= nq (List.length (trailAfter t bs))).
  { unfold nq. rewrite <- Zle_Qle. lia. }
  change (nq 7) with 7 in H7. lra.
Qed.

End Trail.

(* ------------------------------------------------------------------ *)
(** ** The frame-over state *)

Lemma redsNamed_snoc (l : list Ball) (b : Ball) :
  Forall (fun r => is_black (id r) = false) l ->
  is_black (id b) = false -> redsNamed (l ++ [b]).
Proof.
  intros Hl Hb. split.
  - destruct l; discriminate.
  - apply Forall_app. split; [exact Hl | repeat constructor; exact Hb].
Qed.

Lemma createBall_red (x y r : Q) (c : string) (g : Rng) :
  is_black (id (fst (createBall x y r c redExtra g))) = false.
Proof. reflexivity. Qed.

(** The colours draw nothing from the random stream: their ids are
    given. *)
Lemma createColouredBalls_fixed (t : Table) (g : Rng) :
  createColouredBalls t g = (fst (createColouredBalls t rngZero), g).
Proof. reflexivity. Qed.

Lemma triangle_named (t : Table) (g : Rng) :
  redsNamed (fst (createRedsStandardTriangle t g)).
Proof.
  split.
  - intros H. apply (f_equal (@List.length Ball)) in H.
    destruct (triangle_fresh t g) as [_ Hn]. rewrite Hn in H. discriminate.
  - cbv [createRedsStandardTriangle foldM seq bind ret createBall redExtra
         e_id e_isCue e_isRed random1 draw fst app].
    repeat constructor.
Qed.

Lemma foldM_cons {A S : Type} (f : S -> A -> M S) (a : A) (l : list A)
    (s : S) (g : Rng) :
  foldM f (a :: l) s g = foldM f l (fst (f s a g)) (snd (f s a g)).
Proof. cbn [foldM]. unfold bind. destruct (f s a g); reflexivity. Qed.

(** One cell of the practice grid keeps a list of reds that is not
    empty. *)
Lemma practice_cell_named (t : Table) (cols : list Ball) (x y : Q)
    (lst : list Ball) (g : Rng) :
  redsNamed lst ->
  redsNamed
    (fst ((if pointInSurface t x y (ballR t)
              && nonOverlapping x y (ballR t) lst cols None
           then b <- createBall x y (ballR t) "#c1121f" redExtra ;;
                ret (lst ++ [b])
           else ret lst) g)).
Proof.
  intros H. destruct (_ && _); [|exact H].
  apply redsNamed_snoc; [apply H | reflexivity].
Qed.

(** On the table of [setup] the first cell of the practice grid is on the
    surface and clear of the colours, so the layout has a red. *)
Lemma practice_named (g : Rng) :
  redsNamed
    (fst (createRedsPracticeLayout setupTable
            (fst (createColouredBalls setupTable rngZero)) None g)).
Proof.
  unfold createRedsPracticeLayout. cbv zeta.
  change (seq 0 3) with (0%nat :: seq 1 2).
  rewrite foldM_cons.
  apply foldM_inv.
  { intros s a g0 Hs. apply foldM_inv; [|exact Hs].
    intros s1 a1 g1 Hs1. apply practice_cell_named. exact Hs1. }
  change (seq 0 5) with (0%nat :: seq 1 4).
  rewrite foldM_cons.
  apply foldM_inv.
  { intros s1 a1 g1 Hs1. apply practice_cell_named. exact Hs1. }
  match goal with
  | |- context [if ?c then _ else _] =>
      assert (Hc : c = true) by (vm_compute; reflexivity); rewrite Hc
  end.
  apply redsNamed_snoc; [constructor | reflexivity].
Qed.

(** An attempt loop that places a ball leaves a list that is not empty;
    one that places none leaves the list as it was. *)
Lemma clusterAttempts_placed (t : Table) (cols : list Ball)
    (clusters : list Cluster) (n : nat) :
  forall (lst : list Ball) (g : Rng),
    Forall (fun r => is_black (id r) = false) lst ->
    forall res, res = fst (clusterAttempts t cols None clusters n lst g) ->
    Forall (fun r => is_black (id r) = false) (fst res) /\
    (snd res = true -> fst res <> []) /\
    (snd res = false -> fst res = lst).
Proof.
  induction n as [|n IH]; intros lst g Hl res Hr.
  - cbn in Hr. subst res. cbn.
    split; [exact Hl|]. split; [discriminate | reflexivity].
  - cbn [clusterAttempts] in Hr. unfold bind at 1 in Hr.
    destruct (random1 _ g) as [k g1]. unfold bind at 1 in Hr.
    destruct (random2 _ _ g1) as [x g2]. unfold bind at 1 in Hr.
    destruct (random2 _ _ g2) as [y g3].
    destruct (pointInSurface t x y (ballR t)); cbn [negb] in Hr;
      [|apply (IH lst g3 Hl res Hr)].
    destruct (nonOverlapping x y (ballR t) lst cols None); cbn [negb] in Hr;
      [|apply (IH lst g3 Hl res Hr)].
    cbn in Hr. subst res. cbn [fst snd]. split; [|split].
    + apply Forall_app. split; [exact Hl | repeat constructor].
    + intros _. destruct lst; discriminate.
    + discriminate.
Qed.

Lemma clusterAttempts_named (t : Table) (cols : list Ball)
    (clusters : list Cluster) (n : nat) (lst : list Ball) (g : Rng) :
  Forall (fun r => is_black (id r) = false) lst ->
  Forall (fun r => is_black (id r) = false)
    (fst (fst (clusterAttempts t cols None clusters n lst g))) /\
  (snd (fst (clusterAttempts t cols None clusters n lst g)) = true ->
   fst (fst (clusterAttempts t cols None clusters n lst g)) <> []) /\
  (snd (fst (clusterAttempts t cols None clusters n lst g)) = false ->
   fst (fst (clusterAttempts t cols None clusters n lst g)) = lst).
Proof.
  intros Hl. eapply clusterAttempts_placed; [exact Hl | reflexivity].
Qed.

(** One pass of the clustered layout keeps a list of reds that is not
    empty. *)
Lemma clustered_pass_named (t : Table) (cols : list Ball)
    (clusters : list Cluster) (lst : list Ball) (i : nat) (g : Rng) :
  redsNamed lst ->
  redsNamed
    (fst ((res <- clusterAttempts t cols None clusters 300 lst ;;
           let (lst, placed) := res in
           if negb placed then
             let fx := p_x (pink (spots t)) + ballD t * 2
                       + nq (i mod 5) * ballD t * 1.1 in
             let fy := (r_y (surface t) + r_h (surface t) / 2)
                       + (nq (i / 5) - 1) * ballD t * 1.2 in
             if pointInSurface t fx fy (ballR t)
                && nonOverlapping fx fy (ballR t) lst cols None then
               b <- createBall fx fy (ballR t) "#c1121f" redExtra ;;
               ret (lst ++ [b])
             else ret lst
           else ret lst) g)).
Proof.
  intros [Hne Hl].
  destruct (clusterAttempts_named t cols clusters 300 lst g Hl)
    as (Hf & Hs & Hk).
  unfold bind at 1.
  destruct (clusterAttempts t cols None clusters 300 lst g) as [[l1 placed] g1].
  cbn [fst snd] in Hf, Hs, Hk.
  destruct placed; cbn [negb].
  - split; [apply Hs; reflexivity | exact Hf].
  - cbv zeta. destruct (_ && _).
    + apply redsNamed_snoc; [exact Hf | reflexivity].
    + split; [rewrite Hk by reflexivity; exact Hne | exact Hf].
Qed.

(** On the table of [setup] the first fallback slot of the clustered
    layout is on the surface and clear of the colours, so the layout has a
    red whether or not its first attempt loop places one. *)
Lemma clustered_named (g : Rng) :
  redsNamed
    (fst (createRedsClusteredRandom setupTable
            (fst (createColouredBalls setupTable rngZero)) None g)).
Proof.
  unfold createRedsClusteredRandom. cbv zeta. unfold bind at 1.
  destruct (foldM _ (seq 0 3) [] g) as [clusters g1].
  change (seq 0 15) with (0%nat :: seq 1 14).
  rewrite foldM_cons.
  apply foldM_inv.
  { intros s a g0 Hs. apply clustered_pass_named. exact Hs. }
  destruct (clusterAttempts_named setupTable
              (fst (createColouredBalls setupTable rngZero)) clusters 300
              [] g1 (Forall_nil _)) as (Hf & Hs & Hk).
  unfold bind at 1.
  destruct (clusterAttempts setupTable _ None clusters 300 [] g1)
    as [[l1 placed] g2].
  cbn [fst snd] in Hf, Hs, Hk.
  destruct placed; cbn [negb].
  - split; [apply Hs; reflexivity | exact Hf].
  - rewrite Hk by reflexivity.
    match goal with
    | |- context [if ?c then _ else _] =>
        assert (Hc : c = true) by (vm_compute; reflexivity); rewrite Hc
    end.
    apply redsNamed_snoc; [constructor | reflexivity].
Qed.

(** On the table of [setup], each of the three layouts has a red, and no
    red carries the id of the black. *)
Lemma setMode_redsInPlay (n : Z) (s : State) (g : Rng) :
  table s = setupTable -> (n = 1 \/ n = 2 \/ n = 3)%Z ->
  redsInPlay (fst (setMode n s g)).
Proof.
  intros Ht Hn.
  destruct (setMode_balls n s g) as (Htab & _ & _ & Hreds).
  cbv zeta in Htab, Hreds.
  destruct (setMode_shape n s g) as (rs & cols & Hshape).
  assert (Hmode : mode (fst (setMode n s g)) = n)
    by (rewrite Hshape; reflexivity).
  unfold redsInPlay. rewrite Htab, Hmode, Hreds, Ht.
  split; [reflexivity|]. split; [exact Hn|].
  rewrite createColouredBalls_fixed. cbn [fst snd].
  destruct Hn as [->|[->| ->]]; cbn [Z.eqb Pos.eqb].
  - apply triangle_named.
  - apply clustered_named.
  - apply practice_named.
Qed.

Lemma redsInPlay_same (s s' : State) :
  table s' = table s -> mode s' = mode s -> reds s' = reds s ->
  redsInPlay s -> redsInPlay s'.
Proof.
  unfold redsInPlay. intros -> -> ->. exact (fun H => H).
Qed.

Lemma staysPotted_named (l l' : list Ball) :
  Forall2 staysPotted l l' -> redsNamed l -> redsNamed l'.
Proof.
  intros H [Hne Hl]. split.
  - destruct H; [contradiction | discriminate].
  - clear Hne. induction H as [|b b' l l' [Hid _] _ IH]; [constructor|].
    inversion Hl; subst.
    constructor; [rewrite Hid; assumption | apply IH; assumption].
Qed.

Lemma frame_table (ph : Physics) (s : State) : table (frame ph s) = table s.
Proof.
  unfold frame. destruct (negb (gameOver s)); [|reflexivity].
  transitivity (table (handlePotting (stepPhysics ph s))).
  - unfold finalizeShotIfSettled. break_ifs; reflexivity.
  - destruct (handlePotting_spec (stepPhysics ph s)) as (_ & _ & Ht & _).
    exact Ht.
Qed.

Lemma frame_redsInPlay (ph : Physics) (s : State) :
  redsInPlay s -> redsInPlay (frame ph s).
Proof.
  intros (Ht & Hm & Hr). unfold redsInPlay.
  destruct (frame_aim ph s) as (_ & _ & Hmode).
  rewrite frame_table, Hmode.
  split; [exact Ht|]. split; [exact Hm|].
  exact (staysPotted_named _ _ (proj1 (frame_stays ph s)) Hr).
Qed.

Lemma tryShoot_redsInPlay {math : P5Math} (s : State) :
  redsInPlay s -> redsInPlay (tryShoot s).
Proof.
  apply redsInPlay_same; unfold tryShoot;
    (destruct (cueBall s); [|reflexivity]); break_ifs; reflexivity.
Qed.

Lemma placeCueBall_redsInPlay (x y : Q) (s : State) (g : Rng) :
  redsInPlay s -> redsInPlay (fst (placeCueBall x y s g)).
Proof.
  apply redsInPlay_same; unfold placeCueBall;
    (destruct (cueBall s); [reflexivity|]);
    (destruct (pointInD (table s) x y); reflexivity).
Qed.

(** The reds of every state the sketch reaches from [setup]. *)
Lemma reachable_redsInPlay {math : P5Math} (atan2 : Q -> Q -> Q)
    (ins : list Input) (g : Rng) :
  redsInPlay (game (reactAll atan2 ins (setupOn 1280 720 g))).
Proof.
  apply (reachable_inv atan2 redsInPlay).
  - intros n s g0 (Ht & Hm & _) Hn. apply setMode_redsInPlay; [exact Ht|].
    destruct Hn as [Hn|[Hn|[Hn|Hn]]]; [tauto | tauto | tauto | ].
    rewrite Hn. exact Hm.
  - apply @tryShoot_redsInPlay.
  - intros v s. apply redsInPlay_same; reflexivity.
  - intros a p s Hs _. revert Hs. apply redsInPlay_same; reflexivity.
  - apply placeCueBall_redsInPlay.
  - apply frame_redsInPlay.
  - intros s. apply redsInPlay_same; reflexivity.
  - apply setMode_redsInPlay; [reflexivity | left; reflexivity].
Qed.

Lemma list_set_named (l : list Ball) (i : nat) (b : Ball) :
  is_black (id b) = false -> redsNamed l -> redsNamed (list_set l i b).
Proof.
  intros Hb [Hne Hl]. split.
  - destruct l; [contradiction|]. destruct i; discriminate.
  - clear Hne. revert i. induction Hl as [|a l Ha Hl IH]; intros i;
      [constructor|].
    destruct i; cbn [list_set]; constructor; auto.
Qed.

Lemma potStepAt_named (pr : Q) (s : State) (ref : BallRef) :
  redsNamed (reds s) -> redsNamed (reds (potStepAt pr s ref)).
Proof.
  intros H. unfold potStepAt, potStep.
  destruct (get_ball s ref) as [b|] eqn:E; [|exact H].
  destruct (potted b); [exact H|].
  destruct (firstPocket _ _ _) as [p|]; [|exact H].
  destruct (potBall_balls ref b p s) as [-> _].
  destruct ref as [i| |]; [|exact H|cbn; destruct (cueBall s); exact H].
  cbn. apply list_set_named; [|exact H].
  cbn in E. apply nth_error_In in E.
  destruct H as [_ Hl]. rewrite Forall_forall in Hl. apply (Hl b E).
Qed.

(** The reds at every point of the scan of [handlePotting]. *)
Lemma scan_named (pr : Q) (refs : list BallRef) :
  forall s, redsNamed (reds s) ->
            redsNamed (reds (fold_left (potStepAt pr) refs s)).
Proof.
  induction refs as [|ref refs IH]; intros s H; [exact H|].
  cbn [fold_left]. apply IH. apply potStepAt_named. exact H.
Qed.

(** C4: in every state the sketch reaches from [setup] (any sequence of key
    presses, clicks, drags, releases and frames), and at every point of
    the potting scan of a frame run from such a state, the [reds] array
    is not empty, and potting the ball read at [ref] (for the cue ball,
    the object the scan holds) sets [gameOver] if and only if the ball is
    the black, not the cue ball, and every red is already marked potted:
    a pot of any other ball leaves it unset, and so does a pot of the
    black with a red still live.  Neither the engine step, nor closing a
    shot, nor firing sets it. *)
Theorem C4_frame_over :
  forall (math : P5Math) (atan2 : Q -> Q -> Q) (ins : list Input) (g : Rng)
         (ph : Physics) (pr : Q) (refs : list BallRef)
         (ref : BallRef) (b : Ball) (p : Pocket),
    let s0 := game (reactAll atan2 ins (setupOn 1280 720 g)) in
    let s := fold_left (potStepAt pr) refs (stepPhysics ph s0) in
    gameOver s = false ->
    (ref = CueRef \/ get_ball s ref = Some b) ->
    reds s <> [] /\
    (gameOver (potBall ref b p s) = true <->
     isCue b = false /\ is_black (id b) = true /\
     Forall (fun r => potted r = true) (reds s)) /\
    (forall s' : State,
       gameOver s' = false ->
       (forall ph', gameOver (stepPhysics ph' s') = false) /\
       gameOver (finalizeShotIfSettled s') = false /\
       (forall math' : P5Math, gameOver (@tryShoot math' s') = false)).
Proof.
  intros math atan2 ins g ph pr refs ref b p s0 s Hg Href.
  assert (Hn : redsNamed (reds s)).
  { apply scan_named.
    destruct (reachable_redsInPlay atan2 ins g) as (_ & _ & Hr).
    exact (staysPotted_named _ _ (move_list_stays ph RedRef _ 0) Hr). }
  split; [apply Hn|]. split.
  - rewrite potBall_gameOver, Hg. cbn [orb].
    assert (Hred : is_black (id b) = true ->
                   reds (store_ball s ref (mark_potted b)) = reds s).
    { intros Hb. apply store_ball_reds. intros i ->.
      destruct Href as [Hc|Hget]; [discriminate|].
      cbn in Hget. apply nth_error_In in Hget.
      destruct Hn as [_ Hl]. rewrite Forall_forall in Hl.
      rewrite (Hl b Hget) in Hb. discriminate. }
    split.
    + intros H. apply andb_prop in H. destruct H as [H Hc].
      apply andb_prop in H. destruct H as [Hcue Hb].
      apply negb_true_iff in Hcue.
      rewrite redsCleared_spec, (Hred Hb) in Hc.
      split; [exact Hcue|]. split; [exact Hb | apply Hc].
    + intros (Hcue & Hb & Hall). rewrite Hcue, Hb. cbn [negb andb].
      rewrite redsCleared_spec, (Hred Hb). split; [apply Hn | exact Hall].
  - intros s' Hg'. split; [|split].
    + intros ph'. exact Hg'.
    + unfold finalizeShotIfSettled. break_ifs; exact Hg'.
    + intros math'. unfold tryShoot.
      destruct (cueBall s'); [|exact Hg']. break_ifs; exact Hg'.
Qed.

(** From [setup], a step that leaves every red on a pocket: once the scan
    has potted the fifteen reds, potting the black ends the frame and
    potting the pink does not; before the scan, with the reds live,
    potting the black does not end it. *)
Lemma C4_frame_over_witness :
  let s0 := game (setupOn 1280 720 rngZero) in
  let s1 := stepPhysics sinkReds s0 in
  let s := fold_left (potStepAt (captureRadius s0))
             (map RedRef (seq 0 15)) s1 in
  gameOver s = false /\
  gameOver (potBall (ColourRef 5) (blackOf s) pocketBR s) = true /\
  gameOver (potBall (ColourRef 4) (nth 4 (colours s) (blackOf s)) pocketBR s)
  = false /\
  gameOver (potBall (ColourRef 5) (blackOf s1) pocketBR s1) = false.
Proof.
  cbv zeta.
  set (s0 := game (setupOn 1280 720 rngZero)).
  set (s1 := stepPhysics sinkReds s0).
  set (s := fold_left (potStepAt (captureRadius s0)) (map RedRef (seq 0 15)) s1).
  assert (Hg : gameOver s = false) by (vm_compute; reflexivity).
  assert (Hg1 : gameOver s1 = false) by (vm_compute; reflexivity).
  assert (H5 : ColourRef 5 = CueRef \/ get_ball s (ColourRef 5) = Some (blackOf s))
    by (right; vm_compute; reflexivity).
  assert (H4 : ColourRef 4 = CueRef \/
               get_ball s (ColourRef 4)
               = Some (nth 4 (colours s) (blackOf s)))
    by (right; vm_compute; reflexivity).
  assert (H1 : ColourRef 5 = CueRef \/
               get_ball s1 (ColourRef 5) = Some (blackOf s1))
    by (right; vm_compute; reflexivity).
  destruct (C4_frame_over mathAtZero (fun _ _ => 0) [] rngZero sinkReds
              (captureRadius s0) (map RedRef (seq 0 15)) (ColourRef 5)
              (blackOf s) pocketBR Hg H5) as (_ & Hblack & _).
  destruct (C4_frame_over mathAtZero (fun _ _ => 0) [] rngZero sinkReds
              (captureRadius s0) (map RedRef (seq 0 15)) (ColourRef 4)
              (nth 4 (colours s) (blackOf s)) pocketBR Hg H4)
    as (_ & Hpink & _).
  destruct (C4_frame_over mathAtZero (fun _ _ => 0) [] rngZero sinkReds
              (captureRadius s0) [] (ColourRef 5)
              (blackOf s1) pocketBR Hg1 H1) as (_ & Hlive & _).
  split; [exact Hg|]. split; [|split].
  - apply Hblack. split; [reflexivity|]. split; [reflexivity|].
    vm_compute. repeat constructor.
  - destruct (gameOver (potBall (ColourRef 4) _ pocketBR s)) eqn:E;
      [|reflexivity].
    apply Hpink in E. destruct E as (_ & E & _).
    vm_compute in E. discriminate.
  - destruct (gameOver (potBall (ColourRef 5) _ pocketBR s1)) eqn:E;
      [|reflexivity].
    apply Hlive in E. destruct E as (_ & _ & E).
    vm_compute in E. inversion E; subst. discriminate.
Defined.
